(** * Transaction codec, standardness validator, flag classifier and
      prioritization detector of [frontend/src/app/shared/transaction.utils.ts]

    The TypeScript functions are embedded as Rocq functions of the same
    name.  JavaScript numbers that hold integers are [Z]; the few places
    where the source divides a string length by two are computed in [Q];
    hex strings are [string]s whose characters stand for UTF-16 code units
    below 256; byte arrays are lists of [Z] in [0, 256). *)

From Stdlib Require Import ZArith QArith Qround Qabs String Ascii List Lia Bool.
From stdpp Require Import gmap strings list pretty.

Local Open Scope string_scope.
Local Open Scope Z_scope.

#[local] Set Warnings "-clear-no-such-hyp".

(** ** JavaScript primitives used by the source *)

Module JS.

(** *** Strings *)

Definition len (s : string) : Z := Z.of_nat (String.length s).

(** [s.startsWith(p)] *)
Definition startsWith (s p : string) : bool := String.prefix p s.

(** [s.includes(p)] *)
Fixpoint includes (s p : string) : bool :=
  String.prefix p s ||
  match s with
  | EmptyString => false
  | String _ s' => includes s' p
  end.

Definition rev (s : string) : string :=
  string_of_list_ascii (List.rev (list_ascii_of_string s)).

(** [s.endsWith(p)] *)
Definition endsWith (s p : string) : bool := String.prefix (rev p) (rev s).

(** Relative index of [slice]: negative positions count from the end. *)
Definition rel_index (n i : Z) : Z :=
  if i <? 0 then Z.max (n + i) 0 else Z.min i n.

(** [s.slice(start, end)]; [end = None] stands for an omitted argument. *)
Definition slice (s : string) (start : Z) (stop : option Z) : string :=
  let n := len s in
  let from := rel_index n start in
  let to := match stop with None => n | Some e => rel_index n e end in
  String.substring (Z.to_nat from) (Z.to_nat (Z.max (to - from) 0)) s.

(** [s.substring(a, b)]: both ends clamped to [0, length], swapped when
    out of order. *)
Definition substring (s : string) (a b : Z) : string :=
  let n := len s in
  let a' := Z.min (Z.max a 0) n in
  let b' := Z.min (Z.max b 0) n in
  String.substring (Z.to_nat (Z.min a' b')) (Z.to_nat (Z.abs (b' - a'))) s.

(** [s.substr(start, length)] for a non-negative [start]. *)
Definition substr (s : string) (start length : Z) : string :=
  String.substring (Z.to_nat start) (Z.to_nat length) s.

(** [c.repeat(n)] for a one-character string. *)
Definition repeat (c : ascii) (n : Z) : string :=
  string_of_list_ascii (List.repeat c (Z.to_nat n)).

(** [s.split(sep)] for a one-character separator: the empty string
    splits into one empty piece. *)
Fixpoint split (sep : ascii) (s : string) : list string :=
  match s with
  | EmptyString => [EmptyString]
  | String c s' =>
      if Ascii.eqb c sep then EmptyString :: split sep s'
      else match split sep s' with
           | [] => [String c EmptyString]
           | w :: ws => String c w :: ws
           end
  end.

(** [b.join(' ')] *)
Fixpoint join (sep : string) (l : list string) : string :=
  match l with
  | [] => ""
  | [x] => x
  | x :: r => x +:+ sep +:+ join sep r
  end.

(** [s] without its first [n] characters. *)
Fixpoint skipn (n : nat) (s : string) : string :=
  match n, s with
  | S k, String _ s' => skipn k s'
  | _, _ => s
  end.

(** The rest of [s] after the literal [p], when [s] starts with it. *)
Definition after (p s : string) : option string :=
  if String.prefix p s then Some (skipn (String.length p) s) else None.

(** [arr.includes(x)] on an array of strings. *)
Definition mem (x : string) (l : list string) : bool :=
  existsb (String.eqb x) l.

(** *** Hexadecimal digits and [parseInt] *)

Definition hexval (c : ascii) : option Z :=
  let n := Z.of_nat (nat_of_ascii c) in
  if (48 <=? n) && (n <=? 57) then Some (n - 48)
  else if (97 <=? n) && (n <=? 102) then Some (n - 87)
  else if (65 <=? n) && (n <=? 70) then Some (n - 55)
  else None.

Definition decval (c : ascii) : option Z :=
  let n := Z.of_nat (nat_of_ascii c) in
  if (48 <=? n) && (n <=? 57) then Some (n - 48) else None.

(** White space skipped by [parseInt] (among the code units below 256). *)
Definition is_space (c : ascii) : bool :=
  let n := Z.of_nat (nat_of_ascii c) in
  ((9 <=? n) && (n <=? 13)) || (n =? 32) || (n =? 160).

Fixpoint skip_space (s : string) : string :=
  match s with
  | String c s' => if is_space c then skip_space s' else s
  | EmptyString => s
  end.

(** Longest prefix of digits, read as a number; [None] when there is no
    digit at all. *)
Fixpoint digits (digit : ascii -> option Z) (radix : Z) (acc : option Z) (s : string)
  : option Z :=
  match s with
  | String c s' =>
      match digit c with
      | Some d => digits digit radix (Some (radix * default 0 acc + d)) s'
      | None => acc
      end
  | EmptyString => acc
  end.

(** [parseInt(s, 16)]; [None] is NaN.  The strings parsed by the source
    have at most four characters, so the value is exact. *)
Definition parseInt16 (s : string) : option Z :=
  let s := skip_space s in
  let '(sign, s) :=
    match s with
    | String "-" s' => (-1, s')
    | String "+" s' => (1, s')
    | _ => (1, s)
    end in
  let s :=
    match s with
    | String "0" (String "x" s') => s'
    | String "0" (String "X" s') => s'
    | _ => s
    end in
  option_map (Z.mul sign) (digits hexval 16 None s).

(** *** 32-bit integer operators *)

Definition ToInt32 (z : Z) : Z := (z + 2 ^ 31) mod 2 ^ 32 - 2 ^ 31.
Definition ToUint32 (z : Z) : Z := z mod 2 ^ 32.

(** An operand read from an array may be [undefined], which the bitwise
    operators turn into 0. *)
Definition int32_of (v : option Z) : Z := ToInt32 (default 0 v).

(** [a | b], [a << n], [a >> n], [a & b] on numbers. *)
Definition bor (a b : Z) : Z := ToInt32 (Z.lor (ToInt32 a) (ToInt32 b)).
Definition shl (a n : Z) : Z := ToInt32 (Z.shiftl (ToInt32 a) (n mod 32)).
Definition sar (a n : Z) : Z := Z.shiftr (ToInt32 a) (n mod 32).
Definition band (a b : Z) : Z := ToInt32 (Z.land (ToInt32 a) (ToInt32 b)).

Definition bxor (a b : Z) : Z := ToInt32 (Z.lxor (ToInt32 a) (ToInt32 b)).
Definition ToUint8 (z : Z) : Z := z mod 256.

(** [q1 < q2] on rationals. *)
Definition Qltb (a b : Q) : bool := negb (Qle_bool b a).

(** *** Numbers as doubles

    [Number(n)] of a BigInt, and the sum of two integer-valued doubles:
    the nearest integer with a 53-bit significand, ties to even.  (The
    magnitudes met here stay far below the overflow threshold.) *)
Definition round53 (z : Z) : Z :=
  let a := Z.abs z in
  let e := Z.log2 a - 52 in
  if e <=? 0 then z
  else
    let q := Z.shiftr a e in
    let r := Z.land a (Z.ones e) in
    let half := 2 ^ (e - 1) in
    let q' := if (half <? r) || ((r =? half) && Z.odd q) then q + 1 else q in
    Z.sgn z * (q' * 2 ^ e).

Definition Number (n : Z) : Z := round53 n.
Definition add (a b : Z) : Z := round53 (a + b).
Definition sub (a b : Z) : Z := round53 (a - b).
Definition mul (a b : Z) : Z := round53 (a * b).

(** Truthiness of a value that is an object or [false]/[undefined]. *)
Definition truthy {A} (o : option A) : bool :=
  match o with Some _ => true | None => false end.

(** *** Arrays *)

(** [a[i]]: [undefined] outside the array. *)
Definition get {A} (a : list A) (i : Z) : option A :=
  if (0 <=? i) then a !! Z.to_nat i else None.

(** [a.slice(start, end)] on an array. *)
Definition aslice {A} (a : list A) (start stop : Z) : list A :=
  let n := Z.of_nat (length a) in
  let from := rel_index n start in
  let to := rel_index n stop in
  take (Z.to_nat (Z.max (to - from) 0)) (drop (Z.to_nat from) a).

End JS.

(** ** Data model (interfaces [Vout], [Vin], [Transaction])

    Optional string fields that the source only ever tests for truthiness
    ([inner_redeemscript_asm], [inner_witnessscript_asm]) hold the empty
    string when absent.  The confirmation [status] and the fee-bumping
    metadata play no role in the functions below and are left out. *)

Record Vout := mkVout {
  value : Z;
  scriptpubkey : string;
  scriptpubkey_asm : string;
  scriptpubkey_type : string;
  scriptpubkey_address : option string;
}.

Record Vin := mkVin {
  vin_txid : string;                  (* [txid] *)
  vin_vout : Z;                       (* [vout] *)
  scriptsig : string;
  scriptsig_asm : string;
  sequence : Z;
  is_coinbase : bool;
  witness : option (list string);
  prevout : option Vout;
  inner_redeemscript_asm : string;
  inner_witnessscript_asm : string;
}.

Record Transaction := mkTransaction {
  tx_txid : string;                   (* [txid] *)
  version : Z;
  locktime : Z;
  size : Z;
  weight : Z;
  vin : list Vin;
  vout : list Vout;
  sigops : option Z;
  flags : option Z;
}.

(** [vin.prevout?.scriptpubkey_type], with [undefined] as [None]. *)
Definition prevout_type (v : Vin) : option string :=
  scriptpubkey_type <$> prevout v.

(** ** Bitcoin Core default policy settings *)

Definition MAX_STANDARD_TX_WEIGHT : Z := 400000.
Definition MAX_BLOCK_SIGOPS_COST : Z := 80000.
Definition MAX_STANDARD_TX_SIGOPS_COST : Z := MAX_BLOCK_SIGOPS_COST / 5.
Definition MIN_STANDARD_TX_NONWITNESS_SIZE : Z := 65.
Definition MAX_P2SH_SIGOPS : Z := 15.
Definition MAX_STANDARD_SCRIPTSIG_SIZE : Z := 1650.
Definition DUST_RELAY_TX_FEE : Z := 3.
Definition MAX_OP_RETURN_RELAY : Z := 83.
Definition DEFAULT_PERMIT_BAREMULTISIG : bool := true.

(** ** The opcode table [opcodes], keyed by opcode number *)

Definition opcodes_table : list (Z * string) :=
  [ (0, "OP_0"); (76, "OP_PUSHDATA1"); (77, "OP_PUSHDATA2"); (78, "OP_PUSHDATA4");
    (79, "OP_PUSHNUM_NEG1"); (80, "OP_RESERVED"); (81, "OP_PUSHNUM_1");
    (82, "OP_PUSHNUM_2"); (83, "OP_PUSHNUM_3"); (84, "OP_PUSHNUM_4");
    (85, "OP_PUSHNUM_5"); (86, "OP_PUSHNUM_6"); (87, "OP_PUSHNUM_7");
    (88, "OP_PUSHNUM_8"); (89, "OP_PUSHNUM_9"); (90, "OP_PUSHNUM_10");
    (91, "OP_PUSHNUM_11"); (92, "OP_PUSHNUM_12"); (93, "OP_PUSHNUM_13");
    (94, "OP_PUSHNUM_14"); (95, "OP_PUSHNUM_15"); (96, "OP_PUSHNUM_16");
    (97, "OP_NOP"); (98, "OP_VER"); (99, "OP_IF"); (100, "OP_NOTIF");
    (101, "OP_VERIF"); (102, "OP_VERNOTIF"); (103, "OP_ELSE"); (104, "OP_ENDIF");
    (105, "OP_VERIFY"); (106, "OP_RETURN"); (107, "OP_TOALTSTACK");
    (108, "OP_FROMALTSTACK"); (109, "OP_2DROP"); (110, "OP_2DUP"); (111, "OP_3DUP");
    (112, "OP_2OVER"); (113, "OP_2ROT"); (114, "OP_2SWAP"); (115, "OP_IFDUP");
    (116, "OP_DEPTH"); (117, "OP_DROP"); (118, "OP_DUP"); (119, "OP_NIP");
    (120, "OP_OVER"); (121, "OP_PICK"); (122, "OP_ROLL"); (123, "OP_ROT");
    (124, "OP_SWAP"); (125, "OP_TUCK"); (126, "OP_CAT"); (127, "OP_SUBSTR");
    (128, "OP_LEFT"); (129, "OP_RIGHT"); (130, "OP_SIZE"); (131, "OP_INVERT");
    (132, "OP_AND"); (133, "OP_OR"); (134, "OP_XOR"); (135, "OP_EQUAL");
    (136, "OP_EQUALVERIFY"); (137, "OP_RESERVED1"); (138, "OP_RESERVED2");
    (139, "OP_1ADD"); (140, "OP_1SUB"); (141, "OP_2MUL"); (142, "OP_2DIV");
    (143, "OP_NEGATE"); (144, "OP_ABS"); (145, "OP_NOT"); (146, "OP_0NOTEQUAL");
    (147, "OP_ADD"); (148, "OP_SUB"); (149, "OP_MUL"); (150, "OP_DIV");
    (151, "OP_MOD"); (152, "OP_LSHIFT"); (153, "OP_RSHIFT"); (154, "OP_BOOLAND");
    (155, "OP_BOOLOR"); (156, "OP_NUMEQUAL"); (157, "OP_NUMEQUALVERIFY");
    (158, "OP_NUMNOTEQUAL"); (159, "OP_LESSTHAN"); (160, "OP_GREATERTHAN");
    (161, "OP_LESSTHANOREQUAL"); (162, "OP_GREATERTHANOREQUAL"); (163, "OP_MIN");
    (164, "OP_MAX"); (165, "OP_WITHIN"); (166, "OP_RIPEMD160"); (167, "OP_SHA1");
    (168, "OP_SHA256"); (169, "OP_HASH160"); (170, "OP_HASH256");
    (171, "OP_CODESEPARATOR"); (172, "OP_CHECKSIG"); (173, "OP_CHECKSIGVERIFY");
    (174, "OP_CHECKMULTISIG"); (175, "OP_CHECKMULTISIGVERIFY"); (176, "OP_NOP1");
    (177, "OP_CHECKLOCKTIMEVERIFY"); (178, "OP_CHECKSEQUENCEVERIFY");
    (179, "OP_NOP4"); (180, "OP_NOP5"); (181, "OP_NOP6"); (182, "OP_NOP7");
    (183, "OP_NOP8"); (184, "OP_NOP9"); (185, "OP_NOP10"); (186, "OP_CHECKSIGADD");
    (253, "OP_PUBKEYHASH"); (254, "OP_PUBKEY"); (255, "OP_INVALIDOPCODE") ].

(** [opcodes[op]] for a number [op]. *)
Definition opcodes (op : Z) : option string :=
  snd <$> List.find (fun e => fst e =? op) opcodes_table.

(** [opcodes[op]] for a string [op]: the property whose key is the decimal
    spelling of an opcode number.  (A name inherited from [Object.prototype]
    yields a function; the only use below compares it with [undefined],
    as for a missing key.) *)
Definition opcodes_by_name (op : string) : option string :=
  snd <$> List.find (fun e => String.eqb (pretty (fst e)) op) opcodes_table.

(** [x > y] on strings when [y] may be [undefined]: a comparison with
    [undefined] is false. *)
Definition gt_undef (x : string) (y : option string) : bool :=
  match y with
  | None => false
  | Some y' => String.ltb y' x
  end.

(** ** Signature-operation counting: [countScriptSigops] *)

(** Number of matches of a literal pattern, as [script.match(/pat/g)?.length || 0]
    counts them: left to right, a match resumes the scan after its end.
    [skip] is the number of characters still covered by the last match. *)
Fixpoint count_literal (pat : string) (skip : nat) (s : string) : Z :=
  match s with
  | EmptyString => 0
  | String _ s' =>
      match skip with
      | S k => count_literal pat k s'
      | O =>
          if String.prefix pat s
          then 1 + count_literal pat (String.length pat - 1) s'
          else count_literal pat 0 s'
      end
  end.

(** Split [s] into its longest prefix of decimal digits and the rest. *)
Fixpoint span_digits (s : string) : string * string :=
  match s with
  | String c s' =>
      match JS.decval c with
      | Some _ => let (d, r) := span_digits s' in (String c d, r)
      | None => (EmptyString, s)
      end
  | EmptyString => (EmptyString, EmptyString)
  end.

(** [parseInt(d)] of a string of decimal digits followed by
    [Number.isInteger]: a double unless the value overflows to [Infinity]. *)
Definition parse_pushnum (d : string) : option Z :=
  match JS.digits JS.decval 10 None d with
  | Some n => if n <? 2 ^ 1024 - 2 ^ 970 then Some n else None
  | None => None
  end.

(** One attempt of [/(?:OP_(?:PUSHNUM_)?(\d+))? OP_CHECKMULTISIG/] at the
    start of [s]: the captured group (if it took part) and the length of
    the match.  The digits are taken greedily; giving one back can never
    help, since a digit would have to match the space that follows. *)
Definition match_multisig (s : string) : option (option string * nat) :=
  let literal := " OP_CHECKMULTISIG" in
  let with_group :=
    match JS.after "OP_" s with
    | Some s1 =>
        let s2 := default s1 (JS.after "PUSHNUM_" s1) in
        let (d, s3) := span_digits s2 in
        if negb (String.eqb d "") && String.prefix literal s3
        then Some (Some d, (String.length s - String.length s3 + String.length literal)%nat)
        else None
    | None => None
    end in
  match with_group with
  | Some m => Some m
  | None => if String.prefix literal s then Some (None, String.length literal) else None
  end.

(** The loop over [script.matchAll(...)]: [n] for a counted key number,
    20 otherwise. *)
Fixpoint sum_multisig (skip : nat) (s : string) : Z :=
  match s with
  | EmptyString => 0
  | String _ s' =>
      match skip with
      | S k => sum_multisig k s'
      | O =>
          match match_multisig s with
          | Some (capture, l) =>
              default 20 (capture ≫= parse_pushnum) + sum_multisig (l - 1) s'
          | None => sum_multisig 0 s'
          end
      end
  end.

(** The count is exact as long as it stays below 2^53. *)
Definition countScriptSigops (script : string) (isRawScript witness : bool) : Z :=
  if String.eqb script "" then 0
  else
    let sigops := count_literal "OP_CHECKSIG" 0 script in
    let sigops :=
      if isRawScript
      then sigops + 20 * count_literal "OP_CHECKMULTISIG" 0 script
      else sigops + sum_multisig 0 script in
    if witness then sigops else sigops * 4.

(** ** Witness programs and sizes *)

(** Half the length of a hex string, [s.length / 2]. *)
Definition half_length (s : string) : Q := (inject_Z (JS.len s) / 2)%Q.

Definition isWitnessProgram (scriptpubkey : string) : option (Z * string) :=
  if (JS.len scriptpubkey <? 8) || (84 <? JS.len scriptpubkey) then None
  else
    let version := JS.parseInt16 (JS.slice scriptpubkey 0 (Some 2)) in
    (* a NaN version passes both comparisons *)
    if match version with
       | Some v => (negb (v =? 0) && (v <? 0x51)) || (0x60 <? v)
       | None => false
       end
    then None
    else
      let push := JS.parseInt16 (JS.slice scriptpubkey 2 (Some 4)) in
      match push with
      | Some p =>
          if Qeq_bool (inject_Z (p + 2)) (half_length scriptpubkey)
          then Some (match version with
                     | Some v => if v =? 0 then 0 else v - 0x50
                     | None => 0
                     end,
                     JS.slice scriptpubkey 4 None)
          else None
      | None => None
      end.

(** Modelled from the spec: [getVarIntLength] of [script.utils] is not part
    of the sources at hand; the spec calls its result the varint overhead
    of a length, i.e. the size in bytes of the variable-width integer that
    the codec writes for it (1, 3, 5 or 9 bytes, with the same bounds as
    [varIntToBytes] below). *)
Definition getVarIntLength (n : Q) : Z :=
  if JS.Qltb n 0xfd then 1
  else if Qle_bool n 0xffff then 3
  else if Qle_bool n 0xffffffff then 5
  else 9.

Definition getNonWitnessSize (tx : Transaction) : Z :=
  let '(weight, hasWitness) :=
    fold_left
      (fun '(weight, hasWitness) vin =>
         match witness vin with
         | Some (_ :: _ as wit) =>
             (* witness count *)
             let count := inject_Z (Z.of_nat (length wit)) in
             let weight := (weight - inject_Z (getVarIntLength count))%Q in
             (* witness item size + content *)
             (fold_left
                (fun weight w =>
                   (weight - (inject_Z (getVarIntLength (half_length w)) + half_length w))%Q)
                wit weight,
              true)
         | _ => (weight, hasWitness)
         end)
      (vin tx) (inject_Z (weight tx), false) in
  (* marker & segwit flag *)
  let weight := if hasWitness then (weight - 2)%Q else weight in
  Qceiling (weight / 4).

(** ** Standardness validator *)

(** A property read from one of the activation-height tables: the tables
    are object literals, so besides their own four keys they answer to the
    names inherited from [Object.prototype]. *)
Inductive property :=
| Own (height : Z)
| Inherited
| Absent.

Definition Object_prototype_names : list string :=
  [ "constructor"; "__proto__"; "hasOwnProperty"; "isPrototypeOf";
    "propertyIsEnumerable"; "toLocaleString"; "toString"; "valueOf";
    "__defineGetter__"; "__defineSetter__"; "__lookupGetter__"; "__lookupSetter__" ].

Definition get_property (table : list (string * Z)) (key : string) : property :=
  match List.find (fun e => String.eqb (fst e) key) table with
  | Some e => Own (snd e)
  | None => if JS.mem key Object_prototype_names then Inherited else Absent
  end.

Definition V3_STANDARDNESS_ACTIVATION_HEIGHT : list (string * Z) :=
  [ ("testnet4", 42000); ("testnet", 2900000); ("signet", 211000); ("", 863500) ].

Definition ANCHOR_STANDARDNESS_ACTIVATION_HEIGHT : list (string * Z) :=
  [ ("testnet4", 42000); ("testnet", 2900000); ("signet", 211000); ("", 863500) ].

(** [height != null && network != null && TABLE[network] && height <= TABLE[network]] *)
Definition before_activation (table : list (string * Z))
    (height : option Z) (network : option string) : bool :=
  match height, network with
  | Some h, Some n =>
      match get_property table n with
      | Own a => negb (a =? 0) && (h <=? a)
      | Inherited => false      (* truthy, but [h <= f] is false for a function or object *)
      | Absent => false
      end
  | _, _ => false
  end.

(** The local [TX_MAX_STANDARD_VERSION] of [isNonStandardVersion]. *)
Definition TX_MAX_STANDARD_VERSION (height : option Z) (network : option string) : Z :=
  if before_activation V3_STANDARDNESS_ACTIVATION_HEIGHT height network
  then 2    (* V3 transactions were non-standard to spend before v28.x *)
  else 3.

Definition isNonStandardVersion (tx : Transaction)
    (height : option Z) (network : option string) : bool :=
  if TX_MAX_STANDARD_VERSION height network <? version tx then true else false.

Definition isNonStandardAnchor (tx : Transaction)
    (height : option Z) (network : option string) : bool :=
  if before_activation ANCHOR_STANDARDNESS_ACTIVATION_HEIGHT height network
  then true   (* anchor outputs were non-standard to spend before v28.x *)
  else false.

(** ** The bit field [TransactionFlags] of [filters.utils]

    The table of named bits is not part of the sources at hand; the
    classifier only combines its entries with [|]. *)
Module TransactionFlags.
Record t := {
  rbf : Z; no_rbf : Z; v1 : Z; v2 : Z; v3 : Z; nonstandard : Z;
  p2pk : Z; p2ms : Z; p2pkh : Z; p2sh : Z; p2wpkh : Z; p2wsh : Z; p2tr : Z;
  cpfp_parent : Z; cpfp_child : Z; replacement : Z;
  op_return : Z; fake_pubkey : Z; inscription : Z; fake_scripthash : Z;
  coinjoin : Z; consolidation : Z; batch_payout : Z;
  sighash_all : Z; sighash_none : Z; sighash_single : Z; sighash_default : Z;
  sighash_acp : Z;
}.
End TransactionFlags.

(** The part of [CpfpInfo] that the classifier looks at. *)
Record CpfpInfo := {
  ancestors : list string;
  descendants : option (list string);
}.

(** The functions below call into modules that are not part of the sources
    at hand; they are parameters of the development. *)
Section Collaborators.

(** The table [TransactionFlags] of [filters.utils]. *)
Variable TF : TransactionFlags.t.

(** [parseMultisigScript] of [script.utils]: [(m, n)] or nothing. *)
Variable parseMultisigScript : string -> option (Z * Z).

(** [isPoint] of [script.utils]: whether a hex string is a valid point
    on the secp256k1 curve. *)
Variable isPoint : string -> bool.

(** [new Hash().update(bytes).digest()] of [./sha256]. *)
Variable sha256 : list Z -> list Z.

(** One turn of the input loop: [Some b] when the function returns [b]
    at this input, [None] when the loop goes on. *)
Definition check_vin (tx : Transaction) (height : option Z) (network : option string)
    (vin : Vin) : option bool :=
  if is_coinbase vin then
    (* standardness rules don't apply to coinbase transactions *)
    Some false
  (* scriptsig-size *)
  else if JS.Qltb (inject_Z MAX_STANDARD_SCRIPTSIG_SIZE) (half_length (scriptsig vin)) then
    Some true
  (* scriptsig-not-pushonly *)
  else if negb (String.eqb (scriptsig_asm vin) "")
          && existsb
               (fun op =>
                  match opcodes_by_name op with
                  | Some name => gt_undef name (opcodes_by_name "OP_16")
                  | None => false
                  end)
               (JS.split " " (scriptsig_asm vin)) then
    Some true
  (* bad-txns-nonstandard-inputs *)
  else if bool_decide (prevout_type vin = Some "p2sh") then
    let sigops :=
      (inject_Z (countScriptSigops (inner_redeemscript_asm vin) false false) / 4)%Q in
    if JS.Qltb (inject_Z MAX_P2SH_SIGOPS) sigops then Some true else None
  else if JS.mem (default "" (prevout_type vin)) ["unknown"; "provably_unspendable"; "empty"] then
    Some true
  else if isNonStandardAnchor tx height network then
    Some true
  else None.

Fixpoint check_vins (tx : Transaction) (height : option Z) (network : option string)
    (vins : list Vin) : option bool :=
  match vins with
  | [] => None
  | vin :: rest =>
      match check_vin tx height network vin with
      | Some b => Some b
      | None => check_vins tx height network rest
      end
  end.

(** The dust test of one output. *)
Definition is_dust (vout : Vout) : bool :=
  let dustSize := half_length (scriptpubkey vout) in
  (* add varint length overhead *)
  let dustSize := (dustSize + inject_Z (getVarIntLength dustSize))%Q in
  (* add value size *)
  let dustSize := (dustSize + 8)%Q in
  let dustSize :=
    if JS.truthy (isWitnessProgram (scriptpubkey vout))
    then (dustSize + 67)%Q else (dustSize + 148)%Q in
  JS.Qltb (inject_Z (value vout)) (dustSize * inject_Z DUST_RELAY_TX_FEE).

(** One turn of the output loop on the running [opreturnCount], in its
    two parts; [inl b] when the function returns [b], [inr c] for the
    new count.  First the checks on the script type. *)
Definition check_scriptpubkey (vout : Vout) (opreturnCount : Z) : bool + Z :=
  let ty := scriptpubkey_type vout in
  if JS.mem ty ["nonstandard"; "provably_unspendable"; "empty"] then
    inl true                       (* non-standard output type *)
  else if String.eqb ty "unknown" then
    (* undefined segwit version/length combinations are actually standard in outputs *)
    if JS.startsWith (scriptpubkey vout) "00"
       || negb (JS.truthy (isWitnessProgram (scriptpubkey vout)))
    then inl true else inr opreturnCount
  else if String.eqb ty "multisig" then
    if negb DEFAULT_PERMIT_BAREMULTISIG then inl true    (* bare-multisig *)
    else
      match parseMultisigScript (scriptpubkey_asm vout) with
      | Some (m, n) =>
          if (n <? 1) || (3 <? n) || (m <? 1) || (n <? m)
          then inl true            (* non-standard bare multisig threshold *)
          else inr opreturnCount
      | None => inl true
      end
  else if String.eqb ty "op_return" then
    if JS.Qltb (inject_Z MAX_OP_RETURN_RELAY) (half_length (scriptpubkey vout))
    then inl true                  (* over default datacarrier limit *)
    else inr (opreturnCount + 1)
  else inr opreturnCount.

(** Then the dust check. *)
Definition check_vout (vout : Vout) (opreturnCount : Z) : bool + Z :=
  match check_scriptpubkey vout opreturnCount with
  | inl b => inl b
  | inr c =>
      (* dust *)
      if negb (String.eqb (scriptpubkey_type vout) "op_return") && is_dust vout
      then inl true                  (* under minimum output size *)
      else inr c
  end.

Fixpoint check_vouts (vouts : list Vout) (opreturnCount : Z) : bool + Z :=
  match vouts with
  | [] => inr opreturnCount
  | vout :: rest =>
      match check_vout vout opreturnCount with
      | inl b => inl b
      | inr c => check_vouts rest c
      end
  end.

Definition isNonStandard (tx : Transaction)
    (height : option Z) (network : option string) : bool :=
  (* version *)
  if isNonStandardVersion tx height network then true
  (* tx-size *)
  else if MAX_STANDARD_TX_WEIGHT <? weight tx then true
  (* tx-size-small *)
  else if getNonWitnessSize tx <? MIN_STANDARD_TX_NONWITNESS_SIZE then true
  (* bad-txns-too-many-sigops *)
  else if match sigops tx with
          | Some s => negb (s =? 0) && (MAX_STANDARD_TX_SIGOPS_COST <? s)
          | None => false
          end then true
  else
    (* input validation *)
    match check_vins tx height network (vin tx) with
    | Some b => b
    | None =>
        (* output validation *)
        match check_vouts (vout tx) 0 with
        | inl b => b
        | inr opreturnCount =>
            (* multi-op-return *)
            if 1 <? opreturnCount then true else false
        end
    end.


(** ** Helper functions of the codec *)

Definition hex_digit (n : Z) : ascii :=
  ascii_of_nat (Z.to_nat (if n <? 10 then 48 + n else 87 + n)).

(** [byte.toString(16).padStart(2, '0')] for a byte. *)
Definition byte_to_hex (b : Z) : string :=
  String (hex_digit (b / 16)) (String (hex_digit (b mod 16)) EmptyString).

Definition uint8ArrayToHexString (uint8Array : list Z) : string :=
  fold_right (fun b s => byte_to_hex b +:+ s) "" uint8Array.

(** The bytes of a hex string: [hex.length / 2] of them (rounded down by
    the array constructor), each [parseInt(hex.substr(i * 2, 2), 16)]
    stored into a [Uint8Array], where NaN becomes 0. *)
Definition hexStringToUint8Array (hex : string) : list Z :=
  map (fun i => JS.ToUint8 (default 0 (JS.parseInt16 (JS.substr hex (Z.of_nat i * 2) 2))))
      (seq 0 (String.length hex / 2)).

Definition intToBytes (value : Z) (byteLength : nat) : list Z :=
  map (fun i => JS.band (JS.sar value (8 * Z.of_nat i)) 0xff) (seq 0 byteLength).

Definition bigIntToBytes (value : Z) (byteLength : nat) : list Z :=
  map (fun i => Z.land (Z.shiftr value (8 * Z.of_nat i)) 0xff) (seq 0 byteLength).

(** [varIntToBytes] on a number (the only way the source calls it). *)
Definition varIntToBytes (value : Z) : list Z :=
  if value <? 0xfd then [value]
  else if value <=? 0xffff then [0xfd; JS.band value 0xff; JS.band (JS.sar value 8) 0xff]
  else if value <=? 0xffffffff then 0xfe :: intToBytes value 4
  else [].

(** ** Checksum encoders *)

Definition BASE58_ALPHABET : string :=
  "123456789ABCDEFGHJKLMNPQRSTUVWXYZabcdefghijkmnopqrstuvwxyz".

Definition charAt (s : string) (i : Z) : string :=
  match (if 0 <=? i then String.get (Z.to_nat i) s else None) with
  | Some c => String c EmptyString
  | None => ""
  end.

(** The value of [BigInt("0x" + hexString)] for the bytes of [data]. *)
Definition be_value (data : list Z) : Z :=
  fold_left (fun acc b => acc * 256 + b) data 0.

(** The division loop [while (num > 0)] of [base58Encode]; a number
    needs no more base-58 digits than it has bits. *)
Fixpoint base58_digits (fuel : nat) (num : Z) (encoded : string) : string :=
  match fuel with
  | O => encoded
  | S fuel' =>
      if 0 <? num
      then base58_digits fuel' (num / 58) (charAt BASE58_ALPHABET (num mod 58) +:+ encoded)
      else encoded
  end.

Fixpoint leading_ones (data : list Z) (encoded : string) : string :=
  match data with
  | 0 :: rest => "1" +:+ leading_ones rest encoded
  | _ => encoded
  end.

Definition base58Encode (data : list Z) : string :=
  let num := be_value data in
  leading_ones data (base58_digits (Z.to_nat (Z.log2 num + 1)) num "").

Definition polymodStep (pre : Z) : Z :=
  let b := JS.sar pre 25 in
  let g (bit gen : Z) := if JS.band b bit =? 0 then 0 else gen in
  JS.bxor (JS.shl (JS.band pre 0x1ffffff) 5)
    (JS.bxor (JS.bxor (JS.bxor (JS.bxor (g 1 0x3b6a57b2) (g 2 0x26508e6d))
                               (g 4 0x1ea119fa)) (g 8 0x3d4233dd)) (g 16 0x2a1462b3)).

Definition charCodes (s : string) : list Z :=
  map (fun c => Z.of_nat (nat_of_ascii c)) (list_ascii_of_string s).

Definition prefixChk (prefix : string) : Z :=
  let chk := fold_left (fun chk c => JS.bxor (polymodStep chk) (JS.sar c 5))
               (charCodes prefix) 1 in
  let chk := polymodStep chk in
  fold_left (fun chk c => JS.bxor (polymodStep chk) (JS.band c 0x1f)) (charCodes prefix) chk.

Definition createChecksum (prefix : string) (words : list Z) (constant : Z) : list Z :=
  let chk := fold_left (fun chk x => JS.bxor (polymodStep chk) x) words (prefixChk prefix) in
  let chk := Nat.iter 6 polymodStep chk in
  let chk := JS.bxor chk constant in
  map (fun i => JS.band (JS.sar chk (5 * (5 - Z.of_nat i))) 31) (seq 0 6).

Definition BECH32_ALPHABET : string := "qpzry9x8gf2tvdw0s3jn54khce6mua7l".

Definition bech32Encode (prefix : string) (words : list Z) (constant : Z) : string :=
  let combined := (words ++ createChecksum prefix words constant)%list in
  fold_left (fun result w => result +:+ charAt BECH32_ALPHABET w) combined (prefix +:+ "1").

(** Errors thrown by the codec. *)
Inductive error :=
| Invalid_hex_string
| Buffer_out_of_bounds
| Cannot_read_slice_out_of_bounds
| Invalid_VarInt_prefix
| Transaction_has_unexpected_data
| Invalid_value.

Definition result (A : Type) : Type := error + A.

(** The flush loop [while (bits >= toBits)] of [convertBits]. *)
Fixpoint flush_bits (fuel : nat) (acc bits toBits maxV : Z) (ret : list Z) : Z * list Z :=
  match fuel with
  | O => (bits, ret)
  | S fuel' =>
      if toBits <=? bits
      then let bits := bits - toBits in
           flush_bits fuel' acc bits toBits maxV (ret ++ [JS.band (JS.sar acc bits) maxV])%list
      else (bits, ret)
  end.

(** [convertBits(data, fromBits, toBits, true)] *)
Definition convertBits (data : list Z) (fromBits toBits : Z) : result (list Z) :=
  let maxV := JS.shl 1 toBits - 1 in
  let step (st : result (Z * Z * list Z)) (value : Z) : result (Z * Z * list Z) :=
    match st with
    | inl e => inl e
    | inr (acc, bits, ret) =>
        if (value <? 0) || negb (JS.sar value fromBits =? 0) then inl Invalid_value
        else
          let acc := JS.bor (JS.shl acc fromBits) value in
          let bits := bits + fromBits in
          let (bits, ret) := flush_bits (Z.to_nat (bits / toBits)) acc bits toBits maxV ret in
          inr (acc, bits, ret)
    end in
  match fold_left step data (inr (0, 0, [])) with
  | inl e => inl e
  | inr (acc, bits, ret) =>
      inr (if 0 <? bits
           then ret ++ [JS.band (JS.shl acc (toBits - bits)) maxV]
           else ret)%list
  end.

Definition toWords (bytes : list Z) : result (list Z) := convertBits bytes 8 5.

Definition is_testnet (network : string) : bool :=
  JS.mem network ["testnet"; "testnet4"; "signet"].

Definition base58check (version : Z) (hash : string) : string :=
  let versionedPayload := version :: hexStringToUint8Array hash in
  let hash1 := sha256 versionedPayload in
  let hash2 := sha256 hash1 in
  let checksum := JS.aslice hash2 0 4 in
  base58Encode (versionedPayload ++ checksum)%list.

Definition p2pkh (pubKeyHash network : string) : string :=
  base58check (if is_testnet network then 0x6f else 0x00) pubKeyHash.

Definition p2sh (scriptHash network : string) : string :=
  base58check (if is_testnet network then 0xc4 else 0x05) scriptHash.

Definition segwit_address (version constant : Z) (program network : string) : result string :=
  let hrp := if is_testnet network then "tb" else "bc" in
  match toWords (hexStringToUint8Array program) with
  | inl e => inl e
  | inr words => inr (bech32Encode hrp (version :: words) constant)
  end.

Definition p2wpkh (pubKeyHash network : string) : result string :=
  segwit_address 0 1 pubKeyHash network.

Definition p2wsh (scriptHash network : string) : result string :=
  segwit_address 0 1 scriptHash network.

Definition p2tr (pubKeyHash network : string) : result string :=
  segwit_address 1 0x2bc830a3 pubKeyHash network.

(** ** Script disassembly: [convertScriptSigAsm] *)

(** The body of [while (i < buf.length)]; every turn advances [i], so
    [length buf] turns always suffice.  [b] is the list of mnemonics and
    pushed data produced so far. *)
Fixpoint disassemble (fuel : nat) (buf : list Z) (i : Z) (b : list string) : list string :=
  match fuel with
  | O => b
  | S fuel' =>
      match JS.get buf i with
      | None => b                                  (* [i < buf.length] fails *)
      | Some op =>
          if (0x01 <=? op) && (op <=? 0x4e) then
            let i := i + 1 in
            let '(push, b, i) :=
              if op =? 0x4c then
                (JS.get buf i, b ++ ["OP_PUSHDATA1"], i + 1)
              else if op =? 0x4d then
                (Some (JS.bor (default 0 (JS.get buf i))
                              (JS.shl (default 0 (JS.get buf (i + 1))) 8)),
                 b ++ ["OP_PUSHDATA2"], i + 2)
              else if op =? 0x4e then
                (Some (JS.bor (JS.bor (JS.bor (default 0 (JS.get buf i))
                                              (JS.shl (default 0 (JS.get buf (i + 1))) 8))
                                      (JS.shl (default 0 (JS.get buf (i + 2))) 16))
                              (JS.shl (default 0 (JS.get buf (i + 3))) 24)),
                 b ++ ["OP_PUSHDATA4"], i + 4)
              else
                (Some op, b ++ ["OP_PUSHBYTES_" +:+ pretty op], i) in
            match push with
            | None => b          (* [slice(i, NaN)] is empty and [0 !== undefined] *)
            | Some push =>
                let data := JS.aslice buf i (i + push) in
                if negb (Z.of_nat (length data) =? push) then b
                else disassemble fuel' buf (i + Z.of_nat (length data))
                       (b ++ [uint8ArrayToHexString data])
            end
          else
            let name :=
              if op =? 0x00 then "OP_0"
              else if op =? 0x4f then "OP_PUSHNUM_NEG1"
              else if op =? 0xb1 then "OP_CLTV"
              else if op =? 0xb2 then "OP_CSV"
              else if op =? 0xba then "OP_CHECKSIGADD"
              else match opcodes op with
                   | Some opcode => opcode
                   | None => "OP_RETURN_" +:+ pretty op
                   end in
            disassemble fuel' buf (i + 1) (b ++ [name])
      end
  end%list.

Definition convertScriptSigAsm (hex : string) : string :=
  let buf := hexStringToUint8Array hex in
  JS.join " " (disassemble (length buf) buf 0 []).

(** ** Address derivation: [scriptPubKeyToAddress] *)

Definition is_lower_hex (c : ascii) : bool :=
  let n := Z.of_nat (nat_of_ascii c) in
  ((48 <=? n) && (n <=? 57)) || ((97 <=? n) && (n <=? 102)).

Definition all_chars (p : ascii -> bool) (s : string) : bool :=
  forallb p (list_ascii_of_string s).

(** [/^pre[0-9a-f]{n}suf$/.test(s)] *)
Definition test_hex_template (pre : string) (n : nat) (suf : string) (s : string) : bool :=
  (String.length s =? String.length pre + n + String.length suf)%nat
  && String.prefix pre s
  && all_chars is_lower_hex (String.substring (String.length pre) n s)
  && String.eqb (String.substring (String.length pre + n) (String.length suf) s) suf.

(** The result [{ address, type }], where the address may be [null]. *)
Definition scriptPubKeyToAddress (scriptPubKey network : string)
  : result (option string * string) :=
  (* P2PKH *)
  if test_hex_template "76a914" 40 "88ac" scriptPubKey then
    inr (Some (p2pkh (JS.substring scriptPubKey 6 (6 + 40)) network), "p2pkh")
  (* P2PK *)
  else if test_hex_template "21" 66 "ac" scriptPubKey
          || test_hex_template "41" 130 "ac" scriptPubKey then
    inr (None, "p2pk")
  (* P2SH *)
  else if test_hex_template "a914" 40 "87" scriptPubKey then
    inr (Some (p2sh (JS.substring scriptPubKey 4 (4 + 40)) network), "p2sh")
  (* P2WPKH *)
  else if test_hex_template "0014" 40 "" scriptPubKey then
    match p2wpkh (JS.substring scriptPubKey 4 (4 + 40)) network with
    | inl e => inl e
    | inr a => inr (Some a, "v0_p2wpkh")
    end
  (* P2WSH *)
  else if test_hex_template "0020" 64 "" scriptPubKey then
    match p2wsh (JS.substring scriptPubKey 4 (4 + 64)) network with
    | inl e => inl e
    | inr a => inr (Some a, "v0_p2wsh")
    end
  (* P2TR *)
  else if test_hex_template "5120" 64 "" scriptPubKey then
    match p2tr (JS.substring scriptPubKey 4 (4 + 64)) network with
    | inl e => inl e
    | inr a => inr (Some a, "v1_p2tr")
    end
  (* multisig: [/^[0-9a-f]+ae$/] *)
  else if (3 <=? JS.len scriptPubKey) && all_chars is_lower_hex scriptPubKey
          && JS.endsWith scriptPubKey "ae" then
    inr (None, "multisig")
  (* anchor *)
  else if String.eqb scriptPubKey "51024e73" then
    inr (Some "bc1pfeessrawgf", "anchor")
  (* op_return *)
  else if JS.startsWith scriptPubKey "6a" then
    inr (None, "op_return")
  else inr (None, "unknown").

(** ** Buffer reader

    The closures of [fromBuffer] share the cursor [offset]; here they are
    computations in a state-and-error monad over the cursor. *)

Definition reader (A : Type) : Type := Z -> result (A * Z).

#[global] Instance reader_ret : MRet reader := fun A x offset => inr (x, offset).
#[global] Instance reader_bind : MBind reader := fun A B f m offset =>
  match m offset with
  | inl e => inl e
  | inr (x, offset') => f x offset'
  end.

Definition throw {A} (e : error) : reader A := fun _ => inl e.
Definition get_offset : reader Z := fun offset => inr (offset, offset).
Definition set_offset (o : Z) : reader unit := fun _ => inr (tt, o).
Definition lift {A} (r : result A) : reader A := fun offset =>
  match r with
  | inl e => inl e
  | inr x => inr (x, offset)
  end.

(** [for (let i = 0; i < n; ++i) body], threading an accumulator: the
    body runs [n] times unless it throws. *)
Fixpoint iterate {A} (body : A -> reader A) (p : positive) (a : A) : reader A :=
  match p with
  | xH => body a
  | xO p' => a' ← iterate body p' a; iterate body p' a'
  | xI p' => a' ← body a; a'' ← iterate body p' a'; iterate body p' a''
  end.

Definition for_loop {A} (n : Z) (body : A -> reader A) (a : A) : reader A :=
  match n with
  | Zpos p => iterate body p a
  | _ => mret a
  end.

Section Reader.

Variable buffer : list Z.

Definition buffer_length : Z := Z.of_nat (length buffer).

(** Little-endian combination of four array reads with [|] and [<<];
    a read outside the array is [undefined] and counts as 0. *)
Definition le_int32 (offset : Z) : Z :=
  JS.bor (JS.bor (JS.bor (default 0 (JS.get buffer offset))
                         (JS.shl (default 0 (JS.get buffer (JS.add offset 1))) 8))
                 (JS.shl (default 0 (JS.get buffer (JS.add offset 2))) 16))
         (JS.shl (default 0 (JS.get buffer (JS.add offset 3))) 24).

Definition readInt8 : reader (option Z) := fun offset =>
  if buffer_length <? JS.add offset 1 then inl Buffer_out_of_bounds
  else inr (JS.get buffer offset, JS.add offset 1).

Definition readInt16 : reader Z := fun offset =>
  if buffer_length <? JS.add offset 2 then inl Buffer_out_of_bounds
  else inr (JS.bor (default 0 (JS.get buffer offset))
                   (JS.shl (default 0 (JS.get buffer (JS.add offset 1))) 8),
            JS.add offset 2).

Definition readInt32 (unsigned : bool) : reader Z := fun offset =>
  if buffer_length <? JS.add offset 4 then inl Buffer_out_of_bounds
  else
    let value := le_int32 offset in
    inr (if unsigned then JS.ToUint32 value else value, JS.add offset 4).

Definition readInt64 : reader Z := fun offset =>
  if buffer_length <? JS.add offset 8 then inl Buffer_out_of_bounds
  else
    let low := le_int32 offset in
    let high := le_int32 (JS.add offset 4) in
    inr (Z.lor (Z.shiftl high 32) (Z.land low 0xffffffff), JS.add offset 8).

Definition readVarInt : reader Z :=
  first ← readInt8;
  match first with
  | Some f =>
      if f <? 0xfd then mret f
      else if f =? 0xfd then readInt16
      else if f =? 0xfe then readInt32 true
      else if f =? 0xff then readInt64
      else throw Invalid_VarInt_prefix
  | None => throw Invalid_VarInt_prefix    (* [undefined] fails every comparison *)
  end.

Definition readSlice (n : Z) : reader (list Z) := fun offset =>
  let length := JS.Number n in
  if buffer_length <? JS.add offset length then inl Cannot_read_slice_out_of_bounds
  else inr (JS.aslice buffer offset (JS.add offset length), JS.add offset length).

Definition readVarSlice : reader (list Z) :=
  n ← readVarInt; readSlice n.

Definition readVector : reader (list (list Z)) :=
  count ← readVarInt;
  for_loop count (fun vector => s ← readVarSlice; mret (vector ++ [s])%list) [].

End Reader.

(** ** Serialization and transaction identifier *)

Definition serialize_vin (input : Vin) : list Z :=
  (List.rev (hexStringToUint8Array (vin_txid input))
   ++ intToBytes (vin_vout input) 4
   ++ (let scriptSig := hexStringToUint8Array (scriptsig input) in
       varIntToBytes (Z.of_nat (length scriptSig)) ++ scriptSig)
   ++ intToBytes (sequence input) 4)%list.

Definition serialize_vout (output : Vout) : list Z :=
  (bigIntToBytes (value output) 8
   ++ (let scriptPubKey := hexStringToUint8Array (scriptpubkey output) in
       varIntToBytes (Z.of_nat (length scriptPubKey)) ++ scriptPubKey))%list.

Definition serializeTransaction (tx : Transaction) : list Z :=
  map JS.ToUint8
    ((* Add version *)
     intToBytes (version tx) 4
     (* Add input count and inputs *)
     ++ varIntToBytes (Z.of_nat (length (vin tx)))
     ++ concat (map serialize_vin (vin tx))
     (* Add output count and outputs *)
     ++ varIntToBytes (Z.of_nat (length (vout tx)))
     ++ concat (map serialize_vout (vout tx))
     (* Add locktime *)
     ++ intToBytes (locktime tx) 4)%list.

Definition txid (tx : Transaction) : string :=
  let serializedTx := serializeTransaction tx in
  let hash1 := sha256 serializedTx in
  let hash2 := sha256 hash1 in
  uint8ArrayToHexString (List.rev hash2).

(** ** Decoding: [fromBuffer] and [decodeRawTransaction] *)

(** The body of the input loop. *)
Definition read_vin (buffer : list Z) (vins : list Vin) : reader (list Vin) :=
  txid_bytes ← readSlice buffer 32;
  let txid := uint8ArrayToHexString (List.rev txid_bytes) in
  vout ← readInt32 buffer true;
  script ← readVarSlice buffer;
  let scriptsig := uint8ArrayToHexString script in
  sequence ← readInt32 buffer true;
  let is_coinbase := String.eqb txid (JS.repeat "0" 64) in
  let scriptsig_asm := convertScriptSigAsm scriptsig in
  mret (vins ++ [ {| vin_txid := txid; vin_vout := vout; scriptsig := scriptsig;
                     scriptsig_asm := scriptsig_asm; sequence := sequence;
                     is_coinbase := is_coinbase; witness := None; prevout := None;
                     inner_redeemscript_asm := ""; inner_witnessscript_asm := "" |} ])%list.

(** The body of the output loop. *)
Definition read_vout (buffer : list Z) (network : string) (vouts : list Vout)
  : reader (list Vout) :=
  value64 ← readInt64 buffer;
  let value := JS.Number value64 in
  scriptpubkeyArray ← readVarSlice buffer;
  let scriptpubkey := uint8ArrayToHexString scriptpubkeyArray in
  let scriptpubkey_asm := convertScriptSigAsm scriptpubkey in
  toAddress ← lift (scriptPubKeyToAddress scriptpubkey network);
  mret (vouts ++ [ {| value := value; scriptpubkey := scriptpubkey;
                      scriptpubkey_asm := scriptpubkey_asm;
                      scriptpubkey_type := snd toAddress;
                      scriptpubkey_address := fst toAddress |} ])%list.

Definition set_witness (w : list string) (v : Vin) : Vin :=
  {| vin_txid := vin_txid v; vin_vout := vin_vout v; scriptsig := scriptsig v;
     scriptsig_asm := scriptsig_asm v; sequence := sequence v;
     is_coinbase := is_coinbase v; witness := Some w; prevout := prevout v;
     inner_redeemscript_asm := inner_redeemscript_asm v;
     inner_witnessscript_asm := inner_witnessscript_asm v |}.

(** The body of the witness loop, [tx.vin[i].witness = ...], on the pair
    of [i] and the inputs.  (The loop runs over the indices of the inputs
    just read, so [tx.vin[i]] exists.) *)
Definition read_witness (buffer : list Z) (st : nat * list Vin) : reader (nat * list Vin) :=
  vector ← readVector buffer;
  mret (S (fst st), alter (set_witness (map uint8ArrayToHexString vector)) (fst st) (snd st)).

Definition fromBuffer (buffer : list Z) (network : string) : result Transaction :=
  let parse : reader Transaction :=
    version ← readInt32 buffer false;
    marker ← readInt8 buffer;
    flag ← readInt8 buffer;
    let hasWitnesses := bool_decide (marker = Some 0x00) && bool_decide (flag = Some 0x01) in
    _ ← (if hasWitnesses then mret tt
         else offset ← get_offset; set_offset (JS.sub offset 2));
    vinLen ← readVarInt buffer;
    vins ← for_loop vinLen (read_vin buffer) [];
    voutLen ← readVarInt buffer;
    vouts ← for_loop voutLen (read_vout buffer network) [];
    '(vins, witnessSize) ←
      (if hasWitnesses then
         startOffset ← get_offset;
         st ← for_loop vinLen (read_witness buffer) (O, vins);
         offset ← get_offset;
         mret (snd st, JS.add (JS.sub offset startOffset) 2)
       else mret (vins, 0));
    locktime ← readInt32 buffer true;
    offset ← get_offset;
    if negb (offset =? buffer_length buffer) then throw Transaction_has_unexpected_data
    else
      let size := buffer_length buffer in
      let weight := JS.add (JS.mul (JS.sub size witnessSize) 3) size in
      let tx := {| tx_txid := ""; version := version; locktime := locktime;
                   size := size; weight := weight; vin := vins; vout := vouts;
                   sigops := None; flags := None |} in
      mret {| tx_txid := txid tx; version := version; locktime := locktime;
              size := size; weight := weight; vin := vins; vout := vouts;
              sigops := None; flags := None |} in
  match parse 0 with
  | inl e => inl e
  | inr (tx, _) => inr tx
  end.

Definition is_hex (c : ascii) : bool := JS.truthy (JS.hexval c).

(** The test [!rawtx.length || rawtx.length % 2 !== 0 || !/^[0-9a-fA-F]*$/.test(rawtx)]. *)
Definition invalid_hex_string (rawtx : string) : bool :=
  String.eqb rawtx "" || negb (Nat.even (String.length rawtx))
  || negb (all_chars is_hex rawtx).

(** The buffer filled by [buffer[i / 2] = parseInt(rawtx.substring(i, i + 2), 16)]. *)
Definition hex_buffer (rawtx : string) : list Z :=
  map (fun k =>
         let i := 2 * Z.of_nat k in
         JS.ToUint8 (default 0 (JS.parseInt16 (JS.substring rawtx i (i + 2)))))
      (seq 0 (String.length rawtx / 2)).

Definition decodeRawTransaction (rawtx network : string) : result Transaction :=
  if invalid_hex_string rawtx then inl Invalid_hex_string
  else fromBuffer (hex_buffer rawtx) network.

(** ** Flag classifier *)

Definition setSighashFlags (flags : Z) (signature : string) : Z :=
  let ty := JS.slice signature (-2) None in
  if String.eqb ty "01" then Z.lor flags (TransactionFlags.sighash_all TF)
  else if String.eqb ty "02" then Z.lor flags (TransactionFlags.sighash_none TF)
  else if String.eqb ty "03" then Z.lor flags (TransactionFlags.sighash_single TF)
  else if String.eqb ty "81" then
    Z.lor (Z.lor flags (TransactionFlags.sighash_all TF)) (TransactionFlags.sighash_acp TF)
  else if String.eqb ty "82" then
    Z.lor (Z.lor flags (TransactionFlags.sighash_none TF)) (TransactionFlags.sighash_acp TF)
  else if String.eqb ty "83" then
    Z.lor (Z.lor flags (TransactionFlags.sighash_single TF)) (TransactionFlags.sighash_acp TF)
  else Z.lor flags (TransactionFlags.sighash_default TF).   (* taproot only *)

Definition setSchnorrSighashFlags (flags : Z) (witness : option (list string)) : Z :=
  match witness with
  | None | Some [] => flags               (* no witness items *)
  | Some (w0 :: _ as witness) =>
      let n := length witness in
      let hasAnnex := (1 <? n)%nat && JS.startsWith (List.last witness "") "50" in
      if (n =? (if hasAnnex then 2 else 1))%nat then
        (* keypath spend, signature is the only witness item *)
        if JS.len w0 =? 130 then Z.lor flags (setSighashFlags flags w0)
        else Z.lor flags (TransactionFlags.sighash_default TF)
      else
        (* scriptpath spend, all items except for the script, control block and
           annex could be signatures *)
        fold_left
          (fun flags w =>
             if JS.len w =? 130 then Z.lor flags (setSighashFlags flags w)
             else if JS.len w =? 128 then Z.lor flags (TransactionFlags.sighash_default TF)
             else flags)
          (take (n - (if hasAnnex then 3 else 2)) witness) flags
  end.

Definition isDERSig (w : string) : bool :=
  (18 <=? JS.len w)
  && JS.startsWith w "30"
  && JS.mem (JS.slice w (-2) None) ["01"; "02"; "03"; "81"; "82"; "83"]
  && match JS.parseInt16 (JS.slice w 2 (Some 4)) with
     | Some l => JS.len w =? 2 * l + 6
     | None => false
     end.

Definition setSegwitSighashFlags (flags : Z) (witness : list string) : Z :=
  fold_left
    (fun flags w => if isDERSig w then Z.lor flags (setSighashFlags flags w) else flags)
    witness flags.

Definition setLegacySighashFlags (flags : Z) (scriptsig_asm : string) : Z :=
  fold_left
    (fun flags item =>
       if JS.startsWith item "OP_" then flags          (* skip op_codes *)
       else if isDERSig item then Z.lor flags (setSighashFlags flags item)
       else flags)
    (JS.split " " scriptsig_asm) flags.

Definition isBurnKey (pubkey : string) : bool :=
  JS.mem pubkey
    [ "022222222222222222222222222222222222222222222222222222222222222222";
      "033333333333333333333333333333333333333333333333333333333333333333";
      "020202020202020202020202020202020202020202020202020202020202020202";
      "030303030303030303030303030303030303030303030303030303030303030303" ].

(** Truthiness of an optional string: present and not empty. *)
Definition nonempty (s : option string) : option string :=
  match s with
  | Some a => if String.eqb a "" then None else Some a
  | None => None
  end.

(** [m[a] = (m[a] || 0) + 1] on an address counter.  (Addresses are
    taken not to be names of [Object.prototype] members.) *)
Definition count_address (a : option string) (m : gmap string Z) : gmap string Z :=
  match nonempty a with
  | Some a => <[a := default 0 (m !! a) + 1]> m
  | None => m
  end.

Section Random.

(** [Math.random()]: the values that successive calls return, each
    standing for a number in [[0, 1)].  Amounts are non-zero integers
    when they are used as keys, so the key of an amount and the key of
    a random number never coincide: keys are a disjoint sum. *)
Context {R : Type} `{Countable R}.
Variable random : nat -> R.

(** [value || Math.random()], with the number of calls made so far. *)
Definition value_key (v : option Z) (calls : nat) : (Z + R) * nat :=
  match v with
  | Some x => if x =? 0 then (inr (random calls), S calls) else (inl x, calls)
  | None => (inr (random calls), S calls)
  end.

(** [values[v || Math.random()] = (values[v || Math.random()] || 0) + 1]:
    the key on the left is evaluated first. *)
Definition count_value (v : option Z) (st : gmap (Z + R) Z * nat) : gmap (Z + R) Z * nat :=
  let (k1, calls) := value_key v (snd st) in
  let (k2, calls) := value_key v calls in
  (<[k1 := default 0 (fst st !! k2) + 1]> (fst st), calls).

(** The state of the loop over the inputs. *)
Record vin_state := {
  vs_flags : Z;
  vs_rbf : bool;
  vs_reused : gmap string Z;
  vs_values : gmap (Z + R) Z * nat;
}.

Definition flags_vin (st : vin_state) (vin : Vin) : vin_state :=
  let flags := vs_flags st in
  let rbf := if sequence vin <? 0xfffffffe then true else vs_rbf st in
  let ty := default "" (prevout_type vin) in
  let flags :=
    if String.eqb ty "p2pk" then Z.lor flags (TransactionFlags.p2pk TF)
    else if String.eqb ty "multisig" then Z.lor flags (TransactionFlags.p2ms TF)
    else if String.eqb ty "p2pkh" then Z.lor flags (TransactionFlags.p2pkh TF)
    else if String.eqb ty "p2sh" then Z.lor flags (TransactionFlags.p2sh TF)
    else if String.eqb ty "v0_p2wpkh" then Z.lor flags (TransactionFlags.p2wpkh TF)
    else if String.eqb ty "v0_p2wsh" then Z.lor flags (TransactionFlags.p2wsh TF)
    else if String.eqb ty "v1_p2tr" then
      let flags := Z.lor flags (TransactionFlags.p2tr TF) in
      match witness vin with
      | Some (_ :: _ as wit) =>
          (* in taproot, if the last witness item begins with 0x50, it's an annex *)
          let hasAnnex := JS.startsWith (List.last wit "") "50" in
          (* script spends have more than one witness item, not counting the annex *)
          if ((if hasAnnex then 2 else 1) <? length wit)%nat
             (* inscriptions smuggle data within an 'OP_0 OP_IF ... OP_ENDIF' envelope *)
             && JS.includes (inner_witnessscript_asm vin) "OP_0 OP_IF"
          then Z.lor flags (TransactionFlags.inscription TF)
          else flags
      | _ => flags
      end
    else flags in
  (* sighash flags *)
  let flags :=
    if String.eqb ty "v1_p2tr" then Z.lor flags (setSchnorrSighashFlags flags (witness vin))
    else match witness vin with
         | Some wit => Z.lor flags (setSegwitSighashFlags flags wit)
         | None =>
             if negb (String.eqb (scriptsig vin) "")
             then Z.lor flags (setLegacySighashFlags flags (scriptsig_asm vin))
             else flags
         end in
  {| vs_flags := flags;
     vs_rbf := rbf;
     vs_reused := count_address (prevout vin ≫= scriptpubkey_address) (vs_reused st);
     vs_values := count_value (value <$> prevout vin) (vs_values st) |}.

(** The state of the loop over the outputs. *)
Record vout_state := {
  os_flags : Z;
  os_hasFakePubkey : bool;
  os_P2WSHCount : Z;
  os_olgaSize : option Z;              (* [None] is NaN *)
  os_reused : gmap string Z;
  os_values : gmap (Z + R) Z * nat;
}.

Definition flags_vout (st : vout_state) (vout : Vout) : vout_state :=
  let flags := os_flags st in
  let ty := scriptpubkey_type vout in
  let '(flags, hasFakePubkey) :=
    if String.eqb ty "p2pk" then
      (* detect fake pubkey (i.e. not a valid DER point on the secp256k1 curve) *)
      (Z.lor flags (TransactionFlags.p2pk TF),
       os_hasFakePubkey st || negb (isPoint (JS.slice (scriptpubkey vout) 2 (Some (-2)))))
    else if String.eqb ty "multisig" then
      (Z.lor flags (TransactionFlags.p2ms TF),
       fold_left
         (fun hasFakePubkey key =>
            if negb hasFakePubkey && negb (JS.startsWith key "OP_")
            then hasFakePubkey || isBurnKey key || negb (isPoint key)
            else hasFakePubkey)
         (JS.split " " (scriptpubkey_asm vout)) (os_hasFakePubkey st))
    else if String.eqb ty "p2pkh" then
      (Z.lor flags (TransactionFlags.p2pkh TF), os_hasFakePubkey st)
    else if String.eqb ty "p2sh" then
      (Z.lor flags (TransactionFlags.p2sh TF), os_hasFakePubkey st)
    else if String.eqb ty "v0_p2wpkh" then
      (Z.lor flags (TransactionFlags.p2wpkh TF), os_hasFakePubkey st)
    else if String.eqb ty "v0_p2wsh" then
      (Z.lor flags (TransactionFlags.p2wsh TF), os_hasFakePubkey st)
    else if String.eqb ty "v1_p2tr" then
      (Z.lor flags (TransactionFlags.p2tr TF), os_hasFakePubkey st)
    else if String.eqb ty "op_return" then
      (Z.lor flags (TransactionFlags.op_return TF), os_hasFakePubkey st)
    else (flags, os_hasFakePubkey st) in
  let '(flags, P2WSHCount, olgaSize) :=
    if String.eqb ty "v0_p2wsh" then
      let olgaSize :=
        if os_P2WSHCount st =? 0
        then JS.parseInt16 (JS.slice (scriptpubkey vout) 4 (Some 8))
        else os_olgaSize st in
      let P2WSHCount := os_P2WSHCount st + 1 in
      let flags :=
        match olgaSize with
        | Some olga =>
            if P2WSHCount =? Qceiling (inject_Z (olga + 2) / 32) then
              let nullBytes := P2WSHCount * 32 - olga - 2 in
              if JS.endsWith (scriptpubkey vout) (JS.repeat "0" (nullBytes * 2))
              then Z.lor flags (TransactionFlags.fake_scripthash TF)
              else flags
            else flags
        | None => flags            (* no count equals NaN *)
        end in
      (flags, P2WSHCount, olgaSize)
    else (flags, 0, os_olgaSize st) in
  {| os_flags := flags;
     os_hasFakePubkey := hasFakePubkey;
     os_P2WSHCount := P2WSHCount;
     os_olgaSize := olgaSize;
     os_reused := count_address (scriptpubkey_address vout) (os_reused st);
     os_values := count_value (Some (value vout)) (os_values st) |}.

(** [a / b >= 5] and [a / b <= 0.2] on array lengths.  A quotient by 0
    is [Infinity], or NaN for 0 / 0.  For lengths below 2^50 neither
    the rounding of the quotient nor that of the literal [0.2] changes
    the comparison with 5 and with 1/5. *)
Definition ratio_ge_5 (a b : Z) : bool :=
  if b =? 0 then 0 <? a else 5 * b <=? a.

Definition ratio_le_fifth (a b : Z) : bool :=
  if b =? 0 then false else 5 * a <=? b.

(** The first part of [getTransactionFlags]: update variable flags
    (CPFP, RBF). *)
Definition update_variable_flags (flags : Z) (cpfpInfo : option CpfpInfo)
    (replacement : bool) : Z :=
  let flags :=
    match cpfpInfo with
    | Some info =>
        let flags :=
          if (0 <? length (ancestors info))%nat
          then Z.lor flags (TransactionFlags.cpfp_child TF) else flags in
        if (0 <? length (default [] (descendants info)))%nat
        then Z.lor flags (TransactionFlags.cpfp_parent TF) else flags
    | None => flags
    end in
  if replacement then Z.lor flags (TransactionFlags.replacement TF) else flags.

(** The second part: process static flags. *)
Definition process_static_flags (tx : Transaction) (flags : Z)
    (height : option Z) (network : option string) : Z :=
  let flags :=
    if version tx =? 1 then Z.lor flags (TransactionFlags.v1 TF)
    else if version tx =? 2 then Z.lor flags (TransactionFlags.v2 TF)
    else if version tx =? 3 then Z.lor flags (TransactionFlags.v3 TF)
    else flags in
  let ins :=
    fold_left flags_vin (vin tx)
      {| vs_flags := flags; vs_rbf := false; vs_reused := ∅; vs_values := (∅, O) |} in
  let flags := vs_flags ins in
  let flags :=
    if vs_rbf ins then Z.lor flags (TransactionFlags.rbf TF)
    else Z.lor flags (TransactionFlags.no_rbf TF) in
  let outs :=
    fold_left flags_vout (vout tx)
      {| os_flags := flags; os_hasFakePubkey := false; os_P2WSHCount := 0;
         os_olgaSize := Some 0; os_reused := ∅;
         os_values := (∅, snd (vs_values ins)) |} in
  let flags := os_flags outs in
  let flags :=
    if os_hasFakePubkey outs then Z.lor flags (TransactionFlags.fake_pubkey TF)
    else flags in
  let reusedInputAddresses := vs_reused ins in
  let reusedOutputAddresses := os_reused outs in
  let inValues := fst (vs_values ins) in
  let outValues := fst (os_values outs) in
  let vin_length := Z.of_nat (length (vin tx)) in
  let vout_length := Z.of_nat (length (vout tx)) in
  (* fast but bad heuristic to detect possible coinjoins *)
  let addressReuse :=
    1 <? map_fold
           (fun key count acc =>
              Z.max acc (default 0 (reusedInputAddresses !! key) + count))
           0 reusedOutputAddresses in
  let flags :=
    if negb addressReuse && (5 <=? vin_length) && (5 <=? vout_length)
       && Qle_bool (inject_Z (Z.of_nat (base.size inValues) + Z.of_nat (base.size outValues)))
                   (inject_Z (vin_length + vout_length) / 2)
    then Z.lor flags (TransactionFlags.coinjoin TF) else flags in
  (* more than 5:1 input:output ratio *)
  let flags :=
    if ratio_ge_5 vin_length vout_length
    then Z.lor flags (TransactionFlags.consolidation TF) else flags in
  (* less than 1:5 input:output ratio *)
  let flags :=
    if ratio_le_fifth vin_length vout_length
    then Z.lor flags (TransactionFlags.batch_payout TF) else flags in
  if isNonStandard tx height network
  then Z.lor flags (TransactionFlags.nonstandard TF)
  else flags.

Definition getTransactionFlags (tx : Transaction) (cpfpInfo : option CpfpInfo)
    (replacement : bool) (height : option Z) (network : option string) : Z :=
  let precomputed := match flags tx with Some f => negb (f =? 0) | None => false end in
  let flags := if precomputed then default 0 (flags tx) else 0 in
  let flags := update_variable_flags flags cpfpInfo replacement in
  (* Already processed static flags, no need to do it again *)
  if precomputed then flags
  else process_static_flags tx flags height network.

End Random.

End Collaborators.

(** ** Prioritization detector: [identifyPrioritizedTransactions]

    Fee rates are JavaScript numbers; they are modelled as rationals, with
    exact subtraction and comparison.  An access that would raise a
    [TypeError] (a field of [undefined]) makes the result [None]. *)

Record TransactionStripped := {
  stripped_txid : string;             (* [txid] *)
  rate : Q;
}.

Record Prioritization := {
  prioritized : list string;
  deprioritized : list string;
}.

(** The double nearest to the literal [0.1]. *)
Definition zero_point_one : Q := 3602879701896397 # 36028797018963968.

(** The binary search [while (lo < hi)]: the interval shrinks at every
    turn, so [hi - lo] turns suffice. *)
Fixpoint lis_search (fuel : nat) (X : list TransactionStripped) (M : list (option Z))
    (x : TransactionStripped) (lo hi : Z) : option Z :=
  if lo <? hi then
    match fuel with
    | O => None
    | S fuel' =>
        let mid := lo + (hi - lo) / 2 in          (* lo <= mid < hi *)
        k ← mjoin (JS.get M mid);
        xm ← JS.get X k;
        if JS.Qltb (rate x) (rate xm)
        then lis_search fuel' X M x lo mid
        else lis_search fuel' X M x (mid + 1) hi
    end
  else Some lo.

(** [a[i] = v] on an array that is long enough. *)
Definition array_set {A} (a : list A) (i : Z) (v : A) : list A :=
  <[Z.to_nat i := v]> a.

(** One turn of the main loop on [(L, M, P)]. *)
Definition lis_step (X : list TransactionStripped)
    (st : option (Z * list (option Z) * list (option Z))) (i : nat)
  : option (Z * list (option Z) * list (option Z)) :=
  '(L, M, P) ← st;
  x ← X !! i;
  newL ← lis_search (Z.to_nat L) X M x 1 (L + 1);
  (* The predecessor of X[i] is the last index of the subsequence of length newL-1 *)
  let P := array_set P (Z.of_nat i) (mjoin (JS.get M (newL - 1))) in
  let M := array_set M newL (Some (Z.of_nat i)) in
  Some (if L <? newL then newL else L, M, P).

(** Reconstruction of the longest increasing subsequence, from its last
    element backwards: [j] runs from [L - 1] down to 0. *)
Fixpoint lis_rebuild (X : list TransactionStripped) (P : list (option Z))
    (j : nat) (k : option Z) (LIS : list (option TransactionStripped))
  : list (option TransactionStripped) :=
  match j with
  | O => LIS
  | S j' =>
      lis_rebuild X P j' (k ≫= fun k => mjoin (JS.get P k))
        (<[j' := k ≫= JS.get X]> LIS)
  end.

Definition longest_increasing_subsequence (X : list TransactionStripped)
  : option (list TransactionStripped) :=
  let N := length X in
  let P : list (option Z) := replicate N None in
  let M : list (option Z) := array_set (replicate (S N) None) 0 (Some (-1)) in
  '(L, M, P) ← fold_left (lis_step X) (seq 0 N) (Some (0, M, P));
  let LIS := lis_rebuild X P (Z.to_nat L) (mjoin (JS.get M L)) (replicate (Z.to_nat L) None) in
  (* [LIS.forEach((tx, index) => lisMap.set(tx.txid, index))] reads every entry *)
  mapM id LIS.

Definition classify_step (lisMap : gset string)
    (st : Q * list string * list string) (tx : TransactionStripped)
  : Q * list string * list string :=
  let '(lastRate, prioritized, deprioritized) := st in
  if bool_decide (stripped_txid tx ∈ lisMap) then (rate tx, prioritized, deprioritized)
  else if JS.Qltb (Qabs (rate tx - lastRate)) zero_point_one then
    (* skip if the rate is almost the same as the previous transaction *)
    st
  else if Qle_bool (rate tx) lastRate then
    (lastRate, prioritized ++ [stripped_txid tx], deprioritized)%list
  else
    (lastRate, prioritized, deprioritized ++ [stripped_txid tx])%list.

Definition identifyPrioritizedTransactions (transactions : list TransactionStripped)
  : option Prioritization :=
  (* standard block order is by *decreasing* effective fee rate, but we want to
     iterate in increasing order (and skip the coinbase) *)
  let X := List.rev (drop 1 transactions) in
  if (length X <? 2)%nat then Some {| prioritized := []; deprioritized := [] |}
  else
    LIS ← longest_increasing_subsequence X;
    let lisMap : gset string := list_to_set (map stripped_txid LIS) in
    let '(_, prioritized, deprioritized) :=
      fold_left (classify_step lisMap) X (0%Q, [], []) in
    Some {| prioritized := prioritized; deprioritized := deprioritized |}.

(** ** Inner scripts: [witnessToP2TRScript] and [addInnerScriptsToVin] *)

(** [null] if the witness is not a script spend, and the hex string of the
    script item if it is a script spend. *)
Definition witnessToP2TRScript (witness : list string) : option string :=
  if (length witness <? 2)%nat then None
  else
    (* If there are at least two witness elements, and the first byte of the
       last element is 0x50, this last element is called annex *)
    let hasAnnex := String.eqb (JS.substring (List.last witness "") 0 2) "50" in
    if hasAnnex && (length witness <? 3)%nat then None
    else
      let positionOfScript :=
        if hasAnnex then (length witness - 3)%nat else (length witness - 2)%nat in
      witness !! positionOfScript.          (* an index inside the array *)

Definition set_inner_redeemscript_asm (asm : string) (v : Vin) : Vin :=
  {| vin_txid := vin_txid v; vin_vout := vin_vout v; scriptsig := scriptsig v;
     scriptsig_asm := scriptsig_asm v; sequence := sequence v;
     is_coinbase := is_coinbase v; witness := witness v; prevout := prevout v;
     inner_redeemscript_asm := asm;
     inner_witnessscript_asm := inner_witnessscript_asm v |}.

Definition set_inner_witnessscript_asm (asm : string) (v : Vin) : Vin :=
  {| vin_txid := vin_txid v; vin_vout := vin_vout v; scriptsig := scriptsig v;
     scriptsig_asm := scriptsig_asm v; sequence := sequence v;
     is_coinbase := is_coinbase v; witness := witness v; prevout := prevout v;
     inner_redeemscript_asm := inner_redeemscript_asm v;
     inner_witnessscript_asm := asm |}.

(** The input as [addInnerScriptsToVin] leaves it; [None] when the call
    raises a [TypeError], which [convertScriptSigAsm(undefined)] does. *)
Definition addInnerScriptsToVin (vin : Vin) : option Vin :=
  match prevout vin with
  | None => Some vin
  | Some prevout =>
      let type := scriptpubkey_type prevout in
      let vin :=
        if String.eqb type "p2sh" then
          let redeemScript := List.last (JS.split " " (scriptsig_asm vin)) "" in
          let vin := set_inner_redeemscript_asm (convertScriptSigAsm redeemScript) vin in
          match witness vin with
          | Some wit =>
              if (2 <? length wit)%nat
              then set_inner_witnessscript_asm (convertScriptSigAsm (List.last wit "")) vin
              else vin
          | None => vin
          end
        else vin in
      vin ← (if String.eqb type "v0_p2wsh" then
               match witness vin with
               | Some wit =>
                   witnessScript ← last wit;
                   Some (set_inner_witnessscript_asm (convertScriptSigAsm witnessScript) vin)
               | None => Some vin
               end
             else Some vin);
      if String.eqb type "v1_p2tr" then
        match witness vin with
        | Some wit =>
            match witnessToP2TRScript wit with
            | Some witnessScript =>
                Some (set_inner_witnessscript_asm (convertScriptSigAsm witnessScript) vin)
            | None => Some vin
            end
        | None => Some vin
        end
      else Some vin
  end.

(** ** Signature operations of a transaction: [countSigops] *)

(** The body of the loop over the inputs.  ([switch (true)] takes the
    first case whose expression is [true]; the counts are exact as long
    as they stay below 2^53.) *)
Definition countSigops_input (sigops : Z) (input : Vin) : Z :=
  let sigops :=
    if negb (String.eqb (scriptsig_asm input) "")
    then sigops + countScriptSigops (scriptsig_asm input) true false
    else sigops in
  match prevout input with
  | Some prevout =>
      let type := scriptpubkey_type prevout in
      let witness_length := length <$> witness input in
      if String.eqb type "p2sh" && bool_decide (witness_length = Some 2%nat)
         && negb (String.eqb (scriptsig input) "")
         && JS.startsWith (scriptsig input) "160014"
         || String.eqb type "v0_p2wpkh"
      then sigops + 1
      else if String.eqb type "p2sh"
              && match witness_length with Some n => (0 <? n)%nat | None => false end
              && negb (String.eqb (scriptsig input) "")
              && JS.startsWith (scriptsig input) "220020"
              || String.eqb type "v0_p2wsh"
      then
        match witness input with
        | Some (_ :: _ as wit) =>
            sigops + countScriptSigops (convertScriptSigAsm (List.last wit "")) false true
        | _ => sigops
        end
      else if String.eqb type "p2sh" then
        if negb (String.eqb (inner_redeemscript_asm input) "")
        then sigops + countScriptSigops (inner_redeemscript_asm input) false false
        else sigops
      else sigops
  | None => sigops
  end.

Definition countSigops_output (sigops : Z) (output : Vout) : Z :=
  if negb (String.eqb (scriptpubkey_asm output) "")
  then sigops + countScriptSigops (scriptpubkey_asm output) true false
  else sigops.

Definition countSigops (transaction : Transaction) : Z :=
  let sigops := fold_left countSigops_input (vin transaction) 0 in
  fold_left countSigops_output (vout transaction) sigops.

(** ** Sample data

    Concrete transactions on which the functions are run below, and
    stand-ins for the collaborators where a run needs them. *)

Definition reject_multisig (asm : string) : option (Z * Z) := None.
Definition every_key_is_a_point (key : string) : bool := true.
Definition constant_digest (bytes : list Z) : list Z := replicate 32 0.

(** The bit values of a flag table with one distinct bit per name. *)
Definition sample_flags : TransactionFlags.t :=
  {| TransactionFlags.rbf := 2 ^ 0; TransactionFlags.no_rbf := 2 ^ 1;
     TransactionFlags.v1 := 2 ^ 2; TransactionFlags.v2 := 2 ^ 3;
     TransactionFlags.v3 := 2 ^ 4; TransactionFlags.nonstandard := 2 ^ 5;
     TransactionFlags.p2pk := 2 ^ 8; TransactionFlags.p2ms := 2 ^ 9;
     TransactionFlags.p2pkh := 2 ^ 10; TransactionFlags.p2sh := 2 ^ 11;
     TransactionFlags.p2wpkh := 2 ^ 12; TransactionFlags.p2wsh := 2 ^ 13;
     TransactionFlags.p2tr := 2 ^ 14;
     TransactionFlags.cpfp_parent := 2 ^ 16; TransactionFlags.cpfp_child := 2 ^ 17;
     TransactionFlags.replacement := 2 ^ 18;
     TransactionFlags.op_return := 2 ^ 24; TransactionFlags.fake_pubkey := 2 ^ 25;
     TransactionFlags.inscription := 2 ^ 26; TransactionFlags.fake_scripthash := 2 ^ 27;
     TransactionFlags.coinjoin := 2 ^ 32; TransactionFlags.consolidation := 2 ^ 33;
     TransactionFlags.batch_payout := 2 ^ 34;
     TransactionFlags.sighash_all := 2 ^ 40; TransactionFlags.sighash_none := 2 ^ 41;
     TransactionFlags.sighash_single := 2 ^ 42; TransactionFlags.sighash_default := 2 ^ 43;
     TransactionFlags.sighash_acp := 2 ^ 44 |}.

(** The single input of a coinbase transaction. *)
Definition coinbase_input : Vin :=
  {| vin_txid := "0000000000000000000000000000000000000000000000000000000000000000";
     vin_vout := 0xffffffff; scriptsig := "510101";
     scriptsig_asm := "OP_PUSHNUM_1 OP_PUSHBYTES_1 01"; sequence := 0xffffffff;
     is_coinbase := true; witness := None; prevout := None;
     inner_redeemscript_asm := ""; inner_witnessscript_asm := "" |}.

(** An input spending output 0 of an earlier transaction, with an empty
    scriptSig and no information about the spent output. *)
Definition plain_input : Vin :=
  {| vin_txid := "1111111111111111111111111111111111111111111111111111111111111111";
     vin_vout := 0; scriptsig := ""; scriptsig_asm := ""; sequence := 0xfffffffd;
     is_coinbase := false; witness := None; prevout := None;
     inner_redeemscript_asm := ""; inner_witnessscript_asm := "" |}.

Definition op_return_output : Vout :=
  {| value := 0; scriptpubkey := "6a0100";
     scriptpubkey_asm := "OP_RETURN OP_PUSHBYTES_1 00";
     scriptpubkey_type := "op_return"; scriptpubkey_address := None |}.

(** A 22-byte P2WPKH output. *)
Definition p2wpkh_output (v : Z) : Vout :=
  {| value := v; scriptpubkey := "0014751e76e8199196d454941c45d1b3a323f1433bd6";
     scriptpubkey_asm := "OP_0 OP_PUSHBYTES_20 751e76e8199196d454941c45d1b3a323f1433bd6";
     scriptpubkey_type := "v0_p2wpkh";
     scriptpubkey_address := Some "bc1qw508d6qejxtdg4y5r3zarvary0c5xw7kv8f3t4" |}.

(** A transaction without witness data, from its inputs, outputs and
    serialized size. *)
Definition legacy_tx (vins : list Vin) (vouts : list Vout) (bytes : Z) : Transaction :=
  {| tx_txid := ""; version := 2; locktime := 0; size := bytes; weight := 4 * bytes;
     vin := vins; vout := vouts; sigops := None; flags := None |}.

Definition coinbase_with_two_op_returns : Transaction :=
  legacy_tx [coinbase_input] [op_return_output; op_return_output] 78.

Definition spend_with_two_op_returns : Transaction :=
  legacy_tx [plain_input] [p2wpkh_output 1000; op_return_output; op_return_output] 106.

Definition coinbase_paying (v : Z) : Transaction :=
  legacy_tx [coinbase_input] [p2wpkh_output v] 85.

Definition spend_paying (v : Z) : Transaction :=
  legacy_tx [plain_input] [p2wpkh_output v] 82.

(** Five inputs whose spent outputs are not known and five outputs of the
    same amount without an address. *)
Definition bare_output (v : Z) : Vout :=
  {| value := v; scriptpubkey := "51"; scriptpubkey_asm := "OP_PUSHNUM_1";
     scriptpubkey_type := "unknown"; scriptpubkey_address := None |}.

Definition five_to_five : Transaction :=
  legacy_tx (replicate 5 plain_input) (replicate 5 (bare_output 1000)) 260.

Definition one_ancestor : CpfpInfo :=
  {| ancestors := ["aa"]; descendants := None |}.

(** A raw transaction of 85 bytes: version 2, one input with an empty
    scriptSig, one P2PKH output of 100000 satoshis. *)
Definition raw_p2pkh_payment : string :=
  "02000000" +:+ "01"
  +:+ "1111111111111111111111111111111111111111111111111111111111111111"
  +:+ "00000000" +:+ "00" +:+ "fdffffff"
  +:+ "01" +:+ "a086010000000000"
  +:+ "19" +:+ "76a914751e76e8199196d454941c45d1b3a323f1433bd688ac"
  +:+ "00000000".

(** A segwit transaction of 129 bytes with two inputs, the first with an
    empty witness stack and the second with one witness item of one byte,
    and one P2WPKH output.  Its non-witness serialization has 123 bytes. *)
Definition raw_mixed_segwit : string :=
  "02000000" +:+ "0001" +:+ "02"
  +:+ "1111111111111111111111111111111111111111111111111111111111111111"
  +:+ "00000000" +:+ "00" +:+ "ffffffff"
  +:+ "2222222222222222222222222222222222222222222222222222222222222222"
  +:+ "01000000" +:+ "00" +:+ "ffffffff"
  +:+ "01" +:+ "a086010000000000"
  +:+ "16" +:+ "0014751e76e8199196d454941c45d1b3a323f1433bd6"
  +:+ "00" +:+ "0101aa"
  +:+ "00000000".

(** 58 bytes: version 1, one input whose scriptSig length is the nine-byte
    CompactSize [ff f7ffffffffffffff] (2^64 - 9), four more bytes [ff], and
    a locktime. *)
Definition raw_backward_scriptsig : string :=
  "01000000" +:+ "01"
  +:+ "1111111111111111111111111111111111111111111111111111111111111111"
  +:+ "00000000" +:+ "fff7ffffffffffffff" +:+ "ffffffff" +:+ "00000000".

(** 51 bytes: the same beginning with the scriptSig length
    [ff 9cffffffffffffff] (2^64 - 100) and one more byte. *)
Definition raw_negative_cursor : string :=
  "01000000" +:+ "01"
  +:+ "1111111111111111111111111111111111111111111111111111111111111111"
  +:+ "00000000" +:+ "ff9cffffffffffffff" +:+ "00".

(** * Properties *)

(** ** Vocabulary of the statements *)

(** The networks that own an entry in the two activation-height tables. *)
Definition gated_networks : list string := ["testnet4"; "testnet"; "signet"; ""].

(** Number of outputs of type [op_return]. *)
Definition op_return_count (vouts : list Vout) : Z :=
  Z.of_nat (length (filter (fun o => scriptpubkey_type o = "op_return") vouts)).

(** The dust threshold of a scriptPubKey, as the specification words it:
    [3 × (scriptLen + varint overhead + 8 + (67 if witness program, else 148))]. *)
Definition dust_threshold (scriptpubkey : string) : Q :=
  (3 * (half_length scriptpubkey
        + inject_Z (getVarIntLength (half_length scriptpubkey))
        + 8
        + (if JS.truthy (isWitnessProgram scriptpubkey) then 67 else 148)))%Q.

Definition with_value (o : Vout) (v : Z) : Vout :=
  {| value := v; scriptpubkey := scriptpubkey o; scriptpubkey_asm := scriptpubkey_asm o;
     scriptpubkey_type := scriptpubkey_type o;
     scriptpubkey_address := scriptpubkey_address o |}.

Definition with_vout (tx : Transaction) (vouts : list Vout) : Transaction :=
  {| tx_txid := tx_txid tx; version := version tx; locktime := locktime tx;
     size := size tx; weight := weight tx; vin := vin tx; vout := vouts;
     sigops := sigops tx; flags := flags tx |}.

(** The preliminary checks of [isNonStandard]: version, weight, non-witness
    size and sigops. *)
Definition passes_preliminary_checks (tx : Transaction)
    (height : option Z) (network : option string) : Prop :=
  isNonStandardVersion tx height network = false
  ∧ weight tx <= MAX_STANDARD_TX_WEIGHT
  ∧ MIN_STANDARD_TX_NONWITNESS_SIZE <= getNonWitnessSize tx
  ∧ (∀ s, sigops tx = Some s → s <= MAX_STANDARD_TX_SIGOPS_COST).

(** The variable flags of the classifier (CPFP and replacement), and the
    static part of a flag word: all its other bits. *)
Definition variable_bits (TF : TransactionFlags.t) : Z :=
  Z.lor (Z.lor (TransactionFlags.cpfp_parent TF) (TransactionFlags.cpfp_child TF))
        (TransactionFlags.replacement TF).

Definition static_part (TF : TransactionFlags.t) (flags : Z) : Z :=
  Z.land flags (Z.lnot (variable_bits TF)).

(** Two flag words agree on the bits of a mask. *)
Definition same_on (mask a b : Z) : Prop := Z.land a mask = Z.land b mask.

(** The first [n] values returned by [Math.random()] are fresh: no two of
    them are equal. *)
Definition fresh {R : Type} (random : nat -> R) (n : nat) : Prop :=
  ∀ i j, (i < n)%nat → (j < n)%nat → random i = random j → i = j.

(** An amount that is usable as a key: present and not zero. *)
Definition amount_key (v : option Z) : option Z :=
  v ≫= fun x => if x =? 0 then None else Some x.

(** Number of amounts that are not usable as keys, each of which makes
    the classifier draw two random numbers. *)
Definition missing_amounts (vs : list (option Z)) : nat :=
  length (filter (fun v => amount_key v = None) vs).

(** The amounts that [getTransactionFlags] counts for the inputs and for
    the outputs of a transaction. *)
Definition input_amounts (tx : Transaction) : list (option Z) :=
  map (fun v => value <$> prevout v) (vin tx).

Definition output_amounts (tx : Transaction) : list (option Z) :=
  map (fun o => Some (value o)) (vout tx).

(** Number of calls of [Math.random()] in one run of the classifier. *)
Definition random_calls (tx : Transaction) : nat :=
  2 * (missing_amounts (input_amounts tx) + missing_amounts (output_amounts tx)).

(** *** Well-formed raw transactions

    A raw transaction, described independently of the codec: its fields,
    and the byte string that Bitcoin's serialization gives them.  Integers
    are little-endian; counts and lengths are CompactSize integers in
    their shortest form. *)

Fixpoint le_bytes (n : nat) (v : Z) : list Z :=
  match n with
  | O => []
  | S n' => v mod 256 :: le_bytes n' (v / 256)
  end.

Definition compact_size (n : Z) : list Z :=
  if n <? 0xfd then [n]
  else if n <=? 0xffff then 0xfd :: le_bytes 2 n
  else if n <=? 0xffffffff then 0xfe :: le_bytes 4 n
  else 0xff :: le_bytes 8 n.

Definition var_bytes (bytes : list Z) : list Z :=
  (compact_size (Z.of_nat (length bytes)) ++ bytes)%list.

Record RawInput := {
  raw_prev_txid : list Z;            (* 32 bytes, in serialized order *)
  raw_prev_index : Z;
  raw_scriptsig : list Z;
  raw_sequence : Z;
}.

Record RawOutput := {
  raw_value : Z;
  raw_scriptpubkey : list Z;
}.

Record RawTransaction := {
  raw_version : Z;
  raw_inputs : list RawInput;
  raw_outputs : list RawOutput;
  raw_witnesses : option (list (list (list Z)));   (* one stack per input *)
  raw_locktime : Z;
}.

Definition input_bytes (i : RawInput) : list Z :=
  (raw_prev_txid i ++ le_bytes 4 (raw_prev_index i)
   ++ var_bytes (raw_scriptsig i) ++ le_bytes 4 (raw_sequence i))%list.

Definition output_bytes (o : RawOutput) : list Z :=
  (le_bytes 8 (raw_value o) ++ var_bytes (raw_scriptpubkey o))%list.

Definition stack_bytes (stack : list (list Z)) : list Z :=
  (compact_size (Z.of_nat (length stack)) ++ concat (map var_bytes stack))%list.

Definition inputs_and_outputs_bytes (t : RawTransaction) : list Z :=
  (compact_size (Z.of_nat (length (raw_inputs t))) ++ concat (map input_bytes (raw_inputs t))
   ++ compact_size (Z.of_nat (length (raw_outputs t)))
   ++ concat (map output_bytes (raw_outputs t)))%list.

(** The whole serialization: the segwit marker and flag and the witness
    stacks are present when the transaction carries witnesses. *)
Definition raw_bytes (t : RawTransaction) : list Z :=
  (le_bytes 4 (raw_version t mod 2 ^ 32)
   ++ match raw_witnesses t with
      | Some stacks =>
          [0x00; 0x01] ++ inputs_and_outputs_bytes t ++ concat (map stack_bytes stacks)
      | None => inputs_and_outputs_bytes t
      end
   ++ le_bytes 4 (raw_locktime t))%list.

(** The non-witness byte sequence: version, inputs, outputs, locktime. *)
Definition non_witness_bytes (t : RawTransaction) : list Z :=
  (le_bytes 4 (raw_version t mod 2 ^ 32) ++ inputs_and_outputs_bytes t
   ++ le_bytes 4 (raw_locktime t))%list.

Definition is_bytes (l : list Z) : Prop := Forall (fun b => 0 <= b < 256) l.

Definition short (l : list Z) : Prop := Z.of_nat (length l) < 2 ^ 32.

Definition well_formed_input (i : RawInput) : Prop :=
  is_bytes (raw_prev_txid i) ∧ length (raw_prev_txid i) = 32%nat
  ∧ 0 <= raw_prev_index i < 2 ^ 32
  ∧ is_bytes (raw_scriptsig i) ∧ short (raw_scriptsig i)
  ∧ 0 <= raw_sequence i < 2 ^ 32.

Definition well_formed_output (o : RawOutput) : Prop :=
  0 <= raw_value o < 2 ^ 53
  ∧ is_bytes (raw_scriptpubkey o) ∧ short (raw_scriptpubkey o).

Definition well_formed_stack (stack : list (list Z)) : Prop :=
  Z.of_nat (length stack) < 2 ^ 32
  ∧ Forall (fun item => is_bytes item ∧ short item) stack.

(** A well-formed transaction: at least one input, fewer than 2^32 inputs
    and outputs, fields within the range of their encoding, amounts below
    2^53, one witness stack per input when witnesses are present, and a
    total size that a buffer can have. *)
Definition well_formed (t : RawTransaction) : Prop :=
  - 2 ^ 31 <= raw_version t < 2 ^ 31
  ∧ raw_inputs t ≠ []
  ∧ Z.of_nat (length (raw_inputs t)) < 2 ^ 32
  ∧ Forall well_formed_input (raw_inputs t)
  ∧ Z.of_nat (length (raw_outputs t)) < 2 ^ 32
  ∧ Forall well_formed_output (raw_outputs t)
  ∧ (∀ stacks, raw_witnesses t = Some stacks →
       length stacks = length (raw_inputs t) ∧ Forall well_formed_stack stacks)
  ∧ 0 <= raw_locktime t < 2 ^ 32
  ∧ Z.of_nat (length (raw_bytes t)) < 2 ^ 52.

(** The same transaction stripped of its witness data. *)
Definition without_witnesses (t : RawTransaction) : RawTransaction :=
  {| raw_version := raw_version t; raw_inputs := raw_inputs t;
     raw_outputs := raw_outputs t; raw_witnesses := None;
     raw_locktime := raw_locktime t |}.

(** The transaction serialized by [raw_mixed_segwit]. *)
Definition mixed_segwit : RawTransaction :=
  {| raw_version := 2;
     raw_inputs :=
       [ {| raw_prev_txid := replicate 32 0x11; raw_prev_index := 0;
            raw_scriptsig := []; raw_sequence := 0xffffffff |};
         {| raw_prev_txid := replicate 32 0x22; raw_prev_index := 1;
            raw_scriptsig := []; raw_sequence := 0xffffffff |} ];
     raw_outputs :=
       [ {| raw_value := 100000;
            raw_scriptpubkey :=
              hexStringToUint8Array "0014751e76e8199196d454941c45d1b3a323f1433bd6" |} ];
     raw_witnesses := Some [ []; [ [0xaa] ] ];
     raw_locktime := 0 |}.

(** *** What the decoder makes of well-formed bytes *)

(** The [Vin] built by the input loop of [fromBuffer]. *)
Definition decoded_input (i : RawInput) : Vin :=
  let txid := uint8ArrayToHexString (List.rev (raw_prev_txid i)) in
  let scriptsig := uint8ArrayToHexString (raw_scriptsig i) in
  {| vin_txid := txid; vin_vout := raw_prev_index i; scriptsig := scriptsig;
     scriptsig_asm := convertScriptSigAsm scriptsig; sequence := raw_sequence i;
     is_coinbase := String.eqb txid (JS.repeat "0" 64); witness := None; prevout := None;
     inner_redeemscript_asm := ""; inner_witnessscript_asm := "" |}.

(** The [Vout] built by the output loop. *)
Definition decoded_output (sha256 : list Z -> list Z) (network : string) (o : RawOutput)
  : Vout :=
  let scriptpubkey := uint8ArrayToHexString (raw_scriptpubkey o) in
  let toAddress :=
    match scriptPubKeyToAddress sha256 scriptpubkey network with
    | inr a => a
    | inl _ => (None, "unknown")
    end in
  {| value := raw_value o; scriptpubkey := scriptpubkey;
     scriptpubkey_asm := convertScriptSigAsm scriptpubkey;
     scriptpubkey_type := snd toAddress; scriptpubkey_address := fst toAddress |}.

(** The assignment [tx.vin[i].witness = ...] of the witness loop. *)
Definition with_witness (stack : list (list Z)) (v : Vin) : Vin :=
  set_witness (map uint8ArrayToHexString stack) v.

(** *** Runs of the buffer reader *)

(** The loop [for (i = 0; i < n; ++i)], unrolled one turn at a time. *)
Fixpoint turns {A} (body : A -> reader A) (n : nat) (a : A) : reader A :=
  match n with
  | O => mret a
  | S n' => a' ← body a; turns body n' a'
  end.

(** From any cursor position where the bytes [enc] lie ahead, [m] returns
    [x] and leaves the cursor right after them. *)
Definition Reads (buffer : list Z) {A} (m : reader A) (enc : list Z) (x : A) : Prop :=
  ∀ (o : nat) (rest : list Z),
    (o <= length buffer)%nat →
    drop o buffer = (enc ++ rest)%list →
    m (Z.of_nat o) = inr (x, Z.of_nat (o + length enc)).

(** From any cursor position where [enc] is all that is left of the buffer,
    [m] returns [x]. *)
Definition Completes (buffer : list Z) {A} (m : reader A) (enc : list Z) (x : A) : Prop :=
  ∀ o : nat, (o <= length buffer)%nat → drop o buffer = enc →
    ∃ o', m (Z.of_nat o) = inr (x, o').

(** The two hex digits of a byte are lower-case digits that parse back to
    the byte. *)
Definition hex_pair_ok (b : Z) : bool :=
  match byte_to_hex b with
  | String c1 (String c2 EmptyString) =>
      is_lower_hex c1 && is_lower_hex c2 && is_hex c1 && is_hex c2
      && bool_decide (JS.parseInt16 (byte_to_hex b) = Some b)
  | _ => false
  end.

(** *** Blocks for the prioritization detector *)

(** A block entry with identifier [id] and fee rate [r]. *)
Definition stripped (id : string) (r : Q) : TransactionStripped :=
  {| stripped_txid := id; rate := r |}.

(** *** Vocabulary of the further properties *)

(** The errors of the structural decode. *)
Definition structural (e : error) : Prop :=
  e = Buffer_out_of_bounds ∨ e = Cannot_read_slice_out_of_bounds
  ∨ e = Invalid_VarInt_prefix ∨ e = Transaction_has_unexpected_data.

(** A reader that fails with no other error, wherever the cursor is. *)
Definition fails_structurally {A} (m : reader A) : Prop :=
  ∀ o e, m o = inl e → structural e.

(** The inputs that the decoder returns: those of the input loop, with
    the witness stacks assigned by the witness loop. *)
Definition decoded_inputs (t : RawTransaction) : list Vin :=
  match raw_witnesses t with
  | Some stacks => zip_with with_witness stacks (map decoded_input (raw_inputs t))
  | None => map decoded_input (raw_inputs t)
  end.

(** The bytes that are not part of the non-witness serialization: marker,
    flag and witness stacks. *)
Definition witness_size (t : RawTransaction) : Z :=
  match raw_witnesses t with
  | Some stacks => Z.of_nat (length (concat (map stack_bytes stacks))) + 2
  | None => 0
  end.

(** A five-bit word. *)
Definition is_words (l : list Z) : Prop := Forall (fun w => 0 <= w < 32) l.

(** An input with another assembly of its scriptSig. *)
Definition with_scriptsig_asm (v : Vin) (asm : string) : Vin :=
  {| vin_txid := vin_txid v; vin_vout := vin_vout v; scriptsig := scriptsig v;
     scriptsig_asm := asm; sequence := sequence v;
     is_coinbase := is_coinbase v; witness := witness v; prevout := prevout v;
     inner_redeemscript_asm := inner_redeemscript_asm v;
     inner_witnessscript_asm := inner_witnessscript_asm v |}.

Definition with_vin (tx : Transaction) (vins : list Vin) : Transaction :=
  {| tx_txid := tx_txid tx; version := version tx; locktime := locktime tx;
     size := size tx; weight := weight tx; vin := vins; vout := vout tx;
     sigops := sigops tx; flags := flags tx |}.

(** A flag word has every bit of [bits]. *)
Definition has (flags bits : Z) : Prop := Z.land flags bits = bits.

Definition with_flags (tx : Transaction) (f : Z) : Transaction :=
  {| tx_txid := tx_txid tx; version := version tx; locktime := locktime tx;
     size := size tx; weight := weight tx; vin := vin tx; vout := vout tx;
     sigops := sigops tx; flags := Some f |}.

(** The flag of a script type, for the types that have one. *)
Definition script_type_flag (TF : TransactionFlags.t) (type : string) : Z :=
  if String.eqb type "p2pk" then TransactionFlags.p2pk TF
  else if String.eqb type "multisig" then TransactionFlags.p2ms TF
  else if String.eqb type "p2pkh" then TransactionFlags.p2pkh TF
  else if String.eqb type "p2sh" then TransactionFlags.p2sh TF
  else if String.eqb type "v0_p2wpkh" then TransactionFlags.p2wpkh TF
  else if String.eqb type "v0_p2wsh" then TransactionFlags.p2wsh TF
  else if String.eqb type "v1_p2tr" then TransactionFlags.p2tr TF
  else 0.

(** An input that differs from [v] in its inner scripts only. *)
Definition same_but_inner_scripts (v v' : Vin) : Prop :=
  vin_txid v' = vin_txid v ∧ vin_vout v' = vin_vout v ∧ scriptsig v' = scriptsig v
  ∧ scriptsig_asm v' = scriptsig_asm v ∧ sequence v' = sequence v
  ∧ is_coinbase v' = is_coinbase v ∧ witness v' = witness v ∧ prevout v' = prevout v.

(** An input that spends a P2SH output with a nested P2WPKH redeem script. *)
Definition nested_segwit_input : Vin :=
  {| vin_txid := "1111111111111111111111111111111111111111111111111111111111111111";
     vin_vout := 0;
     scriptsig := "160014751e76e8199196d454941c45d1b3a323f1433bd6";
     scriptsig_asm := "OP_PUSHBYTES_22 0014751e76e8199196d454941c45d1b3a323f1433bd6";
     sequence := 4294967295; is_coinbase := false;
     witness := Some ["aa"; "bb"];
     prevout := Some {| value := 1000;
                        scriptpubkey := "a914751e76e8199196d454941c45d1b3a323f1433bd687";
                        scriptpubkey_asm := "OP_HASH160 OP_PUSHBYTES_20 751e76e8199196d454941c45d1b3a323f1433bd6 OP_EQUAL";
                        scriptpubkey_type := "p2sh";
                        scriptpubkey_address := None |};
     inner_redeemscript_asm := ""; inner_witnessscript_asm := "" |}.

(** *** Increasing subsequences *)

(** The fee rates never decrease along the list. *)
Fixpoint nondecreasing (S : list TransactionStripped) : Prop :=
  match S with
  | a :: (b :: _) as S' => (rate a <= rate b)%Q ∧ nondecreasing S'
  | _ => True
  end.

(** [tail X M j x]: [X[M[j]]] is the entry [x]. *)
Definition tail (X : list TransactionStripped) (M : list (option Z)) (j : Z)
    (x : TransactionStripped) : Prop :=
  ∃ k : nat, M !! Z.to_nat j = Some (Some (Z.of_nat k)) ∧ X !! k = Some x.

(** [chain X P e l]: following the predecessor links [P] from the index
    [e] down to [-1] visits the entries [l] of [X], read backwards. *)
Inductive chain (X : list TransactionStripped) (P : list (option Z))
  : Z → list TransactionStripped → Prop :=
| chain_nil : chain X P (-1) []
| chain_snoc (e : Z) (l : list TransactionStripped) (k : nat) (x : TransactionStripped) :
    chain X P e l → P !! k = Some (Some e) → e < Z.of_nat k → X !! k = Some x →
    (∀ y, last l = Some y → (rate y <= rate x)%Q) →
    chain X P (Z.of_nat k) (l ++ [x]).

(** What the main loop keeps true after [i] turns. *)
Record lis_invariant (X : list TransactionStripped) (i : nat) (L : Z)
    (M P : list (option Z)) : Prop := {
  inv_M_length : length M = S (length X);
  inv_P_length : length P = length X;
  inv_L : 0 <= L <= Z.of_nat i;
  inv_M0 : M !! 0%nat = Some (Some (-1));
  inv_chain : ∀ j, 1 <= j <= L →
    ∃ (k : nat) (x : TransactionStripped) (l : list TransactionStripped),
      M !! Z.to_nat j = Some (Some (Z.of_nat k)) ∧ (k < i)%nat ∧ X !! k = Some x
      ∧ chain X P (Z.of_nat k) l ∧ Z.of_nat (length l) = j;
  inv_mono : ∀ j j' x x', 1 <= j → j <= j' → j' <= L →
    tail X M j x → tail X M j' x' → (rate x <= rate x')%Q;
  inv_min : ∀ S e, S `sublist_of` take i X → nondecreasing S → last S = Some e →
    Z.of_nat (length S) <= L
    ∧ ∃ x, tail X M (Z.of_nat (length S)) x ∧ (rate x <= rate e)%Q;
}.

(** The signature-hash bits that an ECDSA signature can set. *)
Definition ecdsa_sighash_bits (TF : TransactionFlags.t) : Z :=
  Z.lor (Z.lor (Z.lor (TransactionFlags.sighash_all TF) (TransactionFlags.sighash_none TF))
               (TransactionFlags.sighash_single TF))
        (TransactionFlags.sighash_acp TF).

(** *** Base58 strings *)

(** The position of a character in a string (its length if absent). *)
Fixpoint index_of (c : ascii) (s : string) : Z :=
  match s with
  | EmptyString => 0
  | String c' s' => if Ascii.eqb c c' then 0 else 1 + index_of c s'
  end.

(** The number that a string of Base58 digits stands for, after [acc]. *)
Fixpoint base58_value (acc : Z) (s : string) : Z :=
  match s with
  | EmptyString => acc
  | String c s' => base58_value (acc * 58 + index_of c BASE58_ALPHABET) s'
  end.

Fixpoint ones (n : nat) : string :=
  match n with
  | O => ""
  | S n' => "1" +:+ ones n'
  end.

Fixpoint count_zeros (data : list Z) : nat :=
  match data with
  | 0 :: rest => S (count_zeros rest)
  | _ => O
  end.

Fixpoint strip_zeros (data : list Z) : list Z :=
  match data with
  | 0 :: rest => strip_zeros rest
  | _ => data
  end.

(** ** Height and network gating *)

Lemma get_property_own (n : string) (a : Z) :
  get_property V3_STANDARDNESS_ACTIVATION_HEIGHT n = Own a ↔
  (n, a) ∈ V3_STANDARDNESS_ACTIVATION_HEIGHT.
Proof.
  unfold get_property, V3_STANDARDNESS_ACTIVATION_HEIGHT. cbn [List.find fst snd].
  rewrite !elem_of_cons, elem_of_nil.
  destruct (String.eqb_spec "testnet4" n) as [<-|?].
  { split; [intros [= <-]; auto | intros [E|[E|[E|[E|[]]]]]; by inversion E]. }
  destruct (String.eqb_spec "testnet" n) as [<-|?].
  { split; [intros [= <-]; auto | intros [E|[E|[E|[E|[]]]]]; by inversion E]. }
  destruct (String.eqb_spec "signet" n) as [<-|?].
  { split; [intros [= <-]; auto | intros [E|[E|[E|[E|[]]]]]; by inversion E]. }
  destruct (String.eqb_spec "" n) as [<-|?].
  { split; [intros [= <-]; auto | intros [E|[E|[E|[E|[]]]]]; by inversion E]. }
  split.
  - by destruct (JS.mem n Object_prototype_names).
  - intros [E|[E|[E|[E|[]]]]]; inversion E; congruence.
Qed.

Lemma before_activation_iff (height : option Z) (network : option string) :
  before_activation V3_STANDARDNESS_ACTIVATION_HEIGHT height network = true ↔
  ∃ n h a, network = Some n ∧ height = Some h
           ∧ (n, a) ∈ V3_STANDARDNESS_ACTIVATION_HEIGHT ∧ h <= a.
Proof.
  unfold before_activation. split.
  - destruct height as [h|], network as [n|]; try discriminate.
    destruct (get_property _ n) as [a| |] eqn:E; try discriminate.
    intros [_ Hle%Z.leb_le]%andb_true_iff.
    exists n, h, a. by rewrite <- get_property_own.
  - intros (n & h & a & -> & -> & Hin & Hle).
    rewrite (proj2 (get_property_own n a) Hin).
    apply andb_true_iff. split; [|by apply Z.leb_le].
    assert (a ≠ 0); [|by apply negb_true_iff, Z.eqb_neq].
    revert Hin. unfold V3_STANDARDNESS_ACTIVATION_HEIGHT.
    rewrite !elem_of_cons, elem_of_nil.
    intros [E|[E|[E|[E|[]]]]]; by inversion E.
Qed.

Lemma before_activation_other (table : list (string * Z)) (height : option Z) (n : string) :
  table = V3_STANDARDNESS_ACTIVATION_HEIGHT →
  n ∉ gated_networks →
  before_activation table height (Some n) = false.
Proof.
  intros -> Hn. apply not_true_is_false. intros Hb.
  apply before_activation_iff in Hb as (n' & h & a & [= <-] & _ & Hin & _).
  apply Hn. revert Hin. unfold V3_STANDARDNESS_ACTIVATION_HEIGHT, gated_networks.
  rewrite !elem_of_cons, !elem_of_nil.
  intros [E|[E|[E|[E|[]]]]]; inversion E; auto.
Qed.

(** ** The standardness validator *)

Section ValidatorFacts.

Variable parseMultisigScript : string -> option (Z * Z).


Lemma isNonStandardAnchor_iff (tx : Transaction) height network :
  isNonStandardAnchor tx height network
  = before_activation V3_STANDARDNESS_ACTIVATION_HEIGHT height network.
Proof. unfold isNonStandardAnchor. by destruct before_activation. Qed.

Lemma check_vins_ungated (tx : Transaction) height network (vins : list Vin) :
  isNonStandardAnchor tx height network = false →
  check_vins tx height network vins = check_vins tx None None vins.
Proof.
  intros Hgate. induction vins as [|v vins IH]; [done|].
  cbn [check_vins]. rewrite IH. unfold check_vin. rewrite Hgate.
  by replace (isNonStandardAnchor tx None None) with false.
Qed.

(** The input loop reads nothing of the transaction but the inputs handed
    to it. *)
Lemma check_vins_tx (tx tx' : Transaction) height network (vins : list Vin) :
  check_vins tx height network vins = check_vins tx' height network vins.
Proof. induction vins as [|v vins IH]; [done|]. cbn [check_vins]. by rewrite IH. Qed.

(** The input loop can only answer "standard" at a coinbase input. *)
Lemma check_vins_false (tx : Transaction) height network (vins : list Vin) :
  check_vins tx height network vins = Some false →
  Exists (fun v => is_coinbase v = true) vins.
Proof.
  induction vins as [|v vins IH]; [done|]. cbn [check_vins].
  destruct (check_vin tx height network v) as [b|] eqn:E.
  - intros [= ->]. left. unfold check_vin in E.
    destruct (is_coinbase v); [done|].
    repeat match type of E with
           | (if ?c then _ else _) = _ => destruct c; try discriminate
           end.
  - intros Hr. right. by apply IH.
Qed.

(** The input loop, up to and including the first coinbase input. *)
Lemma check_vins_coinbase (tx : Transaction) height network (pre post : list Vin) (cb : Vin) :
  is_coinbase cb = true →
  Forall (fun v => check_vin tx height network v ≠ Some true) pre →
  check_vins tx height network (pre ++ cb :: post) = Some false.
Proof.
  intros Hcb Hpre. induction Hpre as [|v pre Hv _ IH]; cbn [check_vins app].
  - unfold check_vin. by rewrite Hcb.
  - destruct (check_vin tx height network v) as [[]|]; done.
Qed.

(** The output loop never answers "standard" by itself, and counts the
    [op_return] outputs it has passed. *)
Lemma check_scriptpubkey_inl (o : Vout) (c : Z) (b : bool) :
  check_scriptpubkey parseMultisigScript o c = inl b → b = true.
Proof.
  unfold check_scriptpubkey.
  repeat match goal with
         | |- context [if ?c then _ else _] => destruct c
         | |- context [match ?c with Some _ => _ | None => _ end] => destruct c
         | |- context [let (_, _) := ?c in _] => destruct c
         end; congruence.
Qed.

Lemma check_scriptpubkey_inr (o : Vout) (c c' : Z) :
  check_scriptpubkey parseMultisigScript o c = inr c' →
  c' = c + (if bool_decide (scriptpubkey_type o = "op_return") then 1 else 0).
Proof.
  unfold check_scriptpubkey.
  destruct (JS.mem _ _); [done|].
  destruct (String.eqb_spec (scriptpubkey_type o) "unknown") as [->|?].
  { cbn. destruct (_ || _); [done|].
    intros [= <-]. rewrite bool_decide_eq_false_2 by done. lia. }
  destruct (String.eqb_spec (scriptpubkey_type o) "multisig") as [->|?].
  { cbn. destruct (parseMultisigScript _) as [[m k]|]; [|done].
    destruct (_ || _); [done|].
    intros [= <-]. rewrite bool_decide_eq_false_2 by done. lia. }
  destruct (String.eqb_spec (scriptpubkey_type o) "op_return") as [->|?].
  { cbn. destruct (JS.Qltb _ _); [done|]. intros [= <-].
    by rewrite bool_decide_eq_true_2. }
  rewrite bool_decide_eq_false_2 by done. intros [= <-]; lia.
Qed.

(** The checks on the script type do not look at the value. *)
Lemma check_scriptpubkey_value (o : Vout) (v : Z) (c : Z) :
  check_scriptpubkey parseMultisigScript (with_value o v) c
  = check_scriptpubkey parseMultisigScript o c.
Proof. done. Qed.

Lemma check_vout_inl (o : Vout) (c : Z) (b : bool) :
  check_vout parseMultisigScript o c = inl b → b = true.
Proof.
  unfold check_vout.
  destruct (check_scriptpubkey parseMultisigScript o c) eqn:E.
  - intros [= <-]. eauto using check_scriptpubkey_inl.
  - destruct (_ && _); congruence.
Qed.

Lemma check_vout_inr (o : Vout) (c c' : Z) :
  check_vout parseMultisigScript o c = inr c' →
  c' = c + (if bool_decide (scriptpubkey_type o = "op_return") then 1 else 0).
Proof.
  unfold check_vout.
  destruct (check_scriptpubkey parseMultisigScript o c) eqn:E; [done|].
  destruct (_ && _); [done|]. intros [= <-]. eauto using check_scriptpubkey_inr.
Qed.

Lemma check_vouts_inl (vouts : list Vout) (c : Z) (b : bool) :
  check_vouts parseMultisigScript vouts c = inl b → b = true.
Proof.
  revert c. induction vouts as [|o vouts IH]; intros c; [done|].
  cbn [check_vouts].
  destruct (check_vout parseMultisigScript o c) eqn:E;
    [intros [= <-]; eauto using check_vout_inl | eauto].
Qed.

Lemma check_vouts_inr (vouts : list Vout) (c c' : Z) :
  check_vouts parseMultisigScript vouts c = inr c' → c' = c + op_return_count vouts.
Proof.
  revert c. induction vouts as [|o vouts IH]; intros c.
  - intros [= <-]. unfold op_return_count. cbn. lia.
  - cbn [check_vouts].
    destruct (check_vout parseMultisigScript o c) as [|c1] eqn:E; [done|].
    intros ->%IH. apply check_vout_inr in E as ->.
    unfold op_return_count. rewrite filter_cons.
    destruct (decide (scriptpubkey_type o = "op_return")) as [Ho|Ho].
    + rewrite bool_decide_eq_true_2 by done. cbn [length]. lia.
    + rewrite bool_decide_eq_false_2 by done. lia.
Qed.

Lemma is_dust_spec (o : Vout) :
  is_dust o = true ↔ (inject_Z (value o) < dust_threshold (scriptpubkey o))%Q.
Proof.
  unfold is_dust, JS.Qltb, dust_threshold, DUST_RELAY_TX_FEE.
  rewrite negb_true_iff, <- not_true_iff_false, Qle_bool_iff.
  destruct (JS.truthy _).
  - split; intros Hlt.
    + apply Qnot_le_lt in Hlt. eapply Qlt_le_trans; [exact Hlt|]. apply Qle_lteq. right. ring.
    + apply Qlt_not_le. eapply Qlt_le_trans; [exact Hlt|]. apply Qle_lteq. right. ring.
  - split; intros Hlt.
    + apply Qnot_le_lt in Hlt. eapply Qlt_le_trans; [exact Hlt|]. apply Qle_lteq. right. ring.
    + apply Qlt_not_le. eapply Qlt_le_trans; [exact Hlt|]. apply Qle_lteq. right. ring.
Qed.

(** C10. The height-gated rules (the version limit lowered from 3 to 2,
    and the anchor rule) fire exactly when the network is one of
    "testnet4", "testnet", "signet" and "" and the height is given and at
    most the network's table entry.  For any other network string, such
    as "mainnet", the version limit is 3, the anchor rule never applies,
    and [isNonStandard] answers as it does without height and network. *)
Theorem height_gated_rules_need_a_listed_network
    (tx : Transaction) (height : option Z) (network : option string) :
  ((TX_MAX_STANDARD_VERSION height network = 2
    ∨ isNonStandardAnchor tx height network = true) ↔
   ∃ n h a, network = Some n ∧ height = Some h
            ∧ (n, a) ∈ V3_STANDARDNESS_ACTIVATION_HEIGHT ∧ h <= a)
  ∧ ((∃ n h a, network = Some n ∧ height = Some h
               ∧ (n, a) ∈ V3_STANDARDNESS_ACTIVATION_HEIGHT ∧ h <= a) →
     ∃ n, network = Some n ∧ n ∈ gated_networks)
  ∧ ∀ n, network = Some n → n ∉ gated_networks →
      TX_MAX_STANDARD_VERSION height network = 3
      ∧ isNonStandardVersion tx height network = (3 <? version tx)
      ∧ isNonStandardAnchor tx height network = false
      ∧ isNonStandard parseMultisigScript tx height network
        = isNonStandard parseMultisigScript tx None None.
Proof.
  split; [|split].
  - rewrite <- before_activation_iff, isNonStandardAnchor_iff.
    unfold TX_MAX_STANDARD_VERSION.
    destruct (before_activation _ _ _); split; auto; intros [|]; done.
  - intros (n & h & a & -> & _ & Hin & _). exists n. split; [done|].
    revert Hin. unfold V3_STANDARDNESS_ACTIVATION_HEIGHT, gated_networks.
    rewrite !elem_of_cons, !elem_of_nil.
    intros [E|[E|[E|[E|[]]]]]; inversion E; auto.
  - intros n -> Hn.
    assert (Hgate : before_activation V3_STANDARDNESS_ACTIVATION_HEIGHT height (Some n) = false)
      by by apply before_activation_other.
    assert (Hanchor : isNonStandardAnchor tx height (Some n) = false)
      by by rewrite isNonStandardAnchor_iff.
    assert (Hversion : isNonStandardVersion tx height (Some n) = (3 <? version tx)).
    { unfold isNonStandardVersion, TX_MAX_STANDARD_VERSION. rewrite Hgate.
      by destruct (3 <? version tx). }
    repeat split; try done.
    + unfold TX_MAX_STANDARD_VERSION. by rewrite Hgate.
    + unfold isNonStandard. rewrite Hversion, check_vins_ungated by done.
      replace (isNonStandardVersion tx None None) with (3 <? version tx); [done|].
      unfold isNonStandardVersion, TX_MAX_STANDARD_VERSION. cbn.
      by destruct (3 <? version tx).
Qed.


(** C2 (amended). A transaction without a coinbase input whose outputs
    include two or more outputs of type [op_return] is non-standard, for
    every height and network and whatever its other fields are. *)
Theorem two_op_returns_are_nonstandard
    (tx : Transaction) (height : option Z) (network : option string) :
  Forall (fun v => is_coinbase v = false) (vin tx) →
  2 <= op_return_count (vout tx) →
  isNonStandard parseMultisigScript tx height network = true.
Proof.
  intros Hcb Hcount. unfold isNonStandard.
  repeat match goal with
         | |- (if ?c then true else _) = true => destruct c; [done|]
         end.
  destruct (check_vins tx height network (vin tx)) as [[]|] eqn:Evin; [done| |].
  - apply check_vins_false in Evin.
    apply Exists_exists in Evin as (v & Hv & Hvcb).
    rewrite Forall_forall in Hcb. rewrite (Hcb v Hv) in Hvcb. done.
  - destruct (check_vouts parseMultisigScript (vout tx) 0) as [b|c] eqn:Evout.
    + eauto using check_vouts_inl.
    + apply check_vouts_inr in Evout as ->.
      destruct (Z.ltb_spec 1 (0 + op_return_count (vout tx))); [done|lia].
Qed.

(** The output loop around one output whose value varies. *)
Lemma check_vouts_app (pre post : list Vout) (o : Vout) (c : Z) :
  check_vouts parseMultisigScript (pre ++ o :: post) c
  = match check_vouts parseMultisigScript pre c with
    | inl b => inl b
    | inr c1 =>
        match check_vout parseMultisigScript o c1 with
        | inl b => inl b
        | inr c2 => check_vouts parseMultisigScript post c2
        end
    end.
Proof.
  revert c. induction pre as [|p pre IH]; intros c; [done|].
  cbn [check_vouts app]. by destruct (check_vout parseMultisigScript p c).
Qed.

Lemma substring_0_0 (s : string) : String.substring 0 0 s = "".
Proof. by destruct s. Qed.

Lemma substring_all (s : string) : String.substring 0 (String.length s) s = s.
Proof. induction s as [|a s IH]; [done|]. cbn. by rewrite IH. Qed.

Lemma slice_0_2 (a b : ascii) (s : string) :
  JS.slice (String a (String b s)) 0 (Some 2) = String a (String b "").
Proof.
  unfold JS.slice, JS.rel_index, JS.len. cbn [String.length].
  change (0 <? 0) with false. change (2 <? 0) with false. cbv iota.
  rewrite !Z.min_l by lia. change (Z.to_nat ((2 - 0) `max` 0)) with 2%nat.
  change (Z.to_nat 0) with 0%nat. cbn [String.substring]. by rewrite substring_0_0.
Qed.

Lemma slice_2_4 (a b c d : ascii) (s : string) :
  JS.slice (String a (String b (String c (String d s)))) 2 (Some 4) = String c (String d "").
Proof.
  unfold JS.slice, JS.rel_index, JS.len. cbn [String.length].
  change (4 <? 0) with false. change (2 <? 0) with false. cbv iota.
  rewrite !Z.min_l by lia. change (Z.to_nat ((4 - 2) `max` 0)) with 2%nat.
  change (Z.to_nat 2) with 2%nat. cbn [String.substring]. by rewrite substring_0_0.
Qed.

Lemma slice_4 (a b c d : ascii) (s : string) :
  JS.slice (String a (String b (String c (String d s)))) 4 None = s.
Proof.
  unfold JS.slice, JS.rel_index, JS.len. cbn [String.length].
  change (4 <? 0) with false. cbv iota.
  rewrite !Z.min_l by lia. change (Z.to_nat 4) with 4%nat.
  replace (Z.to_nat _) with (String.length s) by lia.
  cbn [String.substring]. apply substring_all.
Qed.

(** The 22-byte P2WPKH scriptPubKey [0014<20 bytes>] is a witness
    program, and its dust threshold is 3 × (22 + 1 + 8 + 67) = 294. *)
Lemma p2wpkh_dust_threshold (program : string) :
  String.length program = 40%nat →
  isWitnessProgram ("0014" +:+ program) = Some (0, program)
  ∧ (dust_threshold ("0014" +:+ program) == inject_Z (3 * (22 + 1 + 8 + 67)))%Q.
Proof.
  intros Hlen.
  change ("0014" +:+ program) with (String "0" (String "0" (String "1" (String "4" program)))).
  assert (Hwp : isWitnessProgram (String "0" (String "0" (String "1" (String "4" program))))
                = Some (0, program)).
  { unfold isWitnessProgram. rewrite slice_0_2, slice_2_4, slice_4.
    unfold half_length, JS.len. cbn [String.length]. rewrite Hlen. by vm_compute. }
  split; [done|].
  unfold dust_threshold. rewrite Hwp.
  unfold half_length, JS.len. cbn [String.length]. rewrite Hlen.
  by vm_compute.
Qed.


End ValidatorFacts.

(** C1. The anchor rule of the source does not look at what an input
    spends.  The 85-byte payment [raw_p2pkh_payment] decodes to a
    transaction whose only input carries no spent output at all (so it
    spends no anchor output and no p2sh, unknown, provably-unspendable or
    empty output); the validator finds it standard without a height, and
    on mainnet ("") above the activation height 863500, yet non-standard
    on mainnet at height 800000. *)
Theorem anchor_rule_rejects_a_non_anchor_spend
    (parseMultisigScript : string -> option (Z * Z)) (sha256 : list Z -> list Z) :
  ∃ tx, decodeRawTransaction sha256 raw_p2pkh_payment "" = inr tx
        ∧ Forall (fun v => prevout v = None ∧ is_coinbase v = false) (vin tx)
        ∧ isNonStandard parseMultisigScript tx None None = false
        ∧ isNonStandard parseMultisigScript tx (Some 863501) (Some "") = false
        ∧ isNonStandard parseMultisigScript tx (Some 800000) (Some "") = true.
Proof.
  eexists. split; [vm_compute; reflexivity|].
  split; [by repeat constructor|].
  by vm_compute.
Qed.

(** C2, as stated, fails: a coinbase transaction with two [op_return]
    outputs is reported standard. *)
Lemma two_op_returns_in_a_coinbase_transaction :
  ¬ (∀ (parseMultisigScript : string -> option (Z * Z)) (tx : Transaction)
       (height : option Z) (network : option string),
        2 <= op_return_count (vout tx) →
        isNonStandard parseMultisigScript tx height network = true).
Proof.
  intros Hclaim.
  specialize (Hclaim reject_multisig coinbase_with_two_op_returns None None).
  by vm_compute in Hclaim; specialize (Hclaim ltac:(discriminate)).
Qed.

Lemma two_op_returns_are_nonstandard_witness :
  Forall (fun v => is_coinbase v = false) (vin spend_with_two_op_returns)
  ∧ 2 <= op_return_count (vout spend_with_two_op_returns)
  ∧ isNonStandard reject_multisig spend_with_two_op_returns (Some 900000) (Some "") = true.
Proof.
  assert (Hcb : Forall (fun v => is_coinbase v = false) (vin spend_with_two_op_returns))
    by by repeat constructor.
  assert (Hcount : 2 <= op_return_count (vout spend_with_two_op_returns))
    by by vm_compute.
  split; [exact Hcb|]. split; [exact Hcount|].
  exact (two_op_returns_are_nonstandard reject_multisig spend_with_two_op_returns
           (Some 900000) (Some "") Hcb Hcount).
Defined.


Lemma height_gated_rules_need_a_listed_network_witness :
  ("mainnet" ∉ gated_networks)
  ∧ TX_MAX_STANDARD_VERSION (Some 800000) (Some "mainnet") = 3
  ∧ isNonStandardAnchor (spend_paying 294) (Some 800000) (Some "mainnet") = false.
Proof.
  assert (Hnet : "mainnet" ∉ gated_networks).
  { unfold gated_networks. rewrite !not_elem_of_cons. repeat split; try done.
    apply not_elem_of_nil. }
  split; [done|].
  destruct (height_gated_rules_need_a_listed_network reject_multisig (spend_paying 294)
              (Some 800000) (Some "mainnet")) as (_ & _ & Hother).
  destruct (Hother "mainnet" eq_refl Hnet) as (Hlimit & _ & Hanchor & _).
  by split.
Defined.



(** ** The prioritization detector *)

(** The fuel handed to the binary search always suffices: the search on
    [lo, hi) stops within [hi - lo] turns or because of an undefined
    entry, never for lack of fuel. *)
Lemma lis_search_fuel (X : list TransactionStripped) (M : list (option Z))
    (x : TransactionStripped) (fuel extra : nat) (lo hi : Z) :
  hi - lo <= Z.of_nat fuel →
  lis_search (fuel + extra) X M x lo hi = lis_search fuel X M x lo hi.
Proof.
  revert lo hi. induction fuel as [|fuel IH]; intros lo hi Hfuel.
  - cbn [lis_search]. destruct extra; cbn [lis_search Nat.add];
      by destruct (Z.ltb_spec lo hi); [lia|].
  - cbn [lis_search Nat.add]. destruct (Z.ltb_spec lo hi) as [Hlt|]; [|done].
    assert (lo <= lo + (hi - lo) / 2 < hi).
    { split; [|apply Z.lt_add_lt_sub_l]; [|apply Z.div_lt_upper_bound]; try lia.
      assert (0 <= (hi - lo) / 2) by (apply Z.div_pos; lia). lia. }
    destruct (mjoin (JS.get M _)) as [k|]; [|done]. cbn.
    destruct (JS.get X k) as [xm|]; [|done]. cbn.
    destruct (JS.Qltb _ _); apply IH; lia.
Qed.

(** C7. On a block made of a coinbase entry followed by transactions with
    fee rates 9, 4, 8, 3, 5 and pairwise distinct identifiers, the longest
    increasing subsequence of the reversed view [5, 3, 8, 4, 9] is the one
    with rates [3, 4, 9]; those three transactions are in neither output
    list, and the transactions with rates 5 and 8 are both, and only,
    in the deprioritized list.  The result is this value on every run. *)
Theorem lis_scenario (cb : TransactionStripped) (t9 t4 t8 t3 t5 : string) :
  NoDup [t9; t4; t8; t3; t5] →
  let block := [cb; stripped t9 9; stripped t4 4; stripped t8 8; stripped t3 3; stripped t5 5] in
  longest_increasing_subsequence (List.rev (drop 1 block))
  = Some [stripped t3 3; stripped t4 4; stripped t9 9]
  ∧ identifyPrioritizedTransactions block
    = Some {| prioritized := []; deprioritized := [t5; t8] |}
  ∧ (∀ t result, identifyPrioritizedTransactions block = Some result →
       t ∈ [t3; t4; t9] → (t ∉ prioritized result) ∧ (t ∉ deprioritized result))
  ∧ (∀ t result, identifyPrioritizedTransactions block = Some result →
       t ∈ [t5; t8] → (t ∉ prioritized result) ∧ (t ∈ deprioritized result)).
Proof.
  intros Hdup block.
  assert (Hlis : longest_increasing_subsequence (List.rev (drop 1 block))
                 = Some [stripped t3 3; stripped t4 4; stripped t9 9])
    by (vm_compute; reflexivity).
  assert (Hne : (t5 ∉ [t3; t4; t9]) ∧ (t8 ∉ [t3; t4; t9])
                ∧ (t3 ∉ [t5; t8]) ∧ (t4 ∉ [t5; t8]) ∧ (t9 ∉ [t5; t8])).
  { rewrite !NoDup_cons in Hdup. rewrite !not_elem_of_cons in *.
    destruct Hdup as ((?&?&?&?&?)&(?&?&?&?)&(?&?&?)&(?&?)&?&?). repeat split; auto. }
  destruct Hne as (H5 & H8 & H3 & H4 & H9).
  assert (Hres : identifyPrioritizedTransactions block
                 = Some {| prioritized := []; deprioritized := [t5; t8] |}).
  { unfold identifyPrioritizedTransactions. rewrite Hlis.
    change (length (List.rev (drop 1 block)) <? 2)%nat with false. cbv iota.
    cbn [mbind option_bind map stripped_txid stripped].
    change (List.rev (drop 1 block))
      with [stripped t5 5; stripped t3 3; stripped t8 8; stripped t4 4; stripped t9 9].
    assert (Hin : ∀ t, t ∈ (list_to_set [t3; t4; t9] : gset string) ↔ t ∈ [t3; t4; t9])
      by (intros t; apply elem_of_list_to_set).
    cbn [fold_left]. unfold classify_step at 5. cbn [stripped_txid stripped rate].
    rewrite (bool_decide_eq_false_2 (t5 ∈ _)) by by rewrite Hin.
    change (JS.Qltb (Qabs (5 - 0)) zero_point_one) with false.
    change (Qle_bool 5 0) with false. cbv iota.
    unfold classify_step at 4. cbn [stripped_txid stripped rate].
    rewrite (bool_decide_eq_true_2 (t3 ∈ _)) by (rewrite Hin; set_solver).
    unfold classify_step at 3. cbn [stripped_txid stripped rate].
    rewrite (bool_decide_eq_false_2 (t8 ∈ _)) by by rewrite Hin.
    change (JS.Qltb (Qabs (8 - 3)) zero_point_one) with false.
    change (Qle_bool 8 3) with false. cbv iota.
    unfold classify_step at 2. cbn [stripped_txid stripped rate].
    rewrite (bool_decide_eq_true_2 (t4 ∈ _)) by (rewrite Hin; set_solver).
    unfold classify_step. cbn [stripped_txid stripped rate].
    rewrite (bool_decide_eq_true_2 (t9 ∈ _)) by (rewrite Hin; set_solver).
    done. }
  split; [done|]. split; [done|]. split.
  - intros t result. rewrite Hres. intros [= <-] Ht. cbn [prioritized deprioritized].
    split; [apply not_elem_of_nil|]. set_solver.
  - intros t result. rewrite Hres. intros [= <-] Ht. cbn [prioritized deprioritized].
    split; [apply not_elem_of_nil|done].
Qed.

Lemma lis_scenario_witness :
  identifyPrioritizedTransactions
    [stripped "coinbase" 0; stripped "a" 9; stripped "b" 4; stripped "c" 8;
     stripped "d" 3; stripped "e" 5]
  = Some {| prioritized := []; deprioritized := ["e"; "c"] |}.
Proof.
  assert (Hdup : NoDup ["a"; "b"; "c"; "d"; "e"]).
  { repeat (apply NoDup_cons; split; [set_solver|]). apply NoDup_nil_2. }
  exact (proj1 (proj2 (lis_scenario (stripped "coinbase" 0) "a" "b" "c" "d" "e" Hdup))).
Defined.

(** ** The flag classifier *)

Lemma same_on_refl (mask a : Z) : same_on mask a a.
Proof. done. Qed.

Lemma same_on_lor (mask a b c d : Z) :
  same_on mask a b → same_on mask c d → same_on mask (Z.lor a c) (Z.lor b d).
Proof. unfold same_on. intros Hab Hcd. by rewrite !Z.land_lor_distr_l, Hab, Hcd. Qed.

Lemma same_on_all (a b : Z) : same_on (-1) a b → a = b.
Proof. unfold same_on. by rewrite !Z.land_m1_r. Qed.

(** A flag word made of variable bits only has an empty static part. *)
Lemma land_lnot_lor_l (a b : Z) : Z.land a (Z.lnot (Z.lor a b)) = 0.
Proof.
  apply Z.bits_inj'. intros n Hn.
  rewrite Z.land_spec, Z.lnot_spec, Z.lor_spec, Z.bits_0 by done.
  by destruct (Z.testbit a n), (Z.testbit b n).
Qed.

Lemma land_lnot_lor_r (a b : Z) : Z.land b (Z.lnot (Z.lor a b)) = 0.
Proof. rewrite Z.lor_comm. apply land_lnot_lor_l. Qed.

Section FlagFacts.

Variable TF : TransactionFlags.t.
Variable parseMultisigScript : string -> option (Z * Z).
Variable isPoint : string -> bool.
Context {R : Type} `{Countable R}.

Local Abbreviation static_mask := (Z.lnot (variable_bits TF)).

Lemma variable_bits_static (b : Z) :
  b = TransactionFlags.cpfp_parent TF ∨ b = TransactionFlags.cpfp_child TF
  ∨ b = TransactionFlags.replacement TF →
  Z.land b static_mask = 0.
Proof.
  unfold variable_bits. intros [->|[->| ->]].
  - rewrite <- Z.lor_assoc. apply land_lnot_lor_l.
  - rewrite (Z.lor_comm (TransactionFlags.cpfp_parent TF)), <- Z.lor_assoc.
    apply land_lnot_lor_l.
  - apply land_lnot_lor_r.
Qed.

(** The variable flags do not touch the static part. *)
Lemma update_variable_flags_static (flags : Z) cpfpInfo replacement :
  same_on static_mask (update_variable_flags TF flags cpfpInfo replacement) flags.
Proof.
  assert (Hadd : ∀ f b, Z.land b static_mask = 0 → same_on static_mask f flags →
                        same_on static_mask (Z.lor f b) flags).
  { unfold same_on. intros f b Hb Hf. by rewrite Z.land_lor_distr_l, Hb, Z.lor_0_r. }
  unfold update_variable_flags.
  destruct replacement; [apply Hadd; [apply variable_bits_static; auto|]|];
    (destruct cpfpInfo as [info|]; [|done]);
    (destruct (0 <? length (default [] (descendants info)))%nat;
     [apply Hadd; [apply variable_bits_static; auto|]|]);
    (destruct (0 <? length (ancestors info))%nat;
     [apply Hadd; [apply variable_bits_static; auto|]|]); done.
Qed.

Section Mask.

Variable mask : Z.

(** Every helper only adds bits to the word it is given. *)
Lemma setSighashFlags_same (a b : Z) (signature : string) :
  same_on mask a b →
  same_on mask (setSighashFlags TF a signature) (setSighashFlags TF b signature).
Proof.
  intros Hab. unfold setSighashFlags.
  repeat match goal with
         | |- same_on _ (if ?c then _ else _) _ => destruct c
         | |- same_on _ (Z.lor _ _) (Z.lor _ _) => apply same_on_lor
         end; done.
Qed.

Lemma fold_left_same {A} (f : Z → A → Z) (l : list A) (a b : Z) :
  (∀ a b x, same_on mask a b → same_on mask (f a x) (f b x)) →
  same_on mask a b →
  same_on mask (fold_left f l a) (fold_left f l b).
Proof.
  intros Hf. revert a b. induction l as [|x l IH]; intros a b Hab; [done|].
  cbn [fold_left]. apply IH, Hf, Hab.
Qed.

Lemma setSchnorrSighashFlags_same (a b : Z) (witness : option (list string)) :
  same_on mask a b →
  same_on mask (setSchnorrSighashFlags TF a witness) (setSchnorrSighashFlags TF b witness).
Proof.
  intros Hab. unfold setSchnorrSighashFlags.
  destruct witness as [[|w0 ws]|]; [done| |done].
  destruct (_ =? _)%nat.
  - destruct (JS.len w0 =? 130); apply same_on_lor; try done.
    by apply setSighashFlags_same.
  - apply fold_left_same; [|done]. intros a' b' w Hab'.
    destruct (JS.len w =? 130); [|destruct (JS.len w =? 128)];
      try apply same_on_lor; try done.
    by apply setSighashFlags_same.
Qed.

Lemma setSegwitSighashFlags_same (a b : Z) (witness : list string) :
  same_on mask a b →
  same_on mask (setSegwitSighashFlags TF a witness) (setSegwitSighashFlags TF b witness).
Proof.
  intros Hab. apply fold_left_same; [|done]. intros a' b' w Hab'.
  destruct (isDERSig w); [|done]. apply same_on_lor; [done|].
  by apply setSighashFlags_same.
Qed.

Lemma setLegacySighashFlags_same (a b : Z) (asm : string) :
  same_on mask a b →
  same_on mask (setLegacySighashFlags TF a asm) (setLegacySighashFlags TF b asm).
Proof.
  intros Hab. apply fold_left_same; [|done]. intros a' b' w Hab'.
  destruct (JS.startsWith w "OP_"); [done|].
  destruct (isDERSig w); [|done]. apply same_on_lor; [done|].
  by apply setSighashFlags_same.
Qed.

(** One turn of the input loop: the flags stay related whatever the
    random numbers are; the other fields do not depend on the flags. *)
Lemma flags_vin_same (random1 random2 : nat → R) (st1 st2 : vin_state) (vin : Vin) :
  same_on mask (vs_flags st1) (vs_flags st2) →
  vs_rbf st1 = vs_rbf st2 →
  vs_reused st1 = vs_reused st2 →
  same_on mask (vs_flags (flags_vin TF random1 st1 vin))
               (vs_flags (flags_vin TF random2 st2 vin))
  ∧ vs_rbf (flags_vin TF random1 st1 vin) = vs_rbf (flags_vin TF random2 st2 vin)
  ∧ vs_reused (flags_vin TF random1 st1 vin) = vs_reused (flags_vin TF random2 st2 vin).
Proof.
  intros Hflags Hrbf Hreused. unfold flags_vin. cbn [vs_flags vs_rbf vs_reused].
  rewrite Hrbf, Hreused. split; [|done].
  set (ty := default "" (prevout_type vin)).
  assert (Htype : ∀ a b, same_on mask a b →
    same_on mask
      (if String.eqb ty "v1_p2tr" then Z.lor a (setSchnorrSighashFlags TF a (witness vin))
       else match witness vin with
            | Some wit => Z.lor a (setSegwitSighashFlags TF a wit)
            | None =>
                if negb (String.eqb (scriptsig vin) "")
                then Z.lor a (setLegacySighashFlags TF a (scriptsig_asm vin))
                else a
            end)
      (if String.eqb ty "v1_p2tr" then Z.lor b (setSchnorrSighashFlags TF b (witness vin))
       else match witness vin with
            | Some wit => Z.lor b (setSegwitSighashFlags TF b wit)
            | None =>
                if negb (String.eqb (scriptsig vin) "")
                then Z.lor b (setLegacySighashFlags TF b (scriptsig_asm vin))
                else b
            end)).
  { intros a b Hab. destruct (String.eqb ty "v1_p2tr").
    - apply same_on_lor; [done|]. by apply setSchnorrSighashFlags_same.
    - destruct (witness vin) as [wit|].
      + apply same_on_lor; [done|]. by apply setSegwitSighashFlags_same.
      + destruct (negb _); [|done].
        apply same_on_lor; [done|]. by apply setLegacySighashFlags_same. }
  apply Htype.
  repeat match goal with
         | |- same_on _ (if ?c then _ else _) _ => destruct c
         | |- same_on _ (match ?c with Some _ => _ | None => _ end) _ => destruct c
         | |- same_on _ (match ?c with [] => _ | _ :: _ => _ end) _ => destruct c
         | |- same_on _ (Z.lor _ _) (Z.lor _ _) => apply same_on_lor
         end; done.
Qed.

Lemma fold_flags_vin_same (random1 random2 : nat → R) (vins : list Vin)
    (st1 st2 : vin_state) :
  same_on mask (vs_flags st1) (vs_flags st2) →
  vs_rbf st1 = vs_rbf st2 →
  vs_reused st1 = vs_reused st2 →
  same_on mask (vs_flags (fold_left (flags_vin TF random1) vins st1))
               (vs_flags (fold_left (flags_vin TF random2) vins st2))
  ∧ vs_rbf (fold_left (flags_vin TF random1) vins st1)
    = vs_rbf (fold_left (flags_vin TF random2) vins st2)
  ∧ vs_reused (fold_left (flags_vin TF random1) vins st1)
    = vs_reused (fold_left (flags_vin TF random2) vins st2).
Proof.
  revert st1 st2. induction vins as [|v vins IH]; intros st1 st2 Hf Hr Ha; [done|].
  cbn [fold_left].
  destruct (flags_vin_same random1 random2 st1 st2 v Hf Hr Ha) as (? & ? & ?).
  by apply IH.
Qed.

(** One turn of the output loop. *)
Lemma flags_vout_same (random1 random2 : nat → R) (st1 st2 : vout_state) (vout : Vout) :
  same_on mask (os_flags st1) (os_flags st2) →
  os_hasFakePubkey st1 = os_hasFakePubkey st2 →
  os_P2WSHCount st1 = os_P2WSHCount st2 →
  os_olgaSize st1 = os_olgaSize st2 →
  os_reused st1 = os_reused st2 →
  let r1 := flags_vout TF isPoint random1 st1 vout in
  let r2 := flags_vout TF isPoint random2 st2 vout in
  same_on mask (os_flags r1) (os_flags r2)
  ∧ os_hasFakePubkey r1 = os_hasFakePubkey r2
  ∧ os_P2WSHCount r1 = os_P2WSHCount r2
  ∧ os_olgaSize r1 = os_olgaSize r2
  ∧ os_reused r1 = os_reused r2.
Proof.
  intros Hflags Hfake Hcount Holga Hreused r1 r2. subst r1 r2. unfold flags_vout.
  rewrite Hfake, Hcount, Holga, Hreused.
  set (ty := scriptpubkey_type vout).
  destruct (String.eqb ty "p2pk"), (String.eqb ty "multisig"), (String.eqb ty "p2pkh"),
    (String.eqb ty "p2sh"), (String.eqb ty "v0_p2wpkh"), (String.eqb ty "v1_p2tr"),
    (String.eqb ty "op_return"), (String.eqb ty "v0_p2wsh");
    cbn [os_flags os_hasFakePubkey os_P2WSHCount os_olgaSize os_reused];
    (split; [|done]);
    repeat match goal with
           | |- same_on _ (if ?c then _ else _) _ => destruct c
           | |- same_on _ (match ?c with Some _ => _ | None => _ end) _ => destruct c
           | |- same_on _ (Z.lor _ _) (Z.lor _ _) => apply same_on_lor
           end; done.
Qed.

Lemma fold_flags_vout_same (random1 random2 : nat → R) (vouts : list Vout)
    (st1 st2 : vout_state) :
  same_on mask (os_flags st1) (os_flags st2) →
  os_hasFakePubkey st1 = os_hasFakePubkey st2 →
  os_P2WSHCount st1 = os_P2WSHCount st2 →
  os_olgaSize st1 = os_olgaSize st2 →
  os_reused st1 = os_reused st2 →
  let r1 := fold_left (flags_vout TF isPoint random1) vouts st1 in
  let r2 := fold_left (flags_vout TF isPoint random2) vouts st2 in
  same_on mask (os_flags r1) (os_flags r2)
  ∧ os_hasFakePubkey r1 = os_hasFakePubkey r2
  ∧ os_reused r1 = os_reused r2.
Proof.
  revert st1 st2. induction vouts as [|v vouts IH]; intros st1 st2 Hf H1 H2 H3 H4; [done|].
  cbn [fold_left].
  destruct (flags_vout_same random1 random2 st1 st2 v Hf H1 H2 H3 H4) as (?&?&?&?&?).
  by apply IH.
Qed.

End Mask.

(** *** The bookkeeping of amounts *)

Lemma value_key_amount (random : nat → R) (v : option Z) (calls : nat) :
  value_key random v calls
  = match amount_key v with
    | Some x => (inl x, calls)
    | None => (inr (random calls), S calls)
    end.
Proof. destruct v as [x|]; [|done]. cbn. by destruct (x =? 0). Qed.

(** After counting the amounts [vs] from an empty object, the keys are
    the usable amounts and one random number per unusable amount: the
    first of each pair of calls. *)
Lemma count_value_keys (random : nat → R) (vs : list (option Z)) (c0 : nat) :
  let st := fold_left (fun st v => count_value random v st) vs (∅, c0) in
  snd st = (c0 + 2 * missing_amounts vs)%nat
  ∧ dom (fst st)
    = (list_to_set (inl <$> omap amount_key vs) : gset (Z + R))
      ∪ list_to_set ((fun i => inr (random (c0 + 2 * i)%nat)) <$> seq 0 (missing_amounts vs)).
Proof.
  induction vs as [|v vs IH] using rev_ind.
  { cbn. split; [lia|]. by rewrite dom_empty_L, (left_id_L ∅ (∪)). }
  cbn zeta in *. rewrite fold_left_app. cbn [fold_left].
  destruct (fold_left _ vs (∅, c0)) as [m calls]. cbn [fst snd] in IH.
  destruct IH as [-> Hdom].
  assert (Hmiss : missing_amounts (vs ++ [v])
                  = (missing_amounts vs + if amount_key v is Some _ then 0 else 1)%nat).
  { unfold missing_amounts. rewrite filter_app, length_app. f_equal.
    rewrite filter_cons, filter_nil. by destruct (amount_key v). }
  assert (Hkeys : omap amount_key (vs ++ [v])%list
                  = (omap amount_key vs ++ if amount_key v is Some x then [x] else [])%list).
  { rewrite omap_app. f_equal. }
  rewrite Hmiss, Hkeys. clear Hmiss Hkeys.
  unfold count_value. cbn [fst snd]. rewrite value_key_amount.
  destruct (amount_key v) as [x|] eqn:Ev; rewrite value_key_amount, Ev; cbn [fst snd].
  - split; [lia|]. rewrite Nat.add_0_r, dom_insert_L, Hdom, fmap_app.
    rewrite list_to_set_app_L. cbn [fmap list_fmap list_to_set].
    rewrite (right_id_L ∅ (∪)). set_solver.
  - split; [lia|]. rewrite dom_insert_L, Hdom, app_nil_r.
    replace (missing_amounts vs + 1)%nat with (S (missing_amounts vs)) by lia.
    rewrite seq_S, fmap_app, list_to_set_app_L. cbn [fmap list_fmap list_to_set Nat.add].
    rewrite (right_id_L ∅ (∪)). set_solver.
Qed.

(** With fresh random numbers, the number of keys is the number of
    distinct usable amounts plus the number of unusable ones, whatever
    the random numbers are. *)
Lemma count_value_size (random : nat → R) (vs : list (option Z)) (c0 : nat) :
  fresh random (c0 + 2 * missing_amounts vs) →
  base.size (fst (fold_left (fun st v => count_value random v st) vs (∅, c0)))
  = (base.size (list_to_set (inl <$> omap amount_key vs) : gset (Z + R))
     + missing_amounts vs)%nat.
Proof.
  intros Hfresh.
  destruct (count_value_keys random vs c0) as [_ Hdom]. cbn zeta in Hdom.
  rewrite <- size_dom, Hdom, size_union.
  - f_equal. rewrite size_list_to_set, length_fmap, length_seq; [done|].
    apply NoDup_fmap_2_strong; [|apply NoDup_seq].
    intros i j Hi%elem_of_seq Hj%elem_of_seq [= Heq].
    apply Hfresh in Heq; lia.
  - intros k [a [-> _]]%elem_of_list_to_set%list_elem_of_fmap.
    by intros [i [? _]]%elem_of_list_to_set%list_elem_of_fmap.
Qed.

Lemma fold_flags_vin_values (random : nat → R) (vins : list Vin) (st : vin_state) :
  vs_values (fold_left (flags_vin TF random) vins st)
  = fold_left (fun st v => count_value random v st)
      (map (fun v => value <$> prevout v) vins) (vs_values st).
Proof. revert st. induction vins as [|v vins IH]; intros st; [done|]. cbn. by rewrite IH. Qed.

Lemma fold_flags_vout_values (random : nat → R) (vouts : list Vout) (st : vout_state) :
  os_values (fold_left (flags_vout TF isPoint random) vouts st)
  = fold_left (fun st v => count_value random v st)
      (map (fun o => Some (value o)) vouts) (os_values st).
Proof.
  revert st. induction vouts as [|v vouts IH]; intros st; [done|].
  cbn [fold_left map]. rewrite IH. f_equal. unfold flags_vout.
  by repeat match goal with |- context [let '(_, _) := ?c in _] => destruct c end.
Qed.

(** The two key counts of one run. *)
Lemma value_counts (random : nat → R) (tx : Transaction) (st : vin_state) (os : vout_state) :
  fresh random (random_calls tx) →
  vs_values st = (∅, O) →
  let ins := fold_left (flags_vin TF random) (vin tx) st in
  os_values os = (∅, snd (vs_values ins)) →
  let outs := fold_left (flags_vout TF isPoint random) (vout tx) os in
  base.size (fst (vs_values ins))
  = (base.size (list_to_set (inl <$> omap amount_key (input_amounts tx)) : gset (Z + R))
     + missing_amounts (input_amounts tx))%nat
  ∧ base.size (fst (os_values outs))
    = (base.size (list_to_set (inl <$> omap amount_key (output_amounts tx)) : gset (Z + R))
       + missing_amounts (output_amounts tx))%nat.
Proof.
  intros Hfresh Hst ins Hos outs. subst ins outs.
  rewrite fold_flags_vin_values, Hst in *.
  rewrite fold_flags_vout_values, Hos.
  fold (input_amounts tx) in *. fold (output_amounts tx).
  assert (Hcalls : snd (fold_left (fun st v => count_value random v st)
                          (input_amounts tx) (∅, O))
                   = (2 * missing_amounts (input_amounts tx))%nat)
    by apply (count_value_keys random (input_amounts tx) O).
  rewrite Hcalls. unfold random_calls in Hfresh. split.
  - apply count_value_size. intros i j Hi Hj. apply Hfresh; lia.
  - apply count_value_size. intros i j Hi Hj. apply Hfresh; lia.
Qed.

(** The static pass adds the same bits in two runs that draw fresh,
    possibly different, random numbers. *)
Lemma process_static_flags_same (mask : Z) (random1 random2 : nat → R)
    (tx : Transaction) (f1 f2 : Z) (height : option Z) (network : option string) :
  fresh random1 (random_calls tx) →
  fresh random2 (random_calls tx) →
  same_on mask f1 f2 →
  same_on mask
    (process_static_flags TF parseMultisigScript isPoint random1 tx f1 height network)
    (process_static_flags TF parseMultisigScript isPoint random2 tx f2 height network).
Proof.
  intros Hfresh1 Hfresh2 Hf. unfold process_static_flags.
  set (v1 := if version tx =? 1 then _ else _).
  set (v2 := if version tx =? 1 then _ else _).
  assert (Hv : same_on mask v1 v2).
  { subst v1 v2.
    repeat match goal with
           | |- same_on _ (if ?c then _ else _) _ => destruct c
           | |- same_on _ (Z.lor _ _) (Z.lor _ _) => apply same_on_lor
           end; done. }
  clearbody v1 v2.
  set (st1 := {| vs_flags := v1; vs_rbf := false; vs_reused := ∅; vs_values := (∅, O) |}).
  set (st2 := {| vs_flags := v2; vs_rbf := false; vs_reused := ∅; vs_values := (∅, O) |}).
  destruct (fold_flags_vin_same mask random1 random2 (vin tx) st1 st2 Hv eq_refl eq_refl)
    as (Hins & Hrbf & Hreused).
  set (ins1 := fold_left (flags_vin TF random1) (vin tx) st1) in *.
  set (ins2 := fold_left (flags_vin TF random2) (vin tx) st2) in *.
  set (r1 := if vs_rbf ins1 then _ else _).
  set (r2 := if vs_rbf ins2 then _ else _).
  assert (Hr : same_on mask r1 r2).
  { subst r1 r2. rewrite Hrbf. destruct (vs_rbf ins2); by apply same_on_lor. }
  clearbody r1 r2.
  set (os1 := {| os_flags := r1; os_hasFakePubkey := false; os_P2WSHCount := 0;
                 os_olgaSize := Some 0; os_reused := ∅;
                 os_values := (∅, snd (vs_values ins1)) |}).
  set (os2 := {| os_flags := r2; os_hasFakePubkey := false; os_P2WSHCount := 0;
                 os_olgaSize := Some 0; os_reused := ∅;
                 os_values := (∅, snd (vs_values ins2)) |}).
  destruct (fold_flags_vout_same mask random1 random2 (vout tx) os1 os2
              Hr eq_refl eq_refl eq_refl eq_refl) as (Houts & Hfake & Hreused').
  destruct (value_counts random1 tx st1 os1 Hfresh1 eq_refl eq_refl) as [Hin1 Hout1].
  destruct (value_counts random2 tx st2 os2 Hfresh2 eq_refl eq_refl) as [Hin2 Hout2].
  fold ins1 in Hin1, Hout1. fold ins2 in Hin2, Hout2.
  set (outs1 := fold_left (flags_vout TF isPoint random1) (vout tx) os1) in *.
  set (outs2 := fold_left (flags_vout TF isPoint random2) (vout tx) os2) in *.
  rewrite Hin1, Hout1, Hin2, Hout2, Hreused, Hreused', Hfake.
  repeat match goal with
         | |- same_on _ (if ?c then _ else _) _ => destruct c
         | |- same_on _ (Z.lor _ _) (Z.lor _ _) => apply same_on_lor
         end; done.
Qed.


End FlagFacts.


(** The freshness of the random keys is what the reproducibility rests on:
    were [Math.random()] to return one value over and over, the five
    unknown input amounts of [five_to_five] would share one key and the
    coinjoin bit would be set, whereas with fresh keys it is not. *)
Remark repeated_random_keys_set_coinjoin :
  Z.land (getTransactionFlags sample_flags reject_multisig every_key_is_a_point
            (fun n => n) five_to_five None false None None)
         (TransactionFlags.coinjoin sample_flags) = 0
  ∧ Z.land (getTransactionFlags sample_flags reject_multisig every_key_is_a_point
              (fun _ => O) five_to_five None false None None)
           (TransactionFlags.coinjoin sample_flags)
    = TransactionFlags.coinjoin sample_flags.
Proof. by vm_compute. Qed.

(** ** The transaction codec *)

(** C8. The decoder's weight follows the weight rule, but
    [getNonWitnessSize] does not recover the non-witness size when an
    input of a witness-carrying transaction has an empty witness stack: it
    leaves the stack's count byte in.  [raw_mixed_segwit] has 129 bytes, of
    which 123 are non-witness bytes (the length of its non-witness
    serialization); its weight is 3 × 123 + 129, and [getNonWitnessSize]
    answers 124. *)
Theorem empty_witness_stack_is_counted_as_non_witness (sha256 : list Z -> list Z) :
  ∃ tx, decodeRawTransaction sha256 raw_mixed_segwit "" = inr tx
        ∧ map witness (vin tx) = [Some []; Some ["aa"]]
        ∧ size tx = 129
        ∧ Z.of_nat (length (serializeTransaction tx)) = 123
        ∧ weight tx = 3 * 123 + 129
        ∧ getNonWitnessSize tx = 124.
Proof.
  eexists. split; [vm_compute; reflexivity|]. by vm_compute.
Qed.

(** C5. A scriptSig length whose CompactSize has its top bit set is read
    as a negative number, and the slice then moves the cursor backwards
    instead of overrunning the buffer.  [raw_backward_scriptsig] (58 bytes)
    declares a scriptSig of 2^64 - 9 bytes, read as -9 at offset 41, and
    decodes to a transaction with one input and no output;
    [raw_negative_cursor] takes the cursor before the start of the buffer
    and fails on a var-int prefix read there. *)
Theorem oversized_length_is_read_as_negative (sha256 : list Z -> list Z) :
  (∃ tx, decodeRawTransaction sha256 raw_backward_scriptsig "" = inr tx
         ∧ map scriptsig (vin tx) = [""] ∧ vout tx = [])
  ∧ Z.of_nat (length (hex_buffer raw_backward_scriptsig)) = 58
  ∧ take 9 (drop 41 (hex_buffer raw_backward_scriptsig))
    = (0xff :: le_bytes 8 (2 ^ 64 - 9))%list
  ∧ readVarInt (hex_buffer raw_backward_scriptsig) 41 = inr (-9, 50)
  ∧ decodeRawTransaction sha256 raw_negative_cursor "" = inl Invalid_VarInt_prefix.
Proof.
  split; [eexists; split; [vm_compute; reflexivity|by vm_compute]|].
  by vm_compute.
Qed.

(** ** The codec on well-formed transactions *)

Ltac euclid := Z.to_euclidean_division_equations; lia.

Lemma ToInt32_range (z : Z) : - 2 ^ 31 <= JS.ToInt32 z < 2 ^ 31.
Proof.
  unfold JS.ToInt32. change (2 ^ 31) with 2147483648. change (2 ^ 32) with 4294967296.
  euclid.
Qed.

Lemma ToInt32_small (z : Z) : - 2 ^ 31 <= z < 2 ^ 31 → JS.ToInt32 z = z.
Proof.
  unfold JS.ToInt32. change (2 ^ 31) with 2147483648. change (2 ^ 32) with 4294967296.
  euclid.
Qed.

Lemma ToInt32_mod (z : Z) : JS.ToInt32 z mod 2 ^ 32 = z mod 2 ^ 32.
Proof.
  unfold JS.ToInt32. change (2 ^ 31) with 2147483648. change (2 ^ 32) with 4294967296.
  euclid.
Qed.

Lemma testbit_ToInt32 (z n : Z) :
  0 <= n → Z.testbit (JS.ToInt32 z) n = Z.testbit z (Z.min n 31).
Proof.
  intros Hn.
  assert (Hlow : ∀ k, 0 <= k < 32 → Z.testbit (JS.ToInt32 z) k = Z.testbit z k).
  { intros k Hk. rewrite <- (Z.mod_pow2_bits_low (JS.ToInt32 z) 32 k) by lia.
    rewrite ToInt32_mod. apply Z.mod_pow2_bits_low. lia. }
  destruct (Z.lt_ge_cases n 32) as [Hlt|Hge].
  { destruct (Z.le_gt_cases n 31); [rewrite Z.min_l by lia|lia]. apply Hlow. lia. }
  rewrite Z.min_r by lia. rewrite <- (Hlow 31) by lia.
  pose proof (ToInt32_range z) as Hr.
  destruct (Z.lt_ge_cases (JS.ToInt32 z) 0) as [Hneg|Hpos].
  - rewrite !Z.bits_above_log2_neg; try done.
    + assert (Z.log2 (Z.pred (- JS.ToInt32 z)) < 31); [|lia].
      destruct (Z.eq_dec (Z.pred (- JS.ToInt32 z)) 0) as [->|]; [done|].
      apply Z.log2_lt_pow2; lia.
    + assert (Z.log2 (Z.pred (- JS.ToInt32 z)) < 31); [|lia].
      destruct (Z.eq_dec (Z.pred (- JS.ToInt32 z)) 0) as [->|]; [done|].
      apply Z.log2_lt_pow2; lia.
  - rewrite !Z.bits_above_log2; try done.
    + destruct (Z.eq_dec (JS.ToInt32 z) 0) as [->|]; [done|].
      assert (Z.log2 (JS.ToInt32 z) < 31); [|lia]. apply Z.log2_lt_pow2; lia.
    + destruct (Z.eq_dec (JS.ToInt32 z) 0) as [->|]; [cbn; lia|].
      assert (Z.log2 (JS.ToInt32 z) < 31); [|lia]. apply Z.log2_lt_pow2; lia.
Qed.

Lemma round53_small (z : Z) : Z.abs z < 2 ^ 53 → JS.round53 z = z.
Proof.
  intros Hz. unfold JS.round53.
  destruct (Z.eq_dec (Z.abs z) 0) as [->|Hne]; [done|].
  assert (Z.log2 (Z.abs z) < 53) by (apply Z.log2_lt_pow2; lia).
  destruct (Z.leb_spec (Z.log2 (Z.abs z) - 52) 0); [done|lia].
Qed.

(** Bits of the bytes of a number. *)
Lemma testbit_byte (u k j : Z) :
  0 <= j → 0 <= k →
  Z.testbit ((u / 2 ^ k) mod 256) j = (j <? 8) && Z.testbit u (j + k).
Proof.
  intros Hj Hk. change 256 with (2 ^ 8).
  rewrite Z.testbit_mod_pow2 by lia.
  destruct (j <? 8); [|done]. cbn [andb].
  by rewrite Z.div_pow2_bits by lia.
Qed.

Lemma testbit_255 (n : Z) : 0 <= n → Z.testbit 255 n = (n <? 8).
Proof. intros Hn. change 255 with (Z.ones 8). by rewrite Z.testbit_ones_nonneg by lia. Qed.

Lemma min_min_31 n : Z.min (Z.min n 31) 31 = Z.min n 31.
Proof. lia. Qed.

Lemma testbit_bor (a b n : Z) :
  0 <= n →
  Z.testbit (JS.bor a b) n = Z.testbit a (Z.min n 31) || Z.testbit b (Z.min n 31).
Proof.
  intros Hn. unfold JS.bor.
  rewrite testbit_ToInt32, Z.lor_spec, !testbit_ToInt32 by lia.
  by rewrite !min_min_31.
Qed.

Lemma testbit_shl (a k n : Z) :
  0 <= n → 0 <= k < 32 →
  Z.testbit (JS.shl a k) n
  = (k <=? Z.min n 31) && Z.testbit a (Z.min n 31 - k).
Proof.
  intros Hn Hk. unfold JS.shl.
  rewrite Z.mod_small by lia.
  rewrite testbit_ToInt32 by lia.
  destruct (Z.leb_spec k (Z.min n 31)).
  - rewrite Z.shiftl_spec, testbit_ToInt32 by lia. cbn. f_equal. lia.
  - rewrite Z.shiftl_spec_low by lia. done.
Qed.

Lemma testbit_sar (a k n : Z) :
  0 <= n → 0 <= k < 32 →
  Z.testbit (JS.sar a k) n = Z.testbit a (Z.min (n + k) 31).
Proof.
  intros Hn Hk. unfold JS.sar. rewrite Z.mod_small by lia.
  by rewrite Z.shiftr_spec, testbit_ToInt32 by lia.
Qed.

Lemma testbit_band (a b n : Z) :
  0 <= n →
  Z.testbit (JS.band a b) n = Z.testbit a (Z.min n 31) && Z.testbit b (Z.min n 31).
Proof.
  intros Hn. unfold JS.band.
  rewrite testbit_ToInt32, Z.land_spec, !testbit_ToInt32 by lia.
  by rewrite !min_min_31.
Qed.

(** Byte [k / 8] of a 32-bit value, as [intToBytes] computes it. *)
Lemma band_sar_byte (v k : Z) :
  0 <= k <= 24 →
  JS.band (JS.sar v k) 0xff = ((v mod 2 ^ 32) / 2 ^ k) mod 256.
Proof.
  intros Hk. apply Z.bits_inj'. intros n Hn.
  rewrite testbit_band, testbit_sar, testbit_255, testbit_byte by lia.
  destruct (Z.ltb_spec n 8).
  - rewrite (Z.min_l n 31) by lia.
    destruct (Z.ltb_spec n 8); [|lia]. rewrite andb_true_r, andb_true_l.
    rewrite Z.mod_pow2_bits_low by lia. f_equal. lia.
  - destruct (Z.ltb_spec (Z.min n 31) 8); [lia|]. by rewrite andb_false_r.
Qed.

Lemma band_255 (v : Z) : JS.band v 0xff = v mod 256.
Proof.
  apply Z.bits_inj'. intros n Hn.
  rewrite testbit_band, testbit_255 by lia. change 256 with (2 ^ 8).
  rewrite Z.testbit_mod_pow2 by lia.
  destruct (Z.ltb_spec n 8).
  - rewrite (Z.min_l n 31) by lia. destruct (Z.ltb_spec n 8); [|lia].
    by rewrite andb_true_r, andb_true_l.
  - destruct (Z.ltb_spec (Z.min n 31) 8); [lia|]. by rewrite andb_false_r.
Qed.

Lemma intToBytes_4 (v : Z) : intToBytes v 4 = le_bytes 4 (v mod 2 ^ 32).
Proof.
  unfold intToBytes. cbn [seq map le_bytes].
  rewrite !band_sar_byte by lia.
  rewrite !Z.div_div by lia.
  change (2 ^ (8 * Z.of_nat 0)) with 1. rewrite Z.div_1_r.
  done.
Qed.

(** The bytes of a number are bytes. *)
Lemma le_bytes_is_bytes (n : nat) (v : Z) : is_bytes (le_bytes n v).
Proof.
  revert v. induction n as [|n IH]; intros v; [constructor|].
  cbn [le_bytes]. constructor; [|apply IH]. apply Z.mod_pos_bound. lia.
Qed.

Lemma le_bytes_length (n : nat) (v : Z) : length (le_bytes n v) = n.
Proof. revert v. induction n as [|n IH]; intros v; [done|]. cbn. by rewrite IH. Qed.

(** Combining four bytes with [|] and [<<], as [readInt32] does. *)
Lemma combine_le_bytes_4 (u : Z) :
  let b i := (u / 2 ^ (8 * i)) mod 256 in
  JS.bor (JS.bor (JS.bor (b 0) (JS.shl (b 1) 8)) (JS.shl (b 2) 16)) (JS.shl (b 3) 24)
  = JS.ToInt32 u.
Proof.
  intros b. apply Z.bits_inj'. intros n Hn.
  rewrite !testbit_bor, !testbit_shl, testbit_ToInt32 by lia.
  rewrite !min_min_31. set (m := Z.min n 31). assert (0 <= m <= 31) by lia.
  subst b. cbv beta.
  destruct (Z.leb_spec 8 m), (Z.leb_spec 16 m), (Z.leb_spec 24 m); try lia;
    cbn [andb orb]; rewrite !testbit_byte by lia;
    repeat match goal with
           | |- context [?a <? ?b] => destruct (Z.ltb_spec a b); try lia
           end;
    cbn [andb orb]; rewrite ?orb_false_r; f_equal; lia.
Qed.

Lemma bits_above (u k n : Z) : 0 <= u < 2 ^ k → k <= n → Z.testbit u n = false.
Proof.
  intros Hu Hn. destruct (Z.eq_dec u 0) as [->|]; [apply Z.bits_0|].
  apply Z.bits_above_log2; [lia|].
  assert (Z.log2 u < k) by (apply Z.log2_lt_pow2; lia). lia.
Qed.

Lemma combine_le_bytes_2 (u : Z) :
  0 <= u < 2 ^ 16 →
  JS.bor (u mod 256) (JS.shl ((u / 256) mod 256) 8) = u.
Proof.
  intros Hu. apply Z.bits_inj'. intros n Hn.
  rewrite !testbit_bor, !testbit_shl by lia.
  rewrite !min_min_31. set (m := Z.min n 31). assert (0 <= m <= 31) by lia.
  replace (u mod 256) with ((u / 2 ^ 0) mod 256) by (by rewrite Z.div_1_r).
  change (u / 256) with (u / 2 ^ 8).
  destruct (Z.lt_ge_cases n 16).
  - destruct (Z.leb_spec 8 m); cbn [andb orb]; rewrite !testbit_byte by lia;
      repeat match goal with
             | |- context [?a <? ?b] => destruct (Z.ltb_spec a b); try lia
             end;
      cbn [andb orb]; rewrite ?orb_false_r; f_equal; lia.
  - rewrite (bits_above u 16 n) by lia.
    destruct (Z.leb_spec 8 m); cbn [andb orb]; rewrite !testbit_byte by lia;
      rewrite !(bits_above u 16) by lia; by rewrite ?andb_false_r.
Qed.

Lemma bigIntToBytes_8 (v : Z) : bigIntToBytes v 8 = le_bytes 8 v.
Proof.
  unfold bigIntToBytes. cbn [seq map le_bytes].
  change 255 with (Z.ones 8). rewrite !Z.land_ones, !Z.shiftr_div_pow2 by lia.
  rewrite !Z.div_div by lia. change (2 ^ 8) with 256.
  change (2 ^ (8 * Z.of_nat 0)) with 1. rewrite Z.div_1_r. done.
Qed.

Lemma varIntToBytes_compact_size (n : Z) :
  0 <= n < 2 ^ 32 → varIntToBytes n = compact_size n.
Proof.
  intros Hn. unfold varIntToBytes, compact_size.
  destruct (n <? 253); [done|].
  destruct (Z.leb_spec n 65535).
  - cbn [le_bytes]. rewrite band_255.
    replace (JS.band (JS.sar n 8) 255) with ((n mod 2 ^ 32 / 2 ^ 8) mod 256)
      by (by rewrite band_sar_byte by lia).
    by rewrite (Z.mod_small n (2 ^ 32)) by lia.
  - destruct (Z.leb_spec n 4294967295); [|lia].
    by rewrite intToBytes_4, (Z.mod_small n (2 ^ 32)) by lia.
Qed.

(** The 64-bit combination of [readInt64]. *)
Lemma combine_64 (v : Z) :
  0 <= v < 2 ^ 63 →
  Z.lor (Z.shiftl (JS.ToInt32 (v / 2 ^ 32)) 32)
        (Z.land (JS.ToInt32 (v mod 2 ^ 32)) 0xffffffff) = v.
Proof.
  intros Hv.
  assert (0 <= v / 2 ^ 32 < 2 ^ 31).
  { split; [apply Z.div_pos; lia|]. apply Z.div_lt_upper_bound; lia. }
  rewrite (ToInt32_small (v / 2 ^ 32)) by lia.
  change 4294967295 with (Z.ones 32).
  rewrite Z.land_ones, ToInt32_mod, Z.mod_mod by lia.
  apply Z.bits_inj'. intros n Hn.
  rewrite Z.lor_spec, Z.testbit_mod_pow2 by lia.
  destruct (Z.ltb_spec n 32).
  - rewrite Z.shiftl_spec_low by lia. done.
  - rewrite Z.shiftl_spec, Z.div_pow2_bits by lia. cbn [andb].
    rewrite orb_false_r. f_equal. lia.
Qed.

(** *** Hexadecimal strings *)


Lemma hex_pair_ok_all (b : Z) : 0 <= b < 256 → hex_pair_ok b = true.
Proof.
  intros Hb.
  assert (Hall : forallb hex_pair_ok (map Z.of_nat (seq 0 256)) = true) by by vm_compute.
  rewrite forallb_forall in Hall. apply Hall.
  apply in_map_iff. exists (Z.to_nat b). split; [lia|]. apply in_seq. lia.
Qed.

Lemma byte_to_hex_shape (b : Z) :
  0 <= b < 256 →
  ∃ c1 c2, byte_to_hex b = String c1 (String c2 EmptyString)
           ∧ is_hex c1 = true ∧ is_hex c2 = true
           ∧ JS.parseInt16 (String c1 (String c2 EmptyString)) = Some b.
Proof.
  intros Hb. pose proof (hex_pair_ok_all b Hb) as Hok. unfold hex_pair_ok in Hok.
  destruct (byte_to_hex b) as [|c1 [|c2 [|]]] eqn:E; try done.
  exists c1, c2. repeat (apply andb_true_iff in Hok as [Hok ?]).
  match goal with Hd : bool_decide _ = true |- _ => apply bool_decide_eq_true in Hd end.
  by repeat split.
Qed.

Lemma half_length_SS (n : nat) : (S (S n) / 2 = S (n / 2))%nat.
Proof. change (S (S n)) with (1 * 2 + n)%nat. by rewrite Nat.div_add_l by lia. Qed.

Lemma hexStringToUint8Array_cons (c1 c2 : ascii) (s : string) :
  hexStringToUint8Array (String c1 (String c2 s))
  = JS.ToUint8 (default 0 (JS.parseInt16 (String c1 (String c2 EmptyString))))
    :: hexStringToUint8Array s.
Proof.
  unfold hexStringToUint8Array. cbn [String.length].
  rewrite half_length_SS. cbn [seq map]. f_equal.
  - unfold JS.substr. cbn. by destruct s.
  - rewrite <- seq_shift, map_map. apply map_ext. intros i.
    unfold JS.substr. do 3 f_equal.
    replace (Z.to_nat (Z.of_nat (S i) * 2)) with (S (S (Z.to_nat (Z.of_nat i * 2)))) by lia.
    done.
Qed.

Lemma uint8ArrayToHexString_cons (b : Z) (l : list Z) :
  uint8ArrayToHexString (b :: l) = byte_to_hex b +:+ uint8ArrayToHexString l.
Proof. done. Qed.

Lemma hex_roundtrip (l : list Z) :
  is_bytes l → hexStringToUint8Array (uint8ArrayToHexString l) = l.
Proof.
  induction 1 as [|b l Hb _ IH]; [done|].
  rewrite uint8ArrayToHexString_cons.
  destruct (byte_to_hex_shape b Hb) as (c1 & c2 & -> & _ & _ & Hparse).
  change (String c1 (String c2 "") +:+ uint8ArrayToHexString l)
    with (String c1 (String c2 (uint8ArrayToHexString l))).
  rewrite hexStringToUint8Array_cons, Hparse, IH. cbn [default].
  unfold JS.ToUint8. by rewrite Z.mod_small.
Qed.

Lemma hex_string_length (l : list Z) :
  is_bytes l → String.length (uint8ArrayToHexString l) = (2 * length l)%nat.
Proof.
  induction 1 as [|b l Hb _ IH]; [done|].
  rewrite uint8ArrayToHexString_cons.
  destruct (byte_to_hex_shape b Hb) as (c1 & c2 & -> & _).
  change (String c1 (String c2 "") +:+ uint8ArrayToHexString l)
    with (String c1 (String c2 (uint8ArrayToHexString l))).
  cbn [String.length length]. rewrite IH. lia.
Qed.

Lemma hex_string_chars (l : list Z) :
  is_bytes l → all_chars is_hex (uint8ArrayToHexString l) = true.
Proof.
  induction 1 as [|b l Hb _ IH]; [done|].
  rewrite uint8ArrayToHexString_cons.
  destruct (byte_to_hex_shape b Hb) as (c1 & c2 & -> & H1 & H2 & _).
  change (String c1 (String c2 "") +:+ uint8ArrayToHexString l)
    with (String c1 (String c2 (uint8ArrayToHexString l))).
  unfold all_chars in *. cbn [list_ascii_of_string forallb]. by rewrite H1, H2, IH.
Qed.

(** On a string of even length, [substring(i, i + 2)] and [substr(i, 2)]
    cut the same pairs. *)
Lemma hex_buffer_even (s : string) :
  Nat.even (String.length s) = true → hex_buffer s = hexStringToUint8Array s.
Proof.
  intros Heven. unfold hex_buffer, hexStringToUint8Array.
  apply map_ext_in. intros k Hk%in_seq. cbv zeta. do 3 f_equal.
  assert (2 * k + 2 <= String.length s)%nat.
  { apply Nat.even_spec in Heven as [h Hh]. rewrite Hh in *.
    replace (2 * h / 2)%nat with h in Hk by (rewrite Nat.mul_comm, Nat.div_mul; lia). lia. }
  unfold JS.substring, JS.substr, JS.len.
  rewrite !Z.max_l, !Z.min_l by lia.
  f_equal; lia.
Qed.

Lemma hex_string_valid (l : list Z) :
  is_bytes l → l ≠ [] →
  invalid_hex_string (uint8ArrayToHexString l) = false
  ∧ hex_buffer (uint8ArrayToHexString l) = l.
Proof.
  intros Hl Hne.
  assert (Heven : Nat.even (String.length (uint8ArrayToHexString l)) = true).
  { rewrite hex_string_length by done. apply Nat.even_spec. by exists (length l). }
  split.
  - unfold invalid_hex_string. rewrite Heven, hex_string_chars by done.
    cbn [negb orb]. rewrite !orb_false_r. apply String.eqb_neq. intros Hs.
    apply (f_equal String.length) in Hs. rewrite hex_string_length in Hs by done.
    destruct l; [done|]. cbn in Hs. lia.
  - rewrite hex_buffer_even by done. by apply hex_roundtrip.
Qed.

Lemma combine_le_bytes_4_list (u b0 b1 b2 b3 : Z) :
  le_bytes 4 u = [b0; b1; b2; b3] →
  JS.bor (JS.bor (JS.bor b0 (JS.shl b1 8)) (JS.shl b2 16)) (JS.shl b3 24) = JS.ToInt32 u.
Proof.
  cbn [le_bytes]. intros [= <- <- <- <-].
  rewrite <- (combine_le_bytes_4 u). cbv zeta.
  rewrite !Z.div_div by lia. change (2 ^ (8 * 0)) with 1. by rewrite Z.div_1_r.
Qed.

Lemma le_bytes_8_split (v : Z) :
  le_bytes 8 v = (le_bytes 4 (v mod 2 ^ 32) ++ le_bytes 4 (v / 2 ^ 32))%list.
Proof.
  cbn [le_bytes app]. rewrite !Z.div_div by lia.
  change (2 ^ 32) with 4294967296.
  repeat match goal with
         | |- _ :: _ = _ :: _ => apply f_equal2; [Z.to_euclidean_division_equations; lia|]
         end.
  done.
Qed.

(** *** The buffer reader on well-formed data *)


Lemma turns_add {A} (body : A → reader A) (n m : nat) (a : A) (o : Z) :
  turns body (n + m) a o = (a' ← turns body n a; turns body m a') o.
Proof.
  revert a o. induction n as [|n IH]; intros a o; cbn [turns Nat.add].
  - done.
  - unfold mbind, reader_bind in *. destruct (body a o) as [e|[a' o']]; [done|]. apply IH.
Qed.

Lemma iterate_turns {A} (body : A → reader A) (p : positive) (a : A) (o : Z) :
  iterate body p a o = turns body (Pos.to_nat p) a o.
Proof.
  revert a o. induction p as [p IH|p IH|]; intros a o; cbn [iterate].
  - rewrite Pos2Nat.inj_xI. cbn [turns Nat.mul]. rewrite Nat.add_0_r.
    unfold mbind, reader_bind. destruct (body a o) as [e|[a' o']]; [done|].
    rewrite turns_add. unfold mbind, reader_bind.
    rewrite IH. destruct (turns body (Pos.to_nat p) a' o') as [e|[a'' o'']]; [done|].
    apply IH.
  - rewrite Pos2Nat.inj_xO. cbn [Nat.mul]. rewrite Nat.add_0_r, turns_add.
    unfold mbind, reader_bind. rewrite IH.
    destruct (turns body (Pos.to_nat p) a o) as [e|[a' o']]; [done|]. apply IH.
  - rewrite Pos2Nat.inj_1. cbn [turns]. unfold mbind, reader_bind, mret, reader_ret.
    by destruct (body a o) as [e|[a' o']].
Qed.

Lemma for_loop_turns {A} (body : A → reader A) (n : nat) (a : A) (o : Z) :
  for_loop (Z.of_nat n) body a o = turns body n a o.
Proof.
  destruct n as [|n]; [done|]. unfold for_loop.
  rewrite <- (Nat2Z.id (S n)) at 2.
  destruct (Z.of_nat (S n)) as [|p|p] eqn:E; try lia.
  rewrite iterate_turns. by rewrite Z2Nat.inj_pos.
Qed.



Section ReaderFacts.

Variable buffer : list Z.
Hypothesis buffer_small : Z.of_nat (length buffer) < 2 ^ 52.

Local Abbreviation Reads := (Reads buffer).

Lemma drop_bound (o : nat) (enc rest : list Z) :
  (o <= length buffer)%nat →
  drop o buffer = (enc ++ rest)%list → (o + length enc <= length buffer)%nat.
Proof.
  intros Ho Hd. apply (f_equal length) in Hd.
  rewrite length_drop, length_app in Hd. lia.
Qed.

Lemma add_exact (o : nat) (k : Z) :
  (o <= length buffer)%nat → 0 <= k < 2 ^ 52 → JS.add (Z.of_nat o) k = Z.of_nat o + k.
Proof. intros Ho Hk. unfold JS.add. apply round53_small. lia. Qed.

Lemma get_drop (o : nat) (k : Z) (l : list Z) (b : Z) :
  drop o buffer = l → 0 <= k → l !! Z.to_nat k = Some b →
  JS.get buffer (Z.of_nat o + k) = Some b.
Proof.
  intros <- Hk Hl. unfold JS.get. rewrite lookup_drop in Hl.
  destruct (Z.leb_spec 0 (Z.of_nat o + k)); [|lia].
  by replace (Z.to_nat (Z.of_nat o + k)) with (o + Z.to_nat k)%nat by lia.
Qed.

Lemma Reads_ret {A} (x : A) : Reads (mret x) [] x.
Proof. intros o rest _ _. cbn. by rewrite Nat.add_0_r. Qed.

Lemma Reads_bind {A B} (m : reader A) (f : A → reader B) (e1 e2 : list Z) (x : A) (y : B) :
  Reads m e1 x → Reads (f x) e2 y → Reads (m ≫= f) (e1 ++ e2) y.
Proof.
  intros Hm Hf o rest Ho Hd. unfold mbind, reader_bind.
  rewrite <- app_assoc in Hd. rewrite (Hm o _ Ho Hd).
  rewrite (Hf (o + length e1)%nat rest).
  - by rewrite length_app, Nat.add_assoc.
  - by apply drop_bound in Hd.
  - by rewrite <- drop_drop, Hd, drop_app_length.
Qed.

Lemma Reads_readInt8 (b : Z) : Reads (readInt8 buffer) [b] (Some b).
Proof.
  intros o rest Ho Hd. pose proof (drop_bound _ _ _ Ho Hd) as Hb. cbn [length] in Hb.
  unfold readInt8, buffer_length. rewrite add_exact by lia.
  destruct (Z.ltb_spec (Z.of_nat (length buffer)) (Z.of_nat o + 1)); [lia|].
  rewrite <- (Z.add_0_r (Z.of_nat o)) at 1.
  rewrite (get_drop o 0 _ b Hd ltac:(lia) eq_refl). do 2 f_equal. cbn [length]. lia.
Qed.

Lemma le_int32_bytes (o : nat) (u : Z) (rest : list Z) :
  (o <= length buffer)%nat →
  drop o buffer = (le_bytes 4 u ++ rest)%list →
  le_int32 buffer (Z.of_nat o) = JS.ToInt32 u.
Proof.
  intros Ho Hd. pose proof (drop_bound _ _ _ Ho Hd) as Hb. rewrite le_bytes_length in Hb.
  unfold le_int32. rewrite !add_exact by lia.
  destruct (le_bytes 4 u) as [|b0 [|b1 [|b2 [|b3 [|]]]]] eqn:E;
    try (apply (f_equal length) in E; rewrite le_bytes_length in E; done).
  rewrite <- (Z.add_0_r (Z.of_nat o)) at 1.
  rewrite (get_drop o 0 _ b0 Hd ltac:(lia) eq_refl), (get_drop o 1 _ b1 Hd ltac:(lia) eq_refl),
    (get_drop o 2 _ b2 Hd ltac:(lia) eq_refl), (get_drop o 3 _ b3 Hd ltac:(lia) eq_refl).
  cbn [default]. by apply combine_le_bytes_4_list.
Qed.

Lemma Reads_readInt32_unsigned (u : Z) :
  0 <= u < 2 ^ 32 → Reads (readInt32 buffer true) (le_bytes 4 u) u.
Proof.
  intros Hu o rest Ho Hd. pose proof (drop_bound _ _ _ Ho Hd) as Hb.
  rewrite le_bytes_length in *.
  unfold readInt32, buffer_length. rewrite add_exact by lia.
  destruct (Z.ltb_spec (Z.of_nat (length buffer)) (Z.of_nat o + 4)); [lia|].
  rewrite (le_int32_bytes o u rest Ho Hd). unfold JS.ToUint32.
  rewrite ToInt32_mod, Z.mod_small by lia. do 2 f_equal. lia.
Qed.

Lemma Reads_readInt32_signed (v : Z) :
  - 2 ^ 31 <= v < 2 ^ 31 → Reads (readInt32 buffer false) (le_bytes 4 (v mod 2 ^ 32)) v.
Proof.
  intros Hv o rest Ho Hd. pose proof (drop_bound _ _ _ Ho Hd) as Hb.
  rewrite le_bytes_length in *.
  unfold readInt32, buffer_length. rewrite add_exact by lia.
  destruct (Z.ltb_spec (Z.of_nat (length buffer)) (Z.of_nat o + 4)); [lia|].
  rewrite (le_int32_bytes o _ rest Ho Hd).
  replace (JS.ToInt32 (v mod 2 ^ 32)) with v; [do 2 f_equal; lia|].
  rewrite <- (ToInt32_small v) at 1 by lia. unfold JS.ToInt32.
  change (2 ^ 31) with 2147483648. change (2 ^ 32) with 4294967296.
  Z.to_euclidean_division_equations; lia.
Qed.

Lemma Reads_readInt64 (v : Z) :
  0 <= v < 2 ^ 63 → Reads (readInt64 buffer) (le_bytes 8 v) v.
Proof.
  intros Hv o rest Ho Hd. pose proof (drop_bound _ _ _ Ho Hd) as Hb.
  rewrite le_bytes_length in *.
  unfold readInt64, buffer_length. rewrite !add_exact by lia.
  destruct (Z.ltb_spec (Z.of_nat (length buffer)) (Z.of_nat o + 8)); [lia|].
  rewrite le_bytes_8_split, <- app_assoc in Hd.
  rewrite (le_int32_bytes o _ _ Ho Hd).
  assert (Hd' : drop (o + 4) buffer = (le_bytes 4 (v / 2 ^ 32) ++ rest)%list).
  { rewrite <- drop_drop, Hd. by rewrite <- (le_bytes_length 4 (v mod 2 ^ 32)), drop_app_length. }
  replace (Z.of_nat o + 4) with (Z.of_nat (o + 4)) by lia.
  rewrite (le_int32_bytes (o + 4) _ _ ltac:(lia) Hd').
  rewrite combine_64 by done. do 2 f_equal. lia.
Qed.

Lemma readInt16_bytes (u : Z) :
  0 <= u < 2 ^ 16 → Reads (readInt16 buffer) (le_bytes 2 u) u.
Proof.
  intros Hu o rest Ho Hd. pose proof (drop_bound _ _ _ Ho Hd) as Hb.
  rewrite le_bytes_length in *.
  unfold readInt16, buffer_length. rewrite !add_exact by lia.
  destruct (Z.ltb_spec (Z.of_nat (length buffer)) (Z.of_nat o + 2)); [lia|].
  rewrite <- (Z.add_0_r (Z.of_nat o)) at 1.
  rewrite (get_drop o 0 _ (u mod 256) Hd ltac:(lia) eq_refl),
    (get_drop o 1 _ ((u / 256) mod 256) Hd ltac:(lia) eq_refl).
  cbn [default]. unfold id. rewrite combine_le_bytes_2 by done. do 2 f_equal. lia.
Qed.

Lemma Reads_readVarInt (n : Z) :
  0 <= n < 2 ^ 32 → Reads (readVarInt buffer) (compact_size n) n.
Proof.
  intros Hn. unfold readVarInt, compact_size.
  destruct (Z.ltb_spec n 253).
  - apply (Reads_bind _ _ [n] [] (Some n)); [apply Reads_readInt8|].
    destruct (Z.ltb_spec n 253); [|lia]. apply Reads_ret.
  - destruct (Z.leb_spec n 65535).
    + apply (Reads_bind _ _ [253] (le_bytes 2 n) (Some 253)); [apply Reads_readInt8|].
      cbn. apply readInt16_bytes. lia.
    + destruct (Z.leb_spec n 4294967295); [|lia].
      apply (Reads_bind _ _ [254] (le_bytes 4 n) (Some 254)); [apply Reads_readInt8|].
      cbn. by apply Reads_readInt32_unsigned.
Qed.

Lemma Reads_readSlice (bytes : list Z) :
  short bytes → Reads (readSlice buffer (Z.of_nat (length bytes))) bytes bytes.
Proof.
  unfold short. intros Hs o rest Ho Hd. pose proof (drop_bound _ _ _ Ho Hd) as Hb.
  unfold readSlice, buffer_length, JS.Number.
  rewrite round53_small by lia. rewrite add_exact by lia.
  destruct (Z.ltb_spec (Z.of_nat (length buffer)) (Z.of_nat o + Z.of_nat (length bytes)));
    [lia|].
  f_equal. f_equal; [|lia].
  unfold JS.aslice, JS.rel_index.
  destruct (Z.ltb_spec (Z.of_nat o) 0); [lia|].
  destruct (Z.ltb_spec (Z.of_nat o + Z.of_nat (length bytes)) 0); [lia|].
  rewrite !Z.min_l by lia.
  replace (Z.to_nat (Z.of_nat o)) with o by lia.
  replace (Z.to_nat _) with (length bytes) by lia.
  by rewrite Hd, take_app_length.
Qed.

Lemma Reads_readVarSlice (bytes : list Z) :
  short bytes → Reads (readVarSlice buffer) (var_bytes bytes) bytes.
Proof.
  intros Hs. unfold readVarSlice, var_bytes.
  apply (Reads_bind _ _ _ _ (Z.of_nat (length bytes))).
  - apply Reads_readVarInt. unfold short in Hs. lia.
  - by apply Reads_readSlice.
Qed.

(** A loop that reads one item per turn and appends what it decodes. *)
Lemma Reads_turns {X A} (body : list A → reader (list A)) (enc : X → list Z) (dec : X → A)
    (items : list X) (acc : list A) :
  (∀ acc x, x ∈ items → Reads (body acc) (enc x) (acc ++ [dec x])%list) →
  Reads (turns body (length items) acc) (concat (map enc items)) (acc ++ map dec items)%list.
Proof.
  revert acc. induction items as [|x items IH]; intros acc Hbody.
  - cbn. rewrite app_nil_r. apply Reads_ret.
  - cbn [length turns map concat].
    apply (Reads_bind _ _ _ _ (acc ++ [dec x])%list).
    + apply Hbody. left.
    + replace (acc ++ dec x :: map dec items)%list
        with ((acc ++ [dec x]) ++ map dec items)%list by (by rewrite <- app_assoc).
      apply IH. intros acc' x' Hx'. apply Hbody. by right.
Qed.

Lemma Reads_ext {A} (m m' : reader A) (enc : list Z) (x : A) :
  (∀ o, m o = m' o) → Reads m' enc x → Reads m enc x.
Proof. intros Hext Hm o rest Ho Hd. rewrite Hext. by apply (Hm o rest). Qed.

Lemma Reads_for_loop {X A} (body : list A → reader (list A)) (enc : X → list Z)
    (dec : X → A) (items : list X) (acc : list A) :
  (∀ acc x, x ∈ items → Reads (body acc) (enc x) (acc ++ [dec x])%list) →
  Reads (for_loop (Z.of_nat (length items)) body acc)
        (concat (map enc items)) (acc ++ map dec items)%list.
Proof.
  intros Hbody. eapply Reads_ext; [apply for_loop_turns|]. by apply Reads_turns.
Qed.

Lemma Reads_readVector (stack : list (list Z)) :
  well_formed_stack stack → Reads (readVector buffer) (stack_bytes stack) stack.
Proof.
  intros [Hlen Hitems]. unfold readVector, stack_bytes.
  apply (Reads_bind _ _ _ _ (Z.of_nat (length stack))).
  - apply Reads_readVarInt. lia.
  - rewrite <- (map_id stack) at 3.
    apply (Reads_for_loop _ var_bytes id stack []).
    intros acc item Hitem. rewrite Forall_forall in Hitems.
    destruct (Hitems item Hitem) as [_ Hshort].
    rewrite <- (app_nil_r (var_bytes item)).
    apply (Reads_bind _ _ _ _ item); [by apply Reads_readVarSlice|]. apply Reads_ret.
Qed.

End ReaderFacts.

Lemma sar_byte (v : Z) : 0 <= v < 256 → JS.sar v 8 = 0.
Proof.
  intros Hv. apply Z.bits_inj'. intros n Hn.
  rewrite testbit_sar, Z.bits_0 by lia.
  apply (bits_above v 8); [done|lia].
Qed.

Lemma hexStringToUint8Array_is_bytes (s : string) : is_bytes (hexStringToUint8Array s).
Proof.
  unfold is_bytes, hexStringToUint8Array. apply Forall_map, Forall_forall.
  intros i _. cbn. unfold JS.ToUint8. apply Z.mod_pos_bound. lia.
Qed.

Lemma convertBits_bytes (data : list Z) :
  is_bytes data → ∃ words, convertBits data 8 5 = inr words.
Proof.
  intros Hdata. unfold convertBits.
  match goal with |- context [fold_left ?f _ _] => set (step := f) end.
  assert (∀ st, ∃ st', fold_left step data (inr st) = inr st') as Hfold.
  { induction Hdata as [|b data Hb _ IH]; intros st; [by eexists|].
    cbn [fold_left]. destruct st as [[acc bits] ret]. unfold step at 2.
    destruct (Z.ltb_spec b 0); [lia|]. rewrite sar_byte by done. cbn [orb negb Z.eqb].
    destruct (flush_bits _ _ _ _ _ _) as [bits' ret']. apply IH. }
  destruct (Hfold (0, 0, [])) as [[[acc bits] ret] ->]. by eexists.
Qed.

Lemma scriptPubKeyToAddress_total sha256 (s network : string) :
  ∃ a, scriptPubKeyToAddress sha256 s network = inr a.
Proof.
  unfold scriptPubKeyToAddress, p2wpkh, p2wsh, p2tr, segwit_address, toWords.
  repeat match goal with
         | |- context [convertBits (hexStringToUint8Array ?p) 8 5] =>
             destruct (convertBits_bytes (hexStringToUint8Array p)
                         (hexStringToUint8Array_is_bytes p)) as [? ->]
         end.
  repeat match goal with |- context [if ?b then _ else _] => destruct b end; by eexists.
Qed.

Lemma is_bytes_app (l1 l2 : list Z) : is_bytes l1 → is_bytes l2 → is_bytes (l1 ++ l2).
Proof. apply Forall_app_2. Qed.

Lemma is_bytes_concat (ls : list (list Z)) : Forall is_bytes ls → is_bytes (concat ls).
Proof. induction 1; [constructor|]. by apply is_bytes_app. Qed.

Lemma compact_size_is_bytes (n : Z) : 0 <= n → is_bytes (compact_size n).
Proof.
  intros Hn. unfold compact_size.
  destruct (Z.ltb_spec n 253); [repeat constructor; lia|].
  destruct (n <=? 65535); [|destruct (n <=? 4294967295)];
    (constructor; [lia|apply le_bytes_is_bytes]).
Qed.

Lemma var_bytes_is_bytes (l : list Z) : is_bytes l → is_bytes (var_bytes l).
Proof. intros Hl. apply is_bytes_app; [apply compact_size_is_bytes; lia|done]. Qed.

Lemma ToUint8_bytes (l : list Z) : is_bytes l → map JS.ToUint8 l = l.
Proof.
  induction 1 as [|b l Hb _ IH]; [done|]. cbn [map]. rewrite IH. f_equal.
  unfold JS.ToUint8. by apply Z.mod_small.
Qed.

Section DecoderFacts.
Variable sha256 : list Z → list Z.
Variable network : string.
Variable buffer : list Z.
Hypothesis buffer_small : Z.of_nat (length buffer) < 2 ^ 52.

Local Abbreviation Reads := (Reads buffer).
Local Abbreviation Completes := (Completes buffer).

Lemma Reads_bind_ret {A B} (m : reader A) (g : A → B) (enc : list Z) (x : A) :
  Reads m enc x → Reads (m ≫= (fun a => mret (g a))) enc (g x).
Proof.
  intros Hm. rewrite <- (app_nil_r enc).
  apply (Reads_bind buffer _ _ enc [] x); [done|]. apply Reads_ret.
Qed.

Lemma Reads_lift {A} (r : result A) (a : A) : r = inr a → Reads (lift r) [] a.
Proof. intros -> o rest _ _. cbn. by rewrite Nat.add_0_r. Qed.

Lemma Reads_read_vin (vins : list Vin) (i : RawInput) :
  well_formed_input i →
  Reads (read_vin buffer vins) (input_bytes i) (vins ++ [decoded_input i])%list.
Proof.
  intros (Htx & Hlen & Hidx & Hsig & Hshort & Hseq). unfold read_vin, input_bytes.
  apply (Reads_bind buffer _ _ _ _ (raw_prev_txid i)).
  { change 32 with (Z.of_nat 32). rewrite <- Hlen.
    apply Reads_readSlice; [done|]. unfold short. lia. }
  apply (Reads_bind buffer _ _ _ _ (raw_prev_index i)).
  { by apply Reads_readInt32_unsigned. }
  apply (Reads_bind buffer _ _ _ _ (raw_scriptsig i)).
  { by apply Reads_readVarSlice. }
  apply (Reads_bind_ret _ (fun sequence => (vins ++ [ _ ])%list)).
  by apply Reads_readInt32_unsigned.
Qed.

Lemma Reads_read_vout (vouts : list Vout) (o : RawOutput) :
  well_formed_output o →
  Reads (read_vout sha256 buffer network vouts) (output_bytes o)
        (vouts ++ [decoded_output sha256 network o])%list.
Proof.
  intros (Hval & Hspk & Hshort). unfold read_vout, output_bytes.
  apply (Reads_bind buffer _ _ _ _ (raw_value o)).
  { apply Reads_readInt64; [done|]. lia. }
  unfold JS.Number. rewrite round53_small by lia.
  rewrite <- (app_nil_r (var_bytes _)).
  apply (Reads_bind buffer _ _ _ _ (raw_scriptpubkey o)).
  { by apply Reads_readVarSlice. }
  destruct (scriptPubKeyToAddress_total sha256
              (uint8ArrayToHexString (raw_scriptpubkey o)) network) as [a Ha].
  apply (Reads_bind buffer _ _ [] [] a); [by apply Reads_lift|].
  unfold decoded_output. rewrite Ha. apply Reads_ret.
Qed.

Lemma Reads_witness_turns (stacks : list (list (list Z))) (done todo : list Vin) :
  length stacks = length todo →
  Forall well_formed_stack stacks →
  Reads (turns (read_witness buffer) (length stacks) (length done, (done ++ todo)%list))
        (concat (map stack_bytes stacks))
        ((length done + length stacks)%nat, (done ++ zip_with with_witness stacks todo)%list).
Proof.
  intros Hlen Hwf. revert done todo Hlen.
  induction Hwf as [|stack stacks Hstack _ IH]; intros done todo Hlen.
  - destruct todo; [|done]. cbn. rewrite Nat.add_0_r. apply Reads_ret.
  - destruct todo as [|v todo]; [done|]. cbn [length turns map concat zip_with].
    injection Hlen as Hlen.
    apply (Reads_bind buffer _ _ _ _
             (S (length done), (done ++ with_witness stack v :: todo)%list)).
    + unfold read_witness. cbn [fst snd].
      set (g := fun vector : list (list Z) =>
                  (S (length done),
                   alter (set_witness (map uint8ArrayToHexString vector)) (length done)
                         (done ++ v :: todo)%list)).
      replace (S (length done), (done ++ with_witness stack v :: todo)%list)
        with (g stack).
      * apply (Reads_bind_ret _ g). by apply Reads_readVector.
      * unfold g. f_equal. rewrite <- (Nat.add_0_r (length done)) at 1.
        by rewrite alter_app_r.
    + specialize (IH (done ++ [with_witness stack v])%list todo Hlen).
      rewrite length_app, <- !app_assoc in IH. cbn [length app] in IH.
      replace (length done + S (length stacks))%nat
        with (length done + 1 + length stacks)%nat by lia.
      by replace (S (length done)) with (length done + 1)%nat by lia.
Qed.

Lemma Reads_witnesses (stacks : list (list (list Z))) (vins : list Vin) :
  length stacks = length vins →
  Forall well_formed_stack stacks →
  Reads (for_loop (Z.of_nat (length vins)) (read_witness buffer) (O, vins))
        (concat (map stack_bytes stacks))
        (length stacks, zip_with with_witness stacks vins).
Proof.
  intros Hlen Hwf. eapply Reads_ext; [apply for_loop_turns|]. rewrite <- Hlen.
  by apply (Reads_witness_turns stacks [] vins).
Qed.

(** The witness block measures how far the cursor moved. *)
Lemma Reads_measured {S B} (m : reader S) (g : S → B) (enc : list Z) (x : S) :
  Reads m enc x →
  Reads (startOffset ← get_offset; st ← m; offset ← get_offset;
         mret (g st, JS.add (JS.sub offset startOffset) 2))
        enc (g x, Z.of_nat (length enc) + 2).
Proof.
  intros Hm o rest Ho Hd. pose proof (drop_bound buffer _ _ _ Ho Hd) as Hb.
  unfold mbind, reader_bind, get_offset, mret, reader_ret.
  rewrite (Hm o rest Ho Hd). do 2 f_equal. f_equal.
  unfold JS.sub, JS.add. rewrite !round53_small; rewrite ?round53_small; lia.
Qed.


Lemma Completes_bind {A B} (m : reader A) (f : A → reader B) (e1 e2 : list Z)
    (x : A) (y : B) :
  Reads m e1 x → Completes (f x) e2 y → Completes (m ≫= f) (e1 ++ e2) y.
Proof.
  intros Hm Hf o Ho Hd. unfold mbind, reader_bind.
  rewrite (Hm o e2 Ho Hd). apply Hf.
  - by apply drop_bound in Hd.
  - by rewrite <- drop_drop, Hd, drop_app_length.
Qed.

Lemma Completes_end {A} (e : error) (y : A) :
  Completes (offset ← get_offset;
             if negb (offset =? buffer_length buffer) then throw e else mret y) [] y.
Proof.
  intros o Ho Hd. apply (f_equal length) in Hd. rewrite length_drop in Hd. cbn in Hd.
  unfold mbind, reader_bind, get_offset, buffer_length.
  replace (Z.of_nat o =? Z.of_nat (length buffer)) with true by (symmetry; lia).
  by eexists.
Qed.

Lemma bind_step {A B} (m : reader A) (f : A → reader B) (o o' : Z) (x : A) :
  m o = inr (x, o') → (m ≫= f) o = f x o'.
Proof. intros Hm. unfold mbind, reader_bind. by rewrite Hm. Qed.

End DecoderFacts.

(** ** Serialization of what the decoder returns *)

Lemma serialize_decoded_input (i : RawInput) :
  well_formed_input i → serialize_vin (decoded_input i) = input_bytes i.
Proof.
  intros (Htx & Hlen & Hidx & Hsig & Hshort & Hseq).
  unfold serialize_vin, decoded_input, input_bytes, var_bytes.
  cbn [vin_txid vin_vout scriptsig sequence].
  cbv zeta. rewrite !hex_roundtrip by (done || by apply Forall_rev).
  rewrite rev_involutive, !intToBytes_4, !Z.mod_small by lia.
  rewrite varIntToBytes_compact_size; [done|]. unfold short in Hshort. lia.
Qed.

Lemma serialize_decoded_output sha256 network (o : RawOutput) :
  well_formed_output o →
  serialize_vout (decoded_output sha256 network o) = output_bytes o.
Proof.
  intros (Hval & Hspk & Hshort).
  unfold serialize_vout, decoded_output, output_bytes, var_bytes. cbn [value scriptpubkey].
  cbv zeta. rewrite hex_roundtrip, bigIntToBytes_8 by done.
  rewrite varIntToBytes_compact_size; [done|]. unfold short in Hshort. lia.
Qed.

Lemma serialize_with_witness (stack : list (list Z)) (v : Vin) :
  serialize_vin (with_witness stack v) = serialize_vin v.
Proof. done. Qed.

Lemma input_bytes_is_bytes (i : RawInput) : well_formed_input i → is_bytes (input_bytes i).
Proof.
  intros (Htx & Hlen & Hidx & Hsig & Hshort & Hseq). unfold input_bytes.
  repeat apply is_bytes_app;
    auto using le_bytes_is_bytes, var_bytes_is_bytes; apply compact_size_is_bytes; lia.
Qed.

Lemma output_bytes_is_bytes (o : RawOutput) : well_formed_output o → is_bytes (output_bytes o).
Proof.
  intros (Hval & Hspk & Hshort). unfold output_bytes.
  repeat apply is_bytes_app;
    auto using le_bytes_is_bytes, var_bytes_is_bytes; apply compact_size_is_bytes; lia.
Qed.

Lemma inputs_and_outputs_is_bytes (t : RawTransaction) :
  well_formed t → is_bytes (inputs_and_outputs_bytes t).
Proof.
  intros (_ & _ & _ & Hin & _ & Hout & _). unfold inputs_and_outputs_bytes.
  repeat apply is_bytes_app; try (apply compact_size_is_bytes; lia);
    apply is_bytes_concat, Forall_map.
  - eapply Forall_impl; [exact Hin|]. apply input_bytes_is_bytes.
  - eapply Forall_impl; [exact Hout|]. apply output_bytes_is_bytes.
Qed.

Lemma non_witness_is_bytes (t : RawTransaction) :
  well_formed t → is_bytes (non_witness_bytes t).
Proof.
  intros Hwf. unfold non_witness_bytes.
  apply is_bytes_app; [apply le_bytes_is_bytes|].
  apply is_bytes_app; [by apply inputs_and_outputs_is_bytes|apply le_bytes_is_bytes].
Qed.

Lemma serialize_decoded (tx : Transaction) (t : RawTransaction) :
  well_formed t →
  version tx = raw_version t →
  locktime tx = raw_locktime t →
  map serialize_vin (vin tx) = map input_bytes (raw_inputs t) →
  map serialize_vout (vout tx) = map output_bytes (raw_outputs t) →
  serializeTransaction tx = non_witness_bytes t.
Proof.
  intros Hwf Hver Hlock Hvin Hvout.
  pose proof (non_witness_is_bytes t Hwf) as Hbytes.
  destruct Hwf as (Hv & _ & Hnin & _ & Hnout & _ & _ & Hl & _).
  unfold serializeTransaction. rewrite Hver, Hlock, Hvin, Hvout.
  apply (f_equal length) in Hvin, Hvout. rewrite !length_map in Hvin, Hvout.
  rewrite Hvin, Hvout, !intToBytes_4, !varIntToBytes_compact_size by lia.
  rewrite (Z.mod_small (raw_locktime t)) by lia.
  unfold non_witness_bytes, inputs_and_outputs_bytes in *.
  rewrite <- !app_assoc in Hbytes. rewrite <- !app_assoc.
  by apply ToUint8_bytes.
Qed.

Lemma map_serialize_decoded_inputs (ins : list RawInput) :
  Forall well_formed_input ins →
  map serialize_vin (map decoded_input ins) = map input_bytes ins.
Proof.
  induction 1 as [|i ins Hi _ IH]; [done|]. cbn [map].
  by rewrite IH, serialize_decoded_input.
Qed.

Lemma map_serialize_decoded_outputs sha256 network (outs : list RawOutput) :
  Forall well_formed_output outs →
  map serialize_vout (map (decoded_output sha256 network) outs) = map output_bytes outs.
Proof.
  induction 1 as [|o outs Ho _ IH]; [done|]. cbn [map].
  by rewrite IH, serialize_decoded_output.
Qed.

Lemma map_serialize_with_witness (stacks : list (list (list Z))) (vins : list Vin) :
  length stacks = length vins →
  map serialize_vin (zip_with with_witness stacks vins) = map serialize_vin vins.
Proof.
  revert vins. induction stacks as [|s stacks IH]; intros [|v vins] Hlen; try done.
  cbn [zip_with map]. rewrite IH by (by injection Hlen). done.
Qed.

(** The first two bytes after the version of a transaction without witness
    data: the input count is not zero, so the first is not the marker. *)
Lemma legacy_marker (t : RawTransaction) (tail : list Z) :
  well_formed t →
  ∃ b0 b1 rest, b0 ≠ 0 ∧ (inputs_and_outputs_bytes t ++ tail)%list = b0 :: b1 :: rest.
Proof.
  intros (_ & Hne & Hn & Hin & _). unfold inputs_and_outputs_bytes.
  destruct (raw_inputs t) as [|i ins]; [done|]. clear Hne.
  apply Forall_cons_1 in Hin as [(_ & Hlen & _) _].
  unfold compact_size. cbn [length].
  destruct (Z.ltb_spec (Z.of_nat (S (length ins))) 253).
  - cbn [map concat]. unfold input_bytes.
    destruct (raw_prev_txid i) as [|b txid]; [done|].
    cbn [app]. eexists _, _, _. split; [|done]. lia.
  - destruct (_ <=? 65535); [|destruct (_ <=? 4294967295)];
      cbn [le_bytes app]; eexists _, _, _; (split; [|done]); lia.
Qed.

Section FromBuffer.
Variable sha256 : list Z → list Z.
Variable network : string.

Lemma fromBuffer_raw_bytes (t : RawTransaction) :
  well_formed t →
  ∃ tx, fromBuffer sha256 (raw_bytes t) network = inr tx
        ∧ version tx = raw_version t
        ∧ locktime tx = raw_locktime t
        ∧ map serialize_vin (vin tx) = map input_bytes (raw_inputs t)
        ∧ map serialize_vout (vout tx) = map output_bytes (raw_outputs t)
        ∧ tx_txid tx = txid sha256 tx.
Proof.
  intros Hwf. pose proof (legacy_marker t (le_bytes 4 (raw_locktime t) ++ []) Hwf) as Hmark.
  destruct Hwf as (Hver & Hne & Hnin & Hin & Hnout & Hout & Hwit & Hlock & Hsmall).
  remember (raw_bytes t) as buffer eqn:Hbuf.
  unfold raw_bytes in Hbuf. cbn [le_bytes] in Hbuf.
  unfold fromBuffer. cbv zeta.
  assert (Hlen4 : (4 <= length buffer)%nat).
  { rewrite Hbuf. cbn [app length]. lia. }
  (* the version *)
  assert (readInt32 buffer false 0 = inr (raw_version t, 4)) as Hversion.
  { eapply (Reads_readInt32_signed buffer Hsmall (raw_version t) Hver 0%nat); [lia|].
    rewrite Hbuf. cbn [le_bytes app drop]. reflexivity. }
  rewrite (bind_step _ _ _ _ _ Hversion).
  destruct (raw_witnesses t) as [stacks|] eqn:Hstacks.
  - (* marker and flag *)
    destruct (Hwit stacks eq_refl) as [Hslen Hswf].
    assert (drop 4 buffer = [0] ++ [1] ++ (inputs_and_outputs_bytes t
              ++ concat (map stack_bytes stacks) ++ le_bytes 4 (raw_locktime t) ++ []))%list
      as Hd4.
    { rewrite Hbuf. cbn [app drop]. by rewrite <- !app_assoc, app_nil_r. }
    pose proof (Reads_readInt8 buffer Hsmall 0 4%nat _ Hlen4 Hd4) as Hmarker.
    pose proof (drop_bound buffer 4 _ _ Hlen4 Hd4) as Hlen5.
    assert (drop 5 buffer = [1] ++ (inputs_and_outputs_bytes t
              ++ concat (map stack_bytes stacks) ++ le_bytes 4 (raw_locktime t) ++ []))%list
      as Hd5.
    { change 5%nat with (4 + 1)%nat. by rewrite <- drop_drop, Hd4. }
    pose proof (Reads_readInt8 buffer Hsmall 1 5%nat _ Hlen5 Hd5) as Hflag.
    pose proof (drop_bound buffer 5 _ _ Hlen5 Hd5) as Hlen6.
    assert (drop 6 buffer = inputs_and_outputs_bytes t
              ++ concat (map stack_bytes stacks) ++ le_bytes 4 (raw_locktime t) ++ [])%list
      as Hd6.
    { change 6%nat with (5 + 1)%nat. by rewrite <- drop_drop, Hd5. }
    change (Z.of_nat 4) with 4 in Hmarker. change (Z.of_nat (4 + length [0])) with 5 in Hmarker.
    change (Z.of_nat 5) with 5 in Hflag. change (Z.of_nat (5 + length [1])) with 6 in Hflag.
    rewrite (bind_step _ _ _ _ _ Hmarker). rewrite (bind_step _ _ _ _ _ Hflag).
    rewrite !bool_decide_eq_true_2 by done. cbn [andb]. cbv beta iota.
    unfold inputs_and_outputs_bytes in Hd6. rewrite <- !app_assoc in Hd6.
    match type of Hd6 with
    | _ = ?enc =>
        match goal with
        | |- context [match ?k 6 with _ => _ end] =>
            eassert (Completes buffer k enc _) as HK
        end
    end.
    { eapply (Completes_bind buffer _ _ [] _ tt); [apply Reads_ret|].
      eapply (Completes_bind buffer _ _ (compact_size _) _ _);
        [by apply Reads_readVarInt; lia|].
      eapply (Completes_bind buffer _ _ (concat (map input_bytes _)) _ _).
      { apply (Reads_for_loop buffer _ input_bytes decoded_input).
        intros acc i Hi. apply Reads_read_vin; [done|].
        by apply (proj1 (Forall_forall _ _) Hin). }
      eapply (Completes_bind buffer _ _ (compact_size _) _ _);
        [by apply Reads_readVarInt; lia|].
      eapply (Completes_bind buffer _ _ (concat (map output_bytes _)) _ _).
      { apply (Reads_for_loop buffer _ output_bytes (decoded_output sha256 network)).
        intros acc o Ho. apply Reads_read_vout; [done|].
        by apply (proj1 (Forall_forall _ _) Hout). }
      eapply (Completes_bind buffer _ _ (concat (map stack_bytes stacks)) _ _).
      { apply (Reads_measured buffer Hsmall _ snd).
        cbn [app]. rewrite <- (length_map decoded_input (raw_inputs t)).
        apply Reads_witnesses; [done|by rewrite length_map|done]. }
      cbv beta iota.
      eapply (Completes_bind buffer _ _ (le_bytes 4 _) [] _);
        [by apply Reads_readInt32_unsigned|].
      apply Completes_end. }
    destruct (HK 6%nat Hlen6 Hd6) as [o' HK']. change (Z.of_nat 6) with 6 in HK'.
    rewrite HK'. eexists. split; [done|]. cbn [version locktime vin vout tx_txid snd].
    repeat split.
    + rewrite map_serialize_with_witness by (by rewrite length_map).
      cbn [app]. by apply map_serialize_decoded_inputs.
    + cbn [app]. by apply map_serialize_decoded_outputs.
  - (* no marker: the two bytes are read and the cursor is moved back *)
    destruct Hmark as (b0 & b1 & rest & Hb0 & Hmark).
    assert (drop 4 buffer = inputs_and_outputs_bytes t ++ le_bytes 4 (raw_locktime t) ++ [])%list
      as Hd4.
    { rewrite Hbuf. cbn [app drop]. by rewrite app_nil_r. }
    assert (drop 4 buffer = [b0] ++ [b1] ++ rest)%list as Hd4' by (by rewrite Hd4, Hmark).
    pose proof (Reads_readInt8 buffer Hsmall b0 4%nat _ Hlen4 Hd4') as Hmarker.
    pose proof (drop_bound buffer 4 _ _ Hlen4 Hd4') as Hlen5.
    assert (drop 5 buffer = [b1] ++ rest)%list as Hd5.
    { change 5%nat with (4 + 1)%nat. by rewrite <- drop_drop, Hd4'. }
    pose proof (Reads_readInt8 buffer Hsmall b1 5%nat _ Hlen5 Hd5) as Hflag.
    change (Z.of_nat 4) with 4 in Hmarker. change (Z.of_nat (4 + length [b0])) with 5 in Hmarker.
    change (Z.of_nat 5) with 5 in Hflag. change (Z.of_nat (5 + length [b1])) with 6 in Hflag.
    rewrite (bind_step _ _ _ _ _ Hmarker). rewrite (bind_step _ _ _ _ _ Hflag).
    rewrite !(bool_decide_eq_false_2 (Some b0 = Some 0)) by congruence.
    cbn [andb]. cbv beta iota.
    rewrite (bind_step _ _ 6 4 tt) by reflexivity.
    unfold inputs_and_outputs_bytes in Hd4. rewrite <- !app_assoc in Hd4.
    match type of Hd4 with
    | _ = ?enc =>
        match goal with
        | |- context [match ?k 4 with _ => _ end] =>
            eassert (Completes buffer k enc _) as HK
        end
    end.
    { eapply (Completes_bind buffer _ _ (compact_size _) _ _);
        [by apply Reads_readVarInt; lia|].
      eapply (Completes_bind buffer _ _ (concat (map input_bytes _)) _ _).
      { apply (Reads_for_loop buffer _ input_bytes decoded_input).
        intros acc i Hi. apply Reads_read_vin; [done|].
        by apply (proj1 (Forall_forall _ _) Hin). }
      eapply (Completes_bind buffer _ _ (compact_size _) _ _);
        [by apply Reads_readVarInt; lia|].
      eapply (Completes_bind buffer _ _ (concat (map output_bytes _)) _ _).
      { apply (Reads_for_loop buffer _ output_bytes (decoded_output sha256 network)).
        intros acc o Ho. apply Reads_read_vout; [done|].
        by apply (proj1 (Forall_forall _ _) Hout). }
      eapply (Completes_bind buffer _ _ [] _ _); [apply Reads_ret|].
      cbv beta iota.
      eapply (Completes_bind buffer _ _ (le_bytes 4 _) [] _);
        [by apply Reads_readInt32_unsigned|].
      apply Completes_end. }
    destruct (HK 4%nat Hlen4 Hd4) as [o' HK']. change (Z.of_nat 4) with 4 in HK'.
    rewrite HK'. eexists. split; [done|]. cbn [version locktime vin vout tx_txid snd].
    repeat split.
    + cbn [app]. by apply map_serialize_decoded_inputs.
    + cbn [app]. by apply map_serialize_decoded_outputs.
Qed.
End FromBuffer.

Lemma without_witnesses_bytes (t : RawTransaction) :
  raw_bytes (without_witnesses t) = non_witness_bytes t.
Proof. done. Qed.

Lemma non_witness_length (t : RawTransaction) :
  (length (non_witness_bytes t) <= length (raw_bytes t))%nat.
Proof.
  unfold non_witness_bytes, raw_bytes. destruct (raw_witnesses t); [|done].
  rewrite !length_app. cbn [length]. lia.
Qed.

Lemma without_witnesses_well_formed (t : RawTransaction) :
  well_formed t → well_formed (without_witnesses t).
Proof.
  intros (Hver & Hne & Hnin & Hin & Hnout & Hout & Hwit & Hlock & Hsmall).
  pose proof (non_witness_length t) as Hlen.
  destruct Hver, Hlock. unfold well_formed. split_and!; try assumption.
  - intros stacks. cbn. discriminate.
  - rewrite without_witnesses_bytes. lia.
Qed.

Lemma non_witness_not_empty (t : RawTransaction) : non_witness_bytes t ≠ [].
Proof. done. Qed.

(** C4. For every well-formed raw transaction, given as a hex string
    whose bytes are the serialization of a well-formed [t], decoding
    succeeds and serializing the decoded transaction gives exactly the
    non-witness bytes of the input: version, inputs, outputs and locktime,
    without the marker, the flag and the witness stacks.  The identifier
    stored by the decoder is the one computed from that serialization, and
    decoding the serialization again gives a transaction with the same
    serialization and the same identifier. *)
Theorem serialization_round_trip (sha256 : list Z → list Z) (network rawtx : string)
    (t : RawTransaction) :
  well_formed t →
  invalid_hex_string rawtx = false →
  hex_buffer rawtx = raw_bytes t →
  ∃ tx,
    decodeRawTransaction sha256 rawtx network = inr tx
    ∧ serializeTransaction tx = non_witness_bytes t
    ∧ tx_txid tx = txid sha256 tx
    ∧ ∃ tx',
        decodeRawTransaction sha256 (uint8ArrayToHexString (serializeTransaction tx)) network
        = inr tx'
        ∧ serializeTransaction tx' = serializeTransaction tx
        ∧ tx_txid tx' = tx_txid tx.
Proof.
  intros Hwf Hvalid Hbuffer. unfold decodeRawTransaction. rewrite Hvalid, Hbuffer.
  destruct (fromBuffer_raw_bytes sha256 network t Hwf)
    as (tx & -> & Hver & Hlock & Hvin & Hvout & Htxid).
  pose proof (serialize_decoded tx t Hwf Hver Hlock Hvin Hvout) as Hser.
  exists tx. repeat split; try done.
  pose proof (without_witnesses_well_formed t Hwf) as Hwf'.
  destruct (hex_string_valid (non_witness_bytes t) (non_witness_is_bytes t Hwf)
              (non_witness_not_empty t)) as [Hvalid' Hbuffer'].
  rewrite Hser, Hvalid', Hbuffer', <- without_witnesses_bytes.
  destruct (fromBuffer_raw_bytes sha256 network _ Hwf')
    as (tx' & -> & Hver' & Hlock' & Hvin' & Hvout' & Htxid').
  pose proof (serialize_decoded tx' _ Hwf' Hver' Hlock' Hvin' Hvout') as Hser'.
  exists tx'. repeat split; try done.
  rewrite Htxid, Htxid'. unfold txid. by rewrite Hser, Hser'.
Qed.

Lemma replicate_is_bytes (n : nat) (b : Z) : 0 <= b < 256 → is_bytes (replicate n b).
Proof. intros Hb. by apply Forall_replicate. Qed.

Lemma mixed_segwit_well_formed : well_formed mixed_segwit.
Proof.
  unfold well_formed, mixed_segwit.
  cbn [raw_version raw_inputs raw_outputs raw_witnesses raw_locktime].
  split_and!; try (cbn; lia); try done.
  - repeat apply Forall_cons_2; try apply Forall_nil_2;
      (split_and!; cbn [raw_prev_txid raw_prev_index raw_scriptsig raw_sequence];
       [apply replicate_is_bytes; lia|done|lia|lia|constructor|done|lia|lia]).
  - apply Forall_cons_2; [|apply Forall_nil_2].
    split_and!; cbn [raw_value raw_scriptpubkey];
      [lia|lia|apply hexStringToUint8Array_is_bytes|done].
  - intros stacks [= <-]. split; [done|].
    repeat apply Forall_cons_2; try apply Forall_nil_2.
    + split; [done|apply Forall_nil_2].
    + split; [done|]. apply Forall_cons_2; [|apply Forall_nil_2].
      split; [|done]. apply Forall_cons_2; [lia|apply Forall_nil_2].
Qed.

Lemma serialization_round_trip_witness :
  well_formed mixed_segwit
  ∧ invalid_hex_string raw_mixed_segwit = false
  ∧ hex_buffer raw_mixed_segwit = raw_bytes mixed_segwit
  ∧ ∃ tx,
      decodeRawTransaction constant_digest raw_mixed_segwit "" = inr tx
      ∧ serializeTransaction tx = non_witness_bytes mixed_segwit
      ∧ tx_txid tx = txid constant_digest tx
      ∧ ∃ tx',
          decodeRawTransaction constant_digest
            (uint8ArrayToHexString (serializeTransaction tx)) "" = inr tx'
          ∧ serializeTransaction tx' = serializeTransaction tx
          ∧ tx_txid tx' = tx_txid tx.
Proof.
  assert (Hvalid : invalid_hex_string raw_mixed_segwit = false) by (vm_compute; reflexivity).
  assert (Hbytes : hex_buffer raw_mixed_segwit = raw_bytes mixed_segwit)
    by (vm_compute; reflexivity).
  split; [exact mixed_segwit_well_formed|].
  split; [exact Hvalid|]. split; [exact Hbytes|].
  exact (serialization_round_trip constant_digest "" raw_mixed_segwit mixed_segwit
           mixed_segwit_well_formed Hvalid Hbytes).
Defined.

(** * Further properties of the module *)

(** ** Hex strings and bytes *)

Lemma byte_to_hex_lower (b : Z) :
  0 <= b < 256 → all_chars is_lower_hex (byte_to_hex b) = true.
Proof.
  intros Hb. pose proof (hex_pair_ok_all b Hb) as Hok. unfold hex_pair_ok in Hok.
  destruct (byte_to_hex b) as [|c1 [|c2 [|]]] eqn:E; try done.
  apply andb_true_iff in Hok as [Hok _]. apply andb_true_iff in Hok as [Hok _].
  apply andb_true_iff in Hok as [Hok _]. apply andb_true_iff in Hok as [H1 H2].
  unfold all_chars. cbn [list_ascii_of_string forallb]. by rewrite H1, H2.
Qed.

Lemma all_chars_app (p : ascii → bool) (s1 s2 : string) :
  all_chars p (s1 +:+ s2) = all_chars p s1 && all_chars p s2.
Proof.
  unfold all_chars. induction s1 as [|c s1 IH]; [done|].
  change (String c s1 +:+ s2) with (String c (s1 +:+ s2)).
  cbn [list_ascii_of_string forallb]. by rewrite IH, andb_assoc.
Qed.

(** X1. [hexStringToUint8Array] reads back the bytes that
    [uint8ArrayToHexString] wrote; the string has two lower-case hex
    digits for every byte. *)
Theorem hex_of_bytes_round_trip (bytes : list Z) :
  is_bytes bytes →
  hexStringToUint8Array (uint8ArrayToHexString bytes) = bytes
  ∧ JS.len (uint8ArrayToHexString bytes) = 2 * Z.of_nat (length bytes)
  ∧ all_chars is_lower_hex (uint8ArrayToHexString bytes) = true.
Proof.
  intros Hbytes. split; [by apply hex_roundtrip|]. split.
  - unfold JS.len. rewrite hex_string_length by done. lia.
  - induction Hbytes as [|b l Hb _ IH]; [done|].
    rewrite uint8ArrayToHexString_cons, all_chars_app, IH.
    by rewrite byte_to_hex_lower.
Qed.

Lemma hex_of_bytes_round_trip_witness :
  is_bytes [0; 10; 255]
  ∧ hexStringToUint8Array (uint8ArrayToHexString [0; 10; 255]) = [0; 10; 255]
  ∧ JS.len (uint8ArrayToHexString [0; 10; 255]) = 2 * Z.of_nat (length [0; 10; 255])
  ∧ all_chars is_lower_hex (uint8ArrayToHexString [0; 10; 255]) = true.
Proof.
  assert (Hb : is_bytes [0; 10; 255]) by (repeat constructor; lia).
  split; [exact Hb|]. exact (hex_of_bytes_round_trip [0; 10; 255] Hb).
Defined.

Lemma lower_hex_pair (c1 c2 : ascii) :
  is_lower_hex c1 = true → is_lower_hex c2 = true →
  byte_to_hex (JS.ToUint8 (default 0 (JS.parseInt16 (String c1 (String c2 EmptyString)))))
  = String c1 (String c2 EmptyString).
Proof.
  assert (Hall : forallb (fun n1 => forallb (fun n2 =>
            let c1 := ascii_of_nat n1 in let c2 := ascii_of_nat n2 in
            implb (is_lower_hex c1 && is_lower_hex c2)
              (String.eqb
                 (byte_to_hex (JS.ToUint8 (default 0
                    (JS.parseInt16 (String c1 (String c2 EmptyString))))))
                 (String c1 (String c2 EmptyString))))
            (seq 0 256)) (seq 0 256) = true) by (vm_compute; reflexivity).
  intros H1 H2. rewrite forallb_forall in Hall.
  specialize (Hall (nat_of_ascii c1)). rewrite forallb_forall in Hall.
  assert (∀ c, In (nat_of_ascii c) (seq 0 256)) as Hin.
  { intros c. apply in_seq. pose proof (nat_ascii_bounded c). lia. }
  specialize (Hall (Hin c1) (nat_of_ascii c2) (Hin c2)). cbv zeta in Hall.
  rewrite !ascii_nat_embedding, H1, H2 in Hall. cbn [andb implb] in Hall.
  by apply String.eqb_eq.
Qed.

Lemma hex_string_round_trip (hex : string) :
  Nat.even (String.length hex) = true →
  all_chars is_lower_hex hex = true →
  uint8ArrayToHexString (hexStringToUint8Array hex) = hex.
Proof.
  revert hex. fix IH 1. intros [|c1 [|c2 s]] Heven Hhex; [done|done|].
  rewrite hexStringToUint8Array_cons, uint8ArrayToHexString_cons.
  unfold all_chars in Hhex. cbn [list_ascii_of_string forallb] in Hhex.
  apply andb_true_iff in Hhex as [H1 Hhex]. apply andb_true_iff in Hhex as [H2 Hhex].
  rewrite lower_hex_pair by done.
  change (String c1 (String c2 "") +:+ ?x) with (String c1 (String c2 x)). do 2 f_equal.
  apply IH; [exact Heven|exact Hhex].
Qed.

(** X2. [uint8ArrayToHexString] gives back the string that
    [hexStringToUint8Array] read, for lower-case hex of even length. *)
Theorem bytes_of_hex_round_trip (hex : string) :
  Nat.even (String.length hex) = true →
  all_chars is_lower_hex hex = true →
  uint8ArrayToHexString (hexStringToUint8Array hex) = hex.
Proof. apply hex_string_round_trip. Qed.

Lemma bytes_of_hex_round_trip_witness :
  uint8ArrayToHexString (hexStringToUint8Array "00ab7f") = "00ab7f".
Proof. exact (bytes_of_hex_round_trip "00ab7f" eq_refl eq_refl). Defined.

(** ** Integers as bytes *)

(** X3. Byte [i] of [intToBytes] is byte [i mod 4] of the 32-bit two's
    complement of the value: the shift count of [>>] is taken modulo 32. *)
Theorem intToBytes_bytes (value : Z) (byteLength : nat) :
  intToBytes value byteLength
  = map (fun i => ((value mod 2 ^ 32) / 2 ^ (8 * (Z.of_nat i mod 4))) mod 256)
        (seq 0 byteLength).
Proof.
  unfold intToBytes. apply map_ext. intros i.
  assert (JS.sar value (8 * Z.of_nat i) = JS.sar value (8 * (Z.of_nat i mod 4))) as ->.
  { unfold JS.sar. f_equal. euclid. }
  apply band_sar_byte. euclid.
Qed.

Lemma combine_64_signed (v : Z) :
  - 2 ^ 63 <= v < 2 ^ 63 →
  Z.lor (Z.shiftl (JS.ToInt32 (v / 2 ^ 32)) 32)
        (Z.land (JS.ToInt32 (v mod 2 ^ 32)) 0xffffffff) = v.
Proof.
  intros Hv.
  assert (- 2 ^ 31 <= v / 2 ^ 32 < 2 ^ 31) by euclid.
  rewrite (ToInt32_small (v / 2 ^ 32)) by lia.
  change 4294967295 with (Z.ones 32).
  rewrite Z.land_ones, ToInt32_mod, Z.mod_mod by lia.
  apply Z.bits_inj'. intros n Hn.
  rewrite Z.lor_spec, Z.testbit_mod_pow2 by lia.
  destruct (Z.ltb_spec n 32).
  - rewrite Z.shiftl_spec_low by lia. done.
  - rewrite Z.shiftl_spec, Z.div_pow2_bits by lia. cbn [andb].
    rewrite orb_false_r. f_equal. lia.
Qed.

(** X4. [readInt64] reads back what [bigIntToBytes] wrote, for every signed
    64-bit value. *)
Theorem readInt64_of_bigIntToBytes (v : Z) (before after : list Z) :
  - 2 ^ 63 <= v < 2 ^ 63 →
  let buffer := (before ++ bigIntToBytes v 8 ++ after)%list in
  Z.of_nat (length buffer) < 2 ^ 52 →
  readInt64 buffer (Z.of_nat (length before)) = inr (v, Z.of_nat (length before) + 8).
Proof.
  intros Hv buffer Hsmall.
  assert (Hd : drop (length before) buffer = (le_bytes 8 v ++ after)%list)
    by (unfold buffer; by rewrite drop_app_length, bigIntToBytes_8).
  assert (Ho : (length before <= length buffer)%nat)
    by (unfold buffer; rewrite length_app; lia).
  clearbody buffer.
  pose proof (drop_bound buffer _ _ _ Ho Hd) as Hb. rewrite le_bytes_length in Hb.
  unfold readInt64, buffer_length. rewrite !(add_exact buffer Hsmall) by lia.
  destruct (Z.ltb_spec (Z.of_nat (length buffer)) (Z.of_nat (length before) + 8)); [lia|].
  rewrite le_bytes_8_split, <- app_assoc in Hd.
  rewrite (le_int32_bytes buffer Hsmall _ _ _ Ho Hd).
  assert (Hd' : drop (length before + 4) buffer = (le_bytes 4 (v / 2 ^ 32) ++ after)%list).
  { rewrite <- drop_drop, Hd.
    by rewrite <- (le_bytes_length 4 (v mod 2 ^ 32)), drop_app_length. }
  replace (Z.of_nat (length before) + 4) with (Z.of_nat (length before + 4)) by lia.
  rewrite (le_int32_bytes buffer Hsmall (length before + 4) _ _ ltac:(lia) Hd').
  by rewrite combine_64_signed.
Qed.

Lemma readInt64_of_bigIntToBytes_witness :
  readInt64 ([7] ++ bigIntToBytes (-2) 8 ++ [9])%list 1 = inr (-2, 9).
Proof.
  refine (readInt64_of_bigIntToBytes (-2) [7] [9] _ _); [lia|vm_compute; reflexivity].
Defined.

(** X5. [readVarInt] reads back what [varIntToBytes] wrote. *)
Theorem readVarInt_of_varIntToBytes (n : Z) (before after : list Z) :
  0 <= n < 2 ^ 32 →
  let buffer := (before ++ varIntToBytes n ++ after)%list in
  Z.of_nat (length buffer) < 2 ^ 52 →
  readVarInt buffer (Z.of_nat (length before))
  = inr (n, Z.of_nat (length before) + Z.of_nat (length (varIntToBytes n)))
  ∧ length (varIntToBytes n)
    = if n <? 0xfd then 1%nat else if n <=? 0xffff then 3%nat else 5%nat.
Proof.
  intros Hn buffer Hsmall. split.
  - assert (Hd : drop (length before) buffer = (varIntToBytes n ++ after)%list)
      by (unfold buffer; by rewrite drop_app_length).
    assert (Ho : (length before <= length buffer)%nat)
      by (unfold buffer; rewrite length_app; lia).
    clearbody buffer. rewrite varIntToBytes_compact_size in * by done.
    rewrite (Reads_readVarInt buffer Hsmall n Hn _ _ Ho Hd). do 2 f_equal. lia.
  - unfold varIntToBytes. destruct (n <? 253); [done|].
    destruct (n <=? 65535); [done|]. destruct (Z.leb_spec n 4294967295); [done|lia].
Qed.

Lemma readVarInt_of_varIntToBytes_witness :
  readVarInt ([1; 2] ++ varIntToBytes 515 ++ [3])%list 2
  = inr (515, 2 + Z.of_nat (length (varIntToBytes 515)))
  ∧ length (varIntToBytes 515) = 3%nat.
Proof.
  refine (readVarInt_of_varIntToBytes 515 [1; 2] [3] _ _); [lia|vm_compute; reflexivity].
Defined.

(** ** The errors of the decoder *)

Lemma fails_structurally_ret {A} (x : A) : fails_structurally (mret x).
Proof. by intros o e. Qed.

Lemma fails_structurally_bind {A B} (m : reader A) (f : A → reader B) :
  fails_structurally m → (∀ x, fails_structurally (f x)) → fails_structurally (m ≫= f).
Proof.
  intros Hm Hf o e. unfold mbind, reader_bind.
  destruct (m o) as [e'|[x o']] eqn:E; [intros [= <-]; eauto|]. apply Hf.
Qed.

Lemma fails_structurally_throw {A} (e : error) :
  structural e → fails_structurally (throw (A := A) e).
Proof. by intros He o e' [= <-]. Qed.

Lemma fails_structurally_iterate {A} (body : A → reader A) (p : positive) (a : A) :
  (∀ a, fails_structurally (body a)) → fails_structurally (iterate body p a).
Proof.
  intros Hbody. revert a. induction p as [p IH|p IH|]; intros a; cbn [iterate]; [| |done].
  - apply fails_structurally_bind; [done|]. intros a'.
    apply fails_structurally_bind; [done|]. done.
  - apply fails_structurally_bind; done.
Qed.

Lemma fails_structurally_for_loop {A} (n : Z) (body : A → reader A) (a : A) :
  (∀ a, fails_structurally (body a)) → fails_structurally (for_loop n body a).
Proof.
  intros Hbody. destruct n; cbn [for_loop];
    [apply fails_structurally_ret|by apply fails_structurally_iterate
    |apply fails_structurally_ret].
Qed.

Ltac out_of_bounds :=
  let o := fresh "o" in let e := fresh "e" in
  intros o e;
  match goal with
  | |- context [if ?c then _ else _] => destruct c; [intros [= <-]; by left|done]
  end.

Lemma fails_structurally_readInt8 (buffer : list Z) : fails_structurally (readInt8 buffer).
Proof. unfold readInt8. out_of_bounds. Qed.

Lemma fails_structurally_readInt16 (buffer : list Z) : fails_structurally (readInt16 buffer).
Proof. unfold readInt16. out_of_bounds. Qed.

Lemma fails_structurally_readInt32 (buffer : list Z) (unsigned : bool) :
  fails_structurally (readInt32 buffer unsigned).
Proof. unfold readInt32. out_of_bounds. Qed.

Lemma fails_structurally_readInt64 (buffer : list Z) : fails_structurally (readInt64 buffer).
Proof. unfold readInt64. out_of_bounds. Qed.

Lemma fails_structurally_readVarInt (buffer : list Z) :
  fails_structurally (readVarInt buffer).
Proof.
  unfold readVarInt. apply fails_structurally_bind; [apply fails_structurally_readInt8|].
  intros [f|]; [|apply fails_structurally_throw; unfold structural; auto].
  destruct (f <? 253); [apply fails_structurally_ret|].
  destruct (f =? 253); [apply fails_structurally_readInt16|].
  destruct (f =? 254); [apply fails_structurally_readInt32|].
  destruct (f =? 255); [apply fails_structurally_readInt64|].
  apply fails_structurally_throw; unfold structural; auto.
Qed.

Lemma fails_structurally_readSlice (buffer : list Z) (n : Z) :
  fails_structurally (readSlice buffer n).
Proof.
  unfold readSlice. intros o e. cbv zeta.
  destruct (_ <? _); [intros [= <-]; right; by left|done].
Qed.

Lemma fails_structurally_readVarSlice (buffer : list Z) :
  fails_structurally (readVarSlice buffer).
Proof.
  apply fails_structurally_bind; [apply fails_structurally_readVarInt|].
  apply fails_structurally_readSlice.
Qed.

Lemma fails_structurally_readVector (buffer : list Z) :
  fails_structurally (readVector buffer).
Proof.
  apply fails_structurally_bind; [apply fails_structurally_readVarInt|]. intros count.
  apply fails_structurally_for_loop. intros vector.
  apply fails_structurally_bind; [apply fails_structurally_readVarSlice|].
  intros s. apply fails_structurally_ret.
Qed.

Lemma fails_structurally_read_vin (buffer : list Z) (vins : list Vin) :
  fails_structurally (read_vin buffer vins).
Proof.
  unfold read_vin.
  apply fails_structurally_bind; [apply fails_structurally_readSlice|]. intros t.
  apply fails_structurally_bind; [apply fails_structurally_readInt32|]. intros v.
  apply fails_structurally_bind; [apply fails_structurally_readVarSlice|]. intros s.
  apply fails_structurally_bind; [apply fails_structurally_readInt32|]. intros q.
  apply fails_structurally_ret.
Qed.

Lemma fails_structurally_read_vout sha256 (buffer : list Z) (network : string)
    (vouts : list Vout) :
  fails_structurally (read_vout sha256 buffer network vouts).
Proof.
  unfold read_vout.
  apply fails_structurally_bind; [apply fails_structurally_readInt64|]. intros v.
  apply fails_structurally_bind; [apply fails_structurally_readVarSlice|]. intros s.
  apply fails_structurally_bind.
  - intros o e. unfold lift.
    by destruct (scriptPubKeyToAddress_total sha256 (uint8ArrayToHexString s) network)
      as [a ->].
  - intros a. apply fails_structurally_ret.
Qed.

Lemma fails_structurally_read_witness (buffer : list Z) (st : nat * list Vin) :
  fails_structurally (read_witness buffer st).
Proof.
  unfold read_witness.
  apply fails_structurally_bind; [apply fails_structurally_readVector|].
  intros v. apply fails_structurally_ret.
Qed.

Lemma fromBuffer_fails_structurally sha256 (buffer : list Z) (network : string) (e : error) :
  fromBuffer sha256 buffer network = inl e → structural e.
Proof.
  unfold fromBuffer. cbv zeta.
  match goal with
  | |- match ?parse 0 with _ => _ end = _ → _ =>
      assert (fails_structurally parse) as Hparse
  end.
  { apply fails_structurally_bind; [apply fails_structurally_readInt32|]. intros version.
    apply fails_structurally_bind; [apply fails_structurally_readInt8|]. intros marker.
    apply fails_structurally_bind; [apply fails_structurally_readInt8|]. intros flag.
    apply fails_structurally_bind.
    { destruct (_ && _); [apply fails_structurally_ret|]. by intros o e'. }
    intros _.
    apply fails_structurally_bind; [apply fails_structurally_readVarInt|]. intros vinLen.
    apply fails_structurally_bind.
    { apply fails_structurally_for_loop, fails_structurally_read_vin. }
    intros vins.
    apply fails_structurally_bind; [apply fails_structurally_readVarInt|]. intros voutLen.
    apply fails_structurally_bind.
    { apply fails_structurally_for_loop, fails_structurally_read_vout. }
    intros vouts.
    apply fails_structurally_bind.
    { destruct (_ && _); [|apply fails_structurally_ret].
      apply fails_structurally_bind; [by intros o e'|]. intros start.
      apply fails_structurally_bind.
      { apply fails_structurally_for_loop, fails_structurally_read_witness. }
      intros st. apply fails_structurally_bind; [by intros o e'|]. intros o.
      apply fails_structurally_ret. }
    intros [vins' witnessSize].
    apply fails_structurally_bind; [apply fails_structurally_readInt32|]. intros locktime.
    apply fails_structurally_bind; [by intros o e'|]. intros offset.
    destruct (negb _); [|apply fails_structurally_ret].
    apply fails_structurally_throw. unfold structural. auto. }
  match goal with
  | |- match ?parse 0 with _ => _ end = _ → _ =>
      destruct (parse 0) as [e'|[tx o]] eqn:E; [|done]
  end.
  intros [= <-]. by apply (Hparse 0).
Qed.

(** X6. A failure of [decodeRawTransaction] is 'Invalid hex string' exactly when
    the string fails the hex test, and one of the four errors of the
    structural decode otherwise; 'Invalid value' is never thrown. *)
Theorem decodeRawTransaction_errors sha256 (rawtx network : string) (e : error) :
  decodeRawTransaction sha256 rawtx network = inl e →
  (e = Invalid_hex_string ↔ invalid_hex_string rawtx = true)
  ∧ (invalid_hex_string rawtx = false → structural e)
  ∧ e ≠ Invalid_value.
Proof.
  unfold decodeRawTransaction. destruct (invalid_hex_string rawtx).
  - intros [= <-]. by repeat split.
  - intros He%fromBuffer_fails_structurally. split_and!; [|done|].
    + split; [|done]. intros ->. by destruct He as [|[|[|]]].
    + intros ->. by destruct He as [|[|[|]]].
Qed.

Lemma decodeRawTransaction_errors_witness :
  (Buffer_out_of_bounds = Invalid_hex_string ↔ invalid_hex_string "00" = true)
  ∧ (invalid_hex_string "00" = false → structural Buffer_out_of_bounds)
  ∧ Buffer_out_of_bounds ≠ Invalid_value.
Proof.
  refine (decodeRawTransaction_errors constant_digest "00" "" Buffer_out_of_bounds _).
  vm_compute. reflexivity.
Defined.

(** X7. With the cursor inside a buffer of bytes, [readVarInt] fails only
    because the buffer ends: every prefix byte is accepted. *)
Theorem readVarInt_fails_out_of_bounds (buffer : list Z) (offset : nat) (e : error) :
  is_bytes buffer →
  Z.of_nat (length buffer) < 2 ^ 52 →
  (offset <= length buffer)%nat →
  readVarInt buffer (Z.of_nat offset) = inl e →
  e = Buffer_out_of_bounds.
Proof.
  intros Hbytes Hsmall Hcursor. unfold readVarInt, mbind, reader_bind.
  destruct (readInt8 buffer (Z.of_nat offset)) as [e'|[first o']] eqn:E.
  { intros [= <-]. revert E. unfold readInt8. by destruct (_ <? _); intros [= <-]. }
  revert E. unfold readInt8, buffer_length.
  destruct (Z.ltb_spec (Z.of_nat (length buffer)) (JS.add (Z.of_nat offset) 1))
    as [|Hin]; [done|].
  intros [= <- <-]. unfold JS.get.
  destruct (Z.leb_spec 0 (Z.of_nat offset)); [|lia]. rewrite Nat2Z.id.
  destruct (buffer !! offset) as [b|] eqn:Eb.
  - assert (0 <= b < 256) as Hb.
    { exact (Forall_lookup_1 _ _ _ _ Hbytes Eb). }
    destruct (Z.ltb_spec b 253); [done|].
    destruct (Z.eqb_spec b 253).
    { unfold readInt16. by destruct (_ <? _); intros [= <-]. }
    destruct (Z.eqb_spec b 254).
    { unfold readInt32. by destruct (_ <? _); intros [= <-]. }
    destruct (Z.eqb_spec b 255); [|lia].
    unfold readInt64. by destruct (_ <? _); intros [= <-].
  - apply lookup_ge_None in Eb.
    unfold JS.add in Hin. rewrite round53_small in Hin by lia. lia.
Qed.

Lemma readVarInt_fails_out_of_bounds_witness :
  is_bytes [0xfd; 1]
  ∧ readVarInt [0xfd; 1] 0 = inl Buffer_out_of_bounds
  ∧ Buffer_out_of_bounds = Buffer_out_of_bounds.
Proof.
  assert (Hbytes : is_bytes [0xfd; 1]) by (repeat constructor; lia).
  assert (Hfails : readVarInt [0xfd; 1] (Z.of_nat 0) = inl Buffer_out_of_bounds)
    by (vm_compute; reflexivity).
  split; [exact Hbytes|]. split; [exact Hfails|].
  refine (readVarInt_fails_out_of_bounds [0xfd; 1] 0 Buffer_out_of_bounds Hbytes _ _ Hfails).
  - vm_compute. reflexivity.
  - cbn. lia.
Defined.

(** ** What the decoder returns *)

Section Decoded.
Variable sha256 : list Z → list Z.
Variable network : string.

Lemma fromBuffer_decodes (t : RawTransaction) :
  well_formed t →
  ∃ tx, fromBuffer sha256 (raw_bytes t) network = inr tx
        ∧ version tx = raw_version t
        ∧ locktime tx = raw_locktime t
        ∧ vin tx = decoded_inputs t
        ∧ vout tx = map (decoded_output sha256 network) (raw_outputs t)
        ∧ size tx = Z.of_nat (length (raw_bytes t))
        ∧ weight tx
          = (let size := Z.of_nat (length (raw_bytes t)) in
             JS.add (JS.mul (JS.sub size (witness_size t)) 3) size)
        ∧ sigops tx = None ∧ flags tx = None.
Proof.
  intros Hwf. pose proof (legacy_marker t (le_bytes 4 (raw_locktime t) ++ []) Hwf) as Hmark.
  destruct Hwf as (Hver & Hne & Hnin & Hin & Hnout & Hout & Hwit & Hlock & Hsmall).
  remember (raw_bytes t) as buffer eqn:Hbuf. pose proof Hbuf as Hbuf'.
  unfold raw_bytes in Hbuf. cbn [le_bytes] in Hbuf.
  unfold fromBuffer. cbv zeta.
  assert (Hlen4 : (4 <= length buffer)%nat).
  { rewrite Hbuf. cbn [app length]. lia. }
  (* the version *)
  assert (readInt32 buffer false 0 = inr (raw_version t, 4)) as Hversion.
  { eapply (Reads_readInt32_signed buffer Hsmall (raw_version t) Hver 0%nat); [lia|].
    rewrite Hbuf. cbn [le_bytes app drop]. reflexivity. }
  rewrite (bind_step _ _ _ _ _ Hversion).
  destruct (raw_witnesses t) as [stacks|] eqn:Hstacks.
  - (* marker and flag *)
    destruct (Hwit stacks eq_refl) as [Hslen Hswf].
    assert (drop 4 buffer = [0] ++ [1] ++ (inputs_and_outputs_bytes t
              ++ concat (map stack_bytes stacks) ++ le_bytes 4 (raw_locktime t) ++ []))%list
      as Hd4.
    { rewrite Hbuf. cbn [app drop]. by rewrite <- !app_assoc, app_nil_r. }
    pose proof (Reads_readInt8 buffer Hsmall 0 4%nat _ Hlen4 Hd4) as Hmarker.
    pose proof (drop_bound buffer 4 _ _ Hlen4 Hd4) as Hlen5.
    assert (drop 5 buffer = [1] ++ (inputs_and_outputs_bytes t
              ++ concat (map stack_bytes stacks) ++ le_bytes 4 (raw_locktime t) ++ []))%list
      as Hd5.
    { change 5%nat with (4 + 1)%nat. by rewrite <- drop_drop, Hd4. }
    pose proof (Reads_readInt8 buffer Hsmall 1 5%nat _ Hlen5 Hd5) as Hflag.
    pose proof (drop_bound buffer 5 _ _ Hlen5 Hd5) as Hlen6.
    assert (drop 6 buffer = inputs_and_outputs_bytes t
              ++ concat (map stack_bytes stacks) ++ le_bytes 4 (raw_locktime t) ++ [])%list
      as Hd6.
    { change 6%nat with (5 + 1)%nat. by rewrite <- drop_drop, Hd5. }
    change (Z.of_nat 4) with 4 in Hmarker. change (Z.of_nat (4 + length [0])) with 5 in Hmarker.
    change (Z.of_nat 5) with 5 in Hflag. change (Z.of_nat (5 + length [1])) with 6 in Hflag.
    rewrite (bind_step _ _ _ _ _ Hmarker). rewrite (bind_step _ _ _ _ _ Hflag).
    rewrite !bool_decide_eq_true_2 by done. cbn [andb]. cbv beta iota.
    unfold inputs_and_outputs_bytes in Hd6. rewrite <- !app_assoc in Hd6.
    match type of Hd6 with
    | _ = ?enc =>
        match goal with
        | |- context [match ?k 6 with _ => _ end] =>
            eassert (Completes buffer k enc _) as HK
        end
    end.
    { eapply (Completes_bind buffer _ _ [] _ tt); [apply Reads_ret|].
      eapply (Completes_bind buffer _ _ (compact_size _) _ _);
        [by apply Reads_readVarInt; lia|].
      eapply (Completes_bind buffer _ _ (concat (map input_bytes _)) _ _).
      { apply (Reads_for_loop buffer _ input_bytes decoded_input).
        intros acc i Hi. apply Reads_read_vin; [done|].
        by apply (proj1 (Forall_forall _ _) Hin). }
      eapply (Completes_bind buffer _ _ (compact_size _) _ _);
        [by apply Reads_readVarInt; lia|].
      eapply (Completes_bind buffer _ _ (concat (map output_bytes _)) _ _).
      { apply (Reads_for_loop buffer _ output_bytes (decoded_output sha256 network)).
        intros acc o Ho. apply Reads_read_vout; [done|].
        by apply (proj1 (Forall_forall _ _) Hout). }
      eapply (Completes_bind buffer _ _ (concat (map stack_bytes stacks)) _ _).
      { apply (Reads_measured buffer Hsmall _ snd).
        cbn [app]. rewrite <- (length_map decoded_input (raw_inputs t)).
        apply Reads_witnesses; [done|by rewrite length_map|done]. }
      cbv beta iota.
      eapply (Completes_bind buffer _ _ (le_bytes 4 _) [] _);
        [by apply Reads_readInt32_unsigned|].
      apply Completes_end. }
    destruct (HK 6%nat Hlen6 Hd6) as [o' HK']. change (Z.of_nat 6) with 6 in HK'.
    rewrite HK'. eexists. split; [done|].
    unfold decoded_inputs, witness_size, buffer_length. rewrite Hstacks.
    cbn [version locktime vin vout size weight sigops flags snd app]. by rewrite Hbuf'.
  - (* no marker: the two bytes are read and the cursor is moved back *)
    destruct Hmark as (b0 & b1 & rest & Hb0 & Hmark).
    assert (drop 4 buffer = inputs_and_outputs_bytes t ++ le_bytes 4 (raw_locktime t) ++ [])%list
      as Hd4.
    { rewrite Hbuf. cbn [app drop]. by rewrite app_nil_r. }
    assert (drop 4 buffer = [b0] ++ [b1] ++ rest)%list as Hd4' by (by rewrite Hd4, Hmark).
    pose proof (Reads_readInt8 buffer Hsmall b0 4%nat _ Hlen4 Hd4') as Hmarker.
    pose proof (drop_bound buffer 4 _ _ Hlen4 Hd4') as Hlen5.
    assert (drop 5 buffer = [b1] ++ rest)%list as Hd5.
    { change 5%nat with (4 + 1)%nat. by rewrite <- drop_drop, Hd4'. }
    pose proof (Reads_readInt8 buffer Hsmall b1 5%nat _ Hlen5 Hd5) as Hflag.
    change (Z.of_nat 4) with 4 in Hmarker. change (Z.of_nat (4 + length [b0])) with 5 in Hmarker.
    change (Z.of_nat 5) with 5 in Hflag. change (Z.of_nat (5 + length [b1])) with 6 in Hflag.
    rewrite (bind_step _ _ _ _ _ Hmarker). rewrite (bind_step _ _ _ _ _ Hflag).
    rewrite !(bool_decide_eq_false_2 (Some b0 = Some 0)) by congruence.
    cbn [andb]. cbv beta iota.
    rewrite (bind_step _ _ 6 4 tt) by reflexivity.
    unfold inputs_and_outputs_bytes in Hd4. rewrite <- !app_assoc in Hd4.
    match type of Hd4 with
    | _ = ?enc =>
        match goal with
        | |- context [match ?k 4 with _ => _ end] =>
            eassert (Completes buffer k enc _) as HK
        end
    end.
    { eapply (Completes_bind buffer _ _ (compact_size _) _ _);
        [by apply Reads_readVarInt; lia|].
      eapply (Completes_bind buffer _ _ (concat (map input_bytes _)) _ _).
      { apply (Reads_for_loop buffer _ input_bytes decoded_input).
        intros acc i Hi. apply Reads_read_vin; [done|].
        by apply (proj1 (Forall_forall _ _) Hin). }
      eapply (Completes_bind buffer _ _ (compact_size _) _ _);
        [by apply Reads_readVarInt; lia|].
      eapply (Completes_bind buffer _ _ (concat (map output_bytes _)) _ _).
      { apply (Reads_for_loop buffer _ output_bytes (decoded_output sha256 network)).
        intros acc o Ho. apply Reads_read_vout; [done|].
        by apply (proj1 (Forall_forall _ _) Hout). }
      eapply (Completes_bind buffer _ _ [] _ _); [apply Reads_ret|].
      cbv beta iota.
      eapply (Completes_bind buffer _ _ (le_bytes 4 _) [] _);
        [by apply Reads_readInt32_unsigned|].
      apply Completes_end. }
    destruct (HK 4%nat Hlen4 Hd4) as [o' HK']. change (Z.of_nat 4) with 4 in HK'.
    rewrite HK'. eexists. split; [done|].
    unfold decoded_inputs, witness_size, buffer_length. rewrite Hstacks.
    cbn [version locktime vin vout size weight sigops flags snd app]. by rewrite Hbuf'.
Qed.

Lemma raw_bytes_length (t : RawTransaction) :
  Z.of_nat (length (raw_bytes t)) = Z.of_nat (length (non_witness_bytes t)) + witness_size t.
Proof.
  unfold raw_bytes, non_witness_bytes, witness_size.
  destruct (raw_witnesses t) as [stacks|]; [|lia].
  rewrite !length_app. cbn [length]. lia.
Qed.

(** X8. On the bytes of a well-formed transaction the decoder returns
    the version, the locktime, the inputs with their witness stacks,
    the outputs and the size that the bytes hold. *)
Theorem decoder_returns_the_fields (t : RawTransaction) :
  well_formed t →
  ∃ tx, fromBuffer sha256 (raw_bytes t) network = inr tx
        ∧ version tx = raw_version t
        ∧ locktime tx = raw_locktime t
        ∧ vin tx = decoded_inputs t
        ∧ vout tx = map (decoded_output sha256 network) (raw_outputs t)
        ∧ size tx = Z.of_nat (length (raw_bytes t))
        ∧ sigops tx = None ∧ flags tx = None.
Proof.
  intros Hwf.
  destruct (fromBuffer_decodes t Hwf) as (tx & ? & ? & ? & ? & ? & ? & _ & ? & ?).
  by exists tx.
Qed.

(** X9. The weight of a decoded transaction is three times the length
    of its non-witness serialization plus its size, which is four times
    the size when there is no witness data. *)
Theorem decoder_weight (t : RawTransaction) :
  well_formed t →
  Z.of_nat (length (raw_bytes t)) < 2 ^ 51 →
  ∃ tx, fromBuffer sha256 (raw_bytes t) network = inr tx
        ∧ weight tx
          = 3 * Z.of_nat (length (non_witness_bytes t)) + Z.of_nat (length (raw_bytes t))
        ∧ (raw_witnesses t = None → weight tx = 4 * size tx).
Proof.
  intros Hwf Hsmall.
  destruct (fromBuffer_decodes t Hwf) as (tx & Htx & _ & _ & _ & _ & Hsize & Hweight & _).
  exists tx. split; [done|].
  pose proof (raw_bytes_length t) as Hlen.
  assert (0 <= witness_size t).
  { unfold witness_size. destruct (raw_witnesses t); lia. }
  assert (weight tx
          = 3 * Z.of_nat (length (non_witness_bytes t)) + Z.of_nat (length (raw_bytes t)))
    as Hw.
  { rewrite Hweight. cbv zeta. unfold JS.add, JS.mul, JS.sub.
    rewrite (round53_small (_ - _)) by lia.
    rewrite (round53_small (_ * 3)) by lia.
    rewrite round53_small by lia. lia. }
  split; [done|]. intros Hnone. rewrite Hw, Hsize, Hlen.
  unfold witness_size. rewrite Hnone. lia.
Qed.

End Decoded.

Lemma decoder_returns_the_fields_witness :
  ∃ tx, fromBuffer constant_digest (raw_bytes mixed_segwit) "" = inr tx
        ∧ version tx = raw_version mixed_segwit
        ∧ locktime tx = raw_locktime mixed_segwit
        ∧ vin tx = decoded_inputs mixed_segwit
        ∧ vout tx = map (decoded_output constant_digest "") (raw_outputs mixed_segwit)
        ∧ size tx = Z.of_nat (length (raw_bytes mixed_segwit))
        ∧ sigops tx = None ∧ flags tx = None.
Proof.
  exact (decoder_returns_the_fields constant_digest "" mixed_segwit mixed_segwit_well_formed).
Defined.

Lemma decoder_weight_witness :
  ∃ tx, fromBuffer constant_digest (raw_bytes mixed_segwit) "" = inr tx
        ∧ weight tx
          = 3 * Z.of_nat (length (non_witness_bytes mixed_segwit))
            + Z.of_nat (length (raw_bytes mixed_segwit))
        ∧ (raw_witnesses mixed_segwit = None → weight tx = 4 * size tx).
Proof.
  refine (decoder_weight constant_digest "" mixed_segwit mixed_segwit_well_formed _).
  vm_compute. reflexivity.
Defined.

(** ** Address derivation *)

Lemma string_length_app (s1 s2 : string) :
  String.length (s1 +:+ s2) = (String.length s1 + String.length s2)%nat.
Proof.
  induction s1 as [|c s1 IH]; [done|].
  change (String c s1 +:+ s2) with (String c (s1 +:+ s2)). cbn [String.length]. by rewrite IH.
Qed.

Lemma string_app_empty_r (s : string) : s +:+ "" = s.
Proof.
  induction s as [|c s IH]; [done|].
  change (String c s +:+ "") with (String c (s +:+ "")). by rewrite IH.
Qed.

Lemma substring_app_l (s1 s2 : string) :
  String.substring 0 (String.length s1) (s1 +:+ s2) = s1.
Proof.
  induction s1 as [|c s1 IH]; [by destruct s2|].
  change (String c s1 +:+ s2) with (String c (s1 +:+ s2)).
  cbn [String.length String.substring]. by rewrite IH.
Qed.

Lemma substring_app_r (s1 s2 : string) (n m : nat) :
  String.substring (String.length s1 + n) m (s1 +:+ s2) = String.substring n m s2.
Proof.
  induction s1 as [|c s1 IH]; [done|].
  change (String c s1 +:+ s2) with (String c (s1 +:+ s2)).
  cbn [String.length String.substring Nat.add]. by rewrite IH.
Qed.

Lemma prefix_app (s1 s2 : string) : String.prefix s1 (s1 +:+ s2) = true.
Proof. apply prefix_correct, substring_app_l. Qed.

Lemma substring_middle (pre h suf : string) :
  String.substring (String.length pre) (String.length h) (pre +:+ h +:+ suf) = h.
Proof.
  rewrite <- (Nat.add_0_r (String.length pre)).
  by rewrite substring_app_r, substring_app_l.
Qed.

Lemma substring_end (pre h suf : string) :
  String.substring (String.length pre + String.length h) (String.length suf)
    (pre +:+ h +:+ suf) = suf.
Proof.
  rewrite substring_app_r. rewrite <- (Nat.add_0_r (String.length h)).
  by rewrite substring_app_r, substring_all.
Qed.

Lemma test_hex_template_app (pre suf h : string) (n : nat) :
  String.length h = n → all_chars is_lower_hex h = true →
  test_hex_template pre n suf (pre +:+ h +:+ suf) = true.
Proof.
  intros <- Hhex. unfold test_hex_template.
  rewrite !string_length_app, Nat.add_assoc, Nat.eqb_refl, prefix_app.
  rewrite substring_middle, substring_end, Hhex. by rewrite String.eqb_refl.
Qed.

Lemma test_hex_template_length (pre suf s : string) (n : nat) :
  String.length s ≠ (String.length pre + n + String.length suf)%nat →
  test_hex_template pre n suf s = false.
Proof.
  intros Hlen. unfold test_hex_template.
  by destruct (Nat.eqb_spec (String.length s) (String.length pre + n + String.length suf)).
Qed.

Lemma substring_of_template (pre suf h : string) :
  JS.substring (pre +:+ h +:+ suf) (JS.len pre) (JS.len pre + JS.len h) = h.
Proof.
  unfold JS.substring, JS.len. rewrite !string_length_app. cbv zeta.
  replace (Z.to_nat (Z.min _ _)) with (String.length pre) by lia.
  replace (Z.to_nat _) with (String.length h) by lia.
  apply substring_middle.
Qed.

(** X10. The hex templates of the standard scripts are recognised, whatever
    the hash is. *)
Theorem standard_scripts_are_recognised sha256 (network h : string) :
  all_chars is_lower_hex h = true →
  (String.length h = 40%nat →
   scriptPubKeyToAddress sha256 ("76a914" +:+ h +:+ "88ac") network
   = inr (Some (p2pkh sha256 h network), "p2pkh")
   ∧ scriptPubKeyToAddress sha256 ("a914" +:+ h +:+ "87") network
     = inr (Some (p2sh sha256 h network), "p2sh")
   ∧ ∃ a, p2wpkh h network = inr a
          ∧ scriptPubKeyToAddress sha256 ("0014" +:+ h) network = inr (Some a, "v0_p2wpkh"))
  ∧ (String.length h = 64%nat →
     (∃ a, p2wsh h network = inr a
           ∧ scriptPubKeyToAddress sha256 ("0020" +:+ h) network = inr (Some a, "v0_p2wsh"))
     ∧ ∃ a, p2tr h network = inr a
            ∧ scriptPubKeyToAddress sha256 ("5120" +:+ h) network = inr (Some a, "v1_p2tr")).
Proof.
  intros Hhex.
  assert (∀ v c, ∃ a, segwit_address v c h network = inr a) as Hsegwit.
  { intros v c. unfold segwit_address, toWords.
    destruct (convertBits_bytes (hexStringToUint8Array h)
                (hexStringToUint8Array_is_bytes h)) as [w ->]. by eexists. }
  split; intros Hlen.
  - split_and!.
    + unfold scriptPubKeyToAddress.
      rewrite (test_hex_template_app "76a914" "88ac" h 40) by done.
      change 6 with (JS.len "76a914"). change 40 with (Z.of_nat 40).
      rewrite <- Hlen. by rewrite (substring_of_template "76a914" "88ac").
    + unfold scriptPubKeyToAddress.
      rewrite !test_hex_template_length by (rewrite !string_length_app, Hlen; done).
      rewrite (test_hex_template_app "a914" "87" h 40) by done. cbn [orb].
      change 4 with (JS.len "a914"). change 40 with (Z.of_nat 40).
      rewrite <- Hlen. by rewrite (substring_of_template "a914" "87").
    + destruct (Hsegwit 0 1) as [a Ha]. exists a. split; [done|].
      unfold scriptPubKeyToAddress.
      rewrite !test_hex_template_length by (rewrite !string_length_app, Hlen; done).
      cbn [orb].
      pose proof (test_hex_template_app "0014" "" h 40 Hlen Hhex) as Ht.
      pose proof (substring_of_template "0014" "" h) as Hs.
      rewrite string_app_empty_r in Ht, Hs. rewrite Ht.
      change 4 with (JS.len "0014"). change 40 with (Z.of_nat 40).
      rewrite <- Hlen. change (Z.of_nat (String.length h)) with (JS.len h). rewrite Hs. unfold p2wpkh in *. by rewrite Ha.
  - split.
    + destruct (Hsegwit 0 1) as [a Ha]. exists a. split; [done|].
      unfold scriptPubKeyToAddress.
      rewrite !test_hex_template_length by (rewrite !string_length_app, Hlen; done).
      cbn [orb].
      pose proof (test_hex_template_app "0020" "" h 64 Hlen Hhex) as Ht.
      pose proof (substring_of_template "0020" "" h) as Hs.
      rewrite string_app_empty_r in Ht, Hs. rewrite Ht.
      change 4 with (JS.len "0020"). change 64 with (Z.of_nat 64).
      rewrite <- Hlen. change (Z.of_nat (String.length h)) with (JS.len h). rewrite Hs. unfold p2wsh in *. by rewrite Ha.
    + destruct (Hsegwit 1 0x2bc830a3) as [a Ha]. exists a. split; [done|].
      unfold scriptPubKeyToAddress.
      rewrite !test_hex_template_length by (rewrite !string_length_app, Hlen; done).
      cbn [orb].
      assert (test_hex_template "0020" 64 "" ("5120" +:+ h) = false) as ->.
      { unfold test_hex_template.
        change ("5120" +:+ h) with (String "5" (String "1" (String "2" (String "0" h)))).
        cbn [String.prefix]. by rewrite andb_false_r. }
      pose proof (test_hex_template_app "5120" "" h 64 Hlen Hhex) as Ht.
      pose proof (substring_of_template "5120" "" h) as Hs.
      rewrite string_app_empty_r in Ht, Hs. rewrite Ht.
      change 4 with (JS.len "5120"). change 64 with (Z.of_nat 64).
      rewrite <- Hlen. change (Z.of_nat (String.length h)) with (JS.len h). rewrite Hs. unfold p2tr in *. by rewrite Ha.
Qed.

Lemma standard_scripts_are_recognised_witness :
  scriptPubKeyToAddress constant_digest
    ("76a914" +:+ "751e76e8199196d454941c45d1b3a323f1433bd6" +:+ "88ac") ""
  = inr (Some (p2pkh constant_digest "751e76e8199196d454941c45d1b3a323f1433bd6" ""), "p2pkh").
Proof.
  exact (proj1 (proj1 (standard_scripts_are_recognised constant_digest ""
                         "751e76e8199196d454941c45d1b3a323f1433bd6" eq_refl) eq_refl)).
Defined.

(** X11. [scriptPubKeyToAddress] never throws, its type is one of ten names, and
    it gives an address exactly for the types that have one. *)
Theorem scriptPubKeyToAddress_types sha256 (scriptPubKey network : string) :
  ∃ address type,
    scriptPubKeyToAddress sha256 scriptPubKey network = inr (address, type)
    ∧ type ∈ ["p2pkh"; "p2pk"; "p2sh"; "v0_p2wpkh"; "v0_p2wsh"; "v1_p2tr";
              "multisig"; "anchor"; "op_return"; "unknown"]
    ∧ (address = None ↔ type ∈ ["p2pk"; "multisig"; "op_return"; "unknown"]).
Proof.
  unfold scriptPubKeyToAddress, p2wpkh, p2wsh, p2tr, segwit_address, toWords.
  repeat match goal with
         | |- context [convertBits (hexStringToUint8Array ?p) 8 5] =>
             destruct (convertBits_bytes (hexStringToUint8Array p)
                         (hexStringToUint8Array_is_bytes p)) as [? ->]
         end.
  repeat match goal with
         | |- context [if ?b then inr _ else _] => destruct b
         end;
    eexists _, _; (split; [reflexivity|]);
    (split; [rewrite !elem_of_cons; tauto|]);
    rewrite !elem_of_cons, elem_of_nil; split; (discriminate || intuition discriminate).
Qed.

(** ** Five-bit words and segwit addresses *)

Lemma band_31 (a : Z) : 0 <= JS.band a 31 < 32.
Proof.
  unfold JS.band. rewrite (ToInt32_small 31) by lia.
  change 31 with (Z.ones 5). rewrite Z.land_ones by lia.
  rewrite ToInt32_small; [apply Z.mod_pos_bound; lia|].
  pose proof (Z.mod_pos_bound (JS.ToInt32 a) (2 ^ 5)). lia.
Qed.

Lemma flush_bits_spec (fuel : nat) (acc bits : Z) (ret : list Z) :
  0 <= bits → (Z.to_nat (bits / 5) <= fuel)%nat →
  ∃ ws, flush_bits fuel acc bits 5 31 ret = (bits mod 5, (ret ++ ws)%list)
        ∧ Z.of_nat (length ws) = bits / 5 ∧ is_words ws.
Proof.
  revert bits ret. induction fuel as [|fuel IH]; intros bits ret Hbits Hfuel.
  - exists []. cbn [flush_bits]. rewrite app_nil_r.
    assert (bits / 5 = 0) as Hq by (pose proof (Z.div_pos bits 5); lia).
    split_and!; [|by rewrite Hq|constructor].
    f_equal. symmetry. apply Z.mod_small. euclid.
  - cbn [flush_bits]. destruct (Z.leb_spec 5 bits).
    + destruct (IH (bits - 5) (ret ++ [JS.band (JS.sar acc (bits - 5)) 31])%list)
        as (ws & -> & Hlen & Hws); [lia|euclid|].
      exists (JS.band (JS.sar acc (bits - 5)) 31 :: ws). split_and!.
      * rewrite <- app_assoc. f_equal. euclid.
      * cbn [length]. rewrite Nat2Z.inj_succ, Hlen. euclid.
      * constructor; [apply band_31|done].
    + exists []. rewrite app_nil_r. split_and!; [|cbn; euclid|constructor].
      f_equal. symmetry. apply Z.mod_small. lia.
Qed.

Lemma toWords_spec (bytes : list Z) :
  is_bytes bytes →
  ∃ words, toWords bytes = inr words
           ∧ Z.of_nat (length words) = (8 * Z.of_nat (length bytes) + 4) / 5
           ∧ is_words words.
Proof.
  intros Hbytes. unfold toWords, convertBits.
  change (JS.shl 1 5 - 1) with 31.
  match goal with |- context [fold_left ?f _ _] => set (step := f) end.
  assert (∀ acc bits ret,
            0 <= bits < 5 → is_words ret →
            ∃ acc' bits' ret',
              fold_left step bytes (inr (acc, bits, ret)) = inr (acc', bits', ret')
              ∧ 0 <= bits' < 5 ∧ is_words ret'
              ∧ 5 * Z.of_nat (length ret') + bits'
                = 5 * Z.of_nat (length ret) + bits + 8 * Z.of_nat (length bytes))
    as Hfold.
  { induction Hbytes as [|b bytes Hb _ IH]; intros acc bits ret Hbits Hret.
    { exists acc, bits, ret. cbn [fold_left length]. split_and!; try done; lia. }
    cbn [fold_left]. unfold step at 2.
    destruct (Z.ltb_spec b 0); [lia|]. rewrite sar_byte by done. cbn [orb negb Z.eqb].
    destruct (flush_bits_spec (Z.to_nat ((bits + 8) / 5)) (JS.bor (JS.shl acc 8) b)
                (bits + 8) ret) as (ws & -> & Hlen & Hws); [lia|lia|].
    destruct (IH (JS.bor (JS.shl acc 8) b) ((bits + 8) mod 5) (ret ++ ws)%list)
      as (acc' & bits' & ret' & -> & Hbits' & Hret' & Hcount).
    { apply Z.mod_pos_bound. lia. }
    { by apply Forall_app. }
    exists acc', bits', ret'. split_and!; try done; try lia.
    rewrite Hcount, length_app. cbn [length]. rewrite !Nat2Z.inj_add, Nat2Z.inj_succ.
    euclid. }
  destruct (Hfold 0 0 []) as (acc & bits & ret & -> & Hbits & Hret & Hcount);
    [lia|constructor|].
  cbn [length] in Hcount. eexists. split; [reflexivity|].
  destruct (Z.ltb_spec 0 bits).
  - split.
    + rewrite length_app. cbn [length]. rewrite Nat2Z.inj_add. euclid.
    + apply Forall_app. split; [done|]. constructor; [apply band_31|constructor].
  - split; [euclid|done].
Qed.

(** X12. [toWords] never fails on bytes, returns ceil(8 n / 5) words for [n]
    bytes, and every word is below 32. *)
Theorem toWords_shape (bytes : list Z) :
  is_bytes bytes →
  ∃ words, toWords bytes = inr words
           ∧ Z.of_nat (length words) = (8 * Z.of_nat (length bytes) + 4) / 5
           ∧ is_words words.
Proof. apply toWords_spec. Qed.

Lemma toWords_shape_witness :
  ∃ words, toWords [255; 0; 17] = inr words
           ∧ Z.of_nat (length words) = (8 * Z.of_nat (length [255; 0; 17]) + 4) / 5
           ∧ is_words words.
Proof.
  refine (toWords_shape [255; 0; 17] _). repeat constructor; lia.
Defined.

Lemma string_app_assoc (s1 s2 s3 : string) : (s1 +:+ s2) +:+ s3 = s1 +:+ (s2 +:+ s3).
Proof.
  induction s1 as [|c s1 IH]; [done|].
  change (String c s1 +:+ s2) with (String c (s1 +:+ s2)).
  change (String c (s1 +:+ s2) +:+ s3) with (String c ((s1 +:+ s2) +:+ s3)).
  by rewrite IH.
Qed.

Lemma charAt_length (s : string) (i : Z) :
  0 <= i < JS.len s → String.length (charAt s i) = 1%nat.
Proof.
  unfold charAt, JS.len. intros Hi. destruct (Z.leb_spec 0 i); [|lia].
  assert (Z.to_nat i < String.length s)%nat as Hn by lia.
  generalize dependent (Z.to_nat i). clear. intros n.
  revert n. induction s as [|c s IH]; intros n Hn; cbn [String.length] in Hn; [lia|].
  destruct n as [|n]; [done|]. cbn [String.get]. apply IH. lia.
Qed.

(** The loop of [bech32Encode] appends one character per word. *)
Lemma bech32_chars (words : list Z) (result : string) :
  is_words words →
  ∃ chars,
    fold_left (fun result w => result +:+ charAt BECH32_ALPHABET w) words result
    = result +:+ chars
    ∧ String.length chars = length words.
Proof.
  intros Hwords. revert result. induction Hwords as [|w words Hw _ IH]; intros result.
  - exists "". by rewrite string_app_empty_r.
  - cbn [fold_left]. destruct (IH (result +:+ charAt BECH32_ALPHABET w)) as (chars & -> & Hlen).
    exists (charAt BECH32_ALPHABET w +:+ chars). split; [apply string_app_assoc|].
    rewrite string_length_app, charAt_length, Hlen; [done|]. by vm_compute.
Qed.

Lemma createChecksum_words (prefix : string) (words : list Z) (constant : Z) :
  is_words (createChecksum prefix words constant) ∧
  length (createChecksum prefix words constant) = 6%nat.
Proof.
  unfold createChecksum. cbv zeta. split; [|by rewrite length_map].
  apply Forall_map, Forall_forall. intros i _. apply band_31.
Qed.

Lemma segwit_address_shape (version constant : Z) (program network : string) :
  0 <= version < 32 →
  ∃ a chars,
    segwit_address version constant program network = inr a
    ∧ a = (if is_testnet network then "tb" else "bc") +:+ "1"
          +:+ charAt BECH32_ALPHABET version +:+ chars
    ∧ Z.of_nat (String.length chars)
      = (8 * Z.of_nat (String.length program / 2) + 4) / 5 + 6.
Proof.
  intros Hversion. unfold segwit_address.
  destruct (toWords_spec (hexStringToUint8Array program)
              (hexStringToUint8Array_is_bytes program)) as (words & -> & Hlen & Hwords).
  unfold hexStringToUint8Array in Hlen. rewrite length_map, length_seq in Hlen.
  destruct (createChecksum_words (if is_testnet network then "tb" else "bc")
              (version :: words) constant) as [Hsum Hsix].
  unfold bech32Encode. cbv zeta. cbn [app fold_left].
  destruct (bech32_chars (words ++ createChecksum (if is_testnet network then "tb" else "bc")
                                     (version :: words) constant)
              (((if is_testnet network then "tb" else "bc") +:+ "1")
               +:+ charAt BECH32_ALPHABET version))
    as (chars & -> & Hchars).
  { by apply Forall_app. }
  exists ((((if is_testnet network then "tb" else "bc") +:+ "1")
           +:+ charAt BECH32_ALPHABET version) +:+ chars), chars.
  split_and!; [done|by rewrite !string_app_assoc|].
  rewrite Hchars, length_app, Hsix, Nat2Z.inj_add, Hlen. lia.
Qed.

(** X13. Segwit addresses: a P2WPKH address has 42 characters and begins with
    [bc1q] (or [tb1q] on a test network); P2WSH and P2TR addresses have 62
    characters and begin with [bc1q] and [bc1p]. *)
Theorem segwit_addresses_have_their_shape (network h : string) :
  let hrp := if is_testnet network then "tb" else "bc" in
  (String.length h = 40%nat →
   ∃ a, p2wpkh h network = inr a
        ∧ String.length a = 42%nat ∧ String.prefix (hrp +:+ "1q") a = true)
  ∧ (String.length h = 64%nat →
     (∃ a, p2wsh h network = inr a
           ∧ String.length a = 62%nat ∧ String.prefix (hrp +:+ "1q") a = true)
     ∧ ∃ a, p2tr h network = inr a
            ∧ String.length a = 62%nat ∧ String.prefix (hrp +:+ "1p") a = true).
Proof.
  intros hrp.
  assert (∀ version constant n c,
            0 <= version < 32 → charAt BECH32_ALPHABET version = c →
            String.length c = 1%nat →
            String.length h = (2 * n)%nat →
            ∃ a, segwit_address version constant h network = inr a
                 ∧ Z.of_nat (String.length a) = 4 + (8 * Z.of_nat n + 4) / 5 + 6
                 ∧ String.prefix (hrp +:+ "1" +:+ c) a = true) as Hshape.
  { intros version constant n c Hversion Hc Hc1 Hlen.
    destruct (segwit_address_shape version constant h network Hversion)
      as (a & chars & Ha & -> & Hchars).
    exists (hrp +:+ "1" +:+ charAt BECH32_ALPHABET version +:+ chars).
    split; [done|]. rewrite Hc. split.
    - rewrite !string_length_app, Hc1, !Nat2Z.inj_add, Hchars, Hlen.
      replace (2 * n / 2)%nat with n by (rewrite Nat.mul_comm, Nat.div_mul; lia).
      unfold hrp. destruct (is_testnet network); cbn [String.length]; lia.
    - rewrite <- !string_app_assoc. apply prefix_app. }
  split; intros Hlen.
  - destruct (Hshape 0 1 20%nat "q") as (a & Ha & Hla & Hpre); try done.
    exists a. split_and!; [done| |done]. change ((8 * Z.of_nat 20 + 4) / 5) with 32 in Hla. lia.
  - split.
    + destruct (Hshape 0 1 32%nat "q") as (a & Ha & Hla & Hpre); try done.
      exists a. split_and!; [done| |done].
      change ((8 * Z.of_nat 32 + 4) / 5) with 52 in Hla. lia.
    + destruct (Hshape 1 0x2bc830a3 32%nat "p") as (a & Ha & Hla & Hpre); try done.
      exists a. split_and!; [done| |done].
      change ((8 * Z.of_nat 32 + 4) / 5) with 52 in Hla. lia.
Qed.

Lemma segwit_addresses_have_their_shape_witness :
  ∃ a, p2wpkh "751e76e8199196d454941c45d1b3a323f1433bd6" "" = inr a
       ∧ String.length a = 42%nat ∧ String.prefix "bc1q" a = true.
Proof.
  exact (proj1 (segwit_addresses_have_their_shape
                  "" "751e76e8199196d454941c45d1b3a323f1433bd6") eq_refl).
Defined.

(** ** Script disassembly *)

Lemma get_Some_lt {A} (a : list A) (i : Z) (x : A) :
  JS.get a i = Some x → 0 <= i < Z.of_nat (length a).
Proof.
  unfold JS.get. destruct (Z.leb_spec 0 i); [|done].
  intros Hx%lookup_lt_Some. lia.
Qed.

Lemma disassemble_fuel (buf : list Z) (fuel1 fuel2 : nat) (i : Z) (b : list string) :
  0 <= i →
  (Z.of_nat (length buf) - i <= Z.of_nat fuel1) →
  (Z.of_nat (length buf) - i <= Z.of_nat fuel2) →
  disassemble fuel1 buf i b = disassemble fuel2 buf i b.
Proof.
  revert fuel2 i b. induction fuel1 as [|fuel1 IH]; intros fuel2 i b Hi H1 H2.
  - destruct fuel2 as [|fuel2]; [done|]. cbn [disassemble].
    destruct (JS.get buf i) as [op|] eqn:E; [|done]. apply get_Some_lt in E. lia.
  - destruct fuel2 as [|fuel2].
    + cbn [disassemble].
      destruct (JS.get buf i) as [op|] eqn:E; [|done]. apply get_Some_lt in E. lia.
    + cbn [disassemble].
      destruct (JS.get buf i) as [op|] eqn:E; [|done]. apply get_Some_lt in E.
      destruct (_ && _).
      * destruct (op =? 76); [|destruct (op =? 77); [|destruct (op =? 78)]];
          cbv beta iota zeta;
          repeat match goal with
                 | |- context [match ?x with Some _ => _ | None => _ end] =>
                     destruct x; [|done]
                 end;
          (destruct (negb _); [done|]); apply IH; lia.
      * apply IH; lia.
Qed.

(** X14. The loop of [convertScriptSigAsm] ends within [buf.length] turns: more
    turns change nothing. *)
Theorem disassembly_terminates (hex : string) (fuel : nat) :
  (length (hexStringToUint8Array hex) <= fuel)%nat →
  JS.join " " (disassemble fuel (hexStringToUint8Array hex) 0 []) = convertScriptSigAsm hex.
Proof.
  intros Hfuel. unfold convertScriptSigAsm. cbv zeta. f_equal.
  apply disassemble_fuel; lia.
Qed.

Lemma disassembly_terminates_witness :
  JS.join " " (disassemble 100 (hexStringToUint8Array "76a988ac") 0 [])
  = convertScriptSigAsm "76a988ac".
Proof.
  refine (disassembly_terminates "76a988ac" 100 _). vm_compute. lia.
Defined.

Lemma hexStringToUint8Array_four (c1 c2 c3 c4 : ascii) (s : string) :
  hexStringToUint8Array (String c1 (String c2 (String c3 (String c4 s))))
  = JS.ToUint8 (default 0 (JS.parseInt16 (String c1 (String c2 EmptyString))))
    :: JS.ToUint8 (default 0 (JS.parseInt16 (String c3 (String c4 EmptyString))))
    :: hexStringToUint8Array s.
Proof. by rewrite !hexStringToUint8Array_cons. Qed.

Lemma hexStringToUint8Array_app (s1 s2 : string) :
  Nat.even (String.length s1) = true →
  hexStringToUint8Array (s1 +:+ s2)
  = (hexStringToUint8Array s1 ++ hexStringToUint8Array s2)%list.
Proof.
  revert s1. fix IH 1. intros [|c1 [|c2 s1]] Heven; [done|done|].
  change (String c1 (String c2 s1) +:+ s2) with (String c1 (String c2 (s1 +:+ s2))).
  rewrite !hexStringToUint8Array_cons. cbn [app]. f_equal. by apply IH.
Qed.

Lemma hexStringToUint8Array_length (s : string) :
  length (hexStringToUint8Array s) = (String.length s / 2)%nat.
Proof. unfold hexStringToUint8Array. by rewrite length_map, length_seq. Qed.

(** X15. The assembly of the pay-to-public-key-hash and of the
    pay-to-witness-public-key-hash script, for every 20-byte hash. *)
Theorem convertScriptSigAsm_of_key_hash_scripts (h : string) :
  String.length h = 40%nat →
  all_chars is_lower_hex h = true →
  convertScriptSigAsm ("76a914" +:+ h +:+ "88ac")
  = "OP_DUP OP_HASH160 OP_PUSHBYTES_20 " +:+ h +:+ " OP_EQUALVERIFY OP_CHECKSIG"
  ∧ convertScriptSigAsm ("0014" +:+ h) = "OP_0 OP_PUSHBYTES_20 " +:+ h.
Proof.
  intros Hlen Hhex.
  assert (Heven : Nat.even (String.length h) = true) by (by rewrite Hlen).
  pose proof (hex_string_round_trip h Heven Hhex) as Hround.
  pose proof (hexStringToUint8Array_length h) as Hbytes. rewrite Hlen in Hbytes.
  unfold convertScriptSigAsm. cbv zeta.
  rewrite (hexStringToUint8Array_app "76a914" _ eq_refl), (hexStringToUint8Array_app h "88ac" Heven),
    (hexStringToUint8Array_app "0014" h eq_refl).
  destruct (hexStringToUint8Array h)
    as [|b1 [|b2 [|b3 [|b4 [|b5 [|b6 [|b7 [|b8 [|b9 [|b10 [|b11 [|b12 [|b13 [|b14 [|b15
       [|b16 [|b17 [|b18 [|b19 [|b20 [|]]]]]]]]]]]]]]]]]]]]] eqn:E; try done.
  clear Hbytes. rewrite <- Hround.
  split; cbv -[uint8ArrayToHexString String.append]; reflexivity.
Qed.

Lemma convertScriptSigAsm_of_key_hash_scripts_witness :
  convertScriptSigAsm ("76a914" +:+ "751e76e8199196d454941c45d1b3a323f1433bd6" +:+ "88ac")
  = "OP_DUP OP_HASH160 OP_PUSHBYTES_20 " +:+ "751e76e8199196d454941c45d1b3a323f1433bd6"
    +:+ " OP_EQUALVERIFY OP_CHECKSIG".
Proof.
  exact (proj1 (convertScriptSigAsm_of_key_hash_scripts
                  "751e76e8199196d454941c45d1b3a323f1433bd6" eq_refl eq_refl)).
Defined.

(** ** Witness programs *)

Lemma substring_length (s : string) (n m : nat) :
  (n + m <= String.length s)%nat → String.length (String.substring n m s) = m.
Proof.
  revert n m. induction s as [|c s IH]; intros n m Hlen; cbn [String.length] in Hlen.
  - by destruct n, m; try lia.
  - destruct n as [|n]; cbn [String.substring].
    + destruct m as [|m]; [done|]. cbn [String.length]. f_equal. apply IH. lia.
    + apply IH. lia.
Qed.

(** X16. What [isWitnessProgram] accepts: a version from 0 to 16, and a program
    of 2 to 40 bytes whose length is the one announced by the second byte
    of the script. *)
Theorem isWitnessProgram_sound (scriptpubkey program : string) (version : Z) :
  isWitnessProgram scriptpubkey = Some (version, program) →
  0 <= version <= 16
  ∧ program = JS.slice scriptpubkey 4 None
  ∧ JS.len scriptpubkey = JS.len program + 4
  ∧ 4 <= JS.len program <= 80
  ∧ JS.parseInt16 (JS.slice scriptpubkey 2 (Some 4)) = Some (JS.len program / 2)
  ∧ Z.even (JS.len program) = true.
Proof.
  unfold isWitnessProgram.
  destruct (Z.ltb_spec (JS.len scriptpubkey) 8); [done|].
  destruct (Z.ltb_spec 84 (JS.len scriptpubkey)); [done|]. cbn [orb].
  set (v := JS.parseInt16 (JS.slice scriptpubkey 0 (Some 2))).
  destruct (match v with Some v0 => _ | None => false end) eqn:Ev; [done|].
  destruct (JS.parseInt16 (JS.slice scriptpubkey 2 (Some 4))) as [push|]; [|done].
  destruct (Qeq_bool _ _) eqn:Epush; [|done]. intros [= <- <-].
  apply Qeq_bool_eq in Epush. unfold half_length, Qeq, Qdiv in Epush. cbn in Epush.
  assert (Hslice : JS.len (JS.slice scriptpubkey 4 None) = JS.len scriptpubkey - 4).
  { unfold JS.slice, JS.rel_index. cbv zeta.
    destruct (Z.ltb_spec 4 0); [lia|]. rewrite Z.min_l by lia.
    unfold JS.len in *. rewrite substring_length; lia. }
  assert (Hversion : 0 <= match v with
                          | Some v0 => if v0 =? 0 then 0 else v0 - 80
                          | None => 0
                          end <= 16).
  { destruct v as [v0|]; [|lia]. revert Ev.
    destruct (Z.eqb_spec v0 0); [lia|].
    destruct (Z.ltb_spec v0 81); [done|]. destruct (Z.ltb_spec 96 v0); [done|]. lia. }
  assert (Z.even (JS.len (JS.slice scriptpubkey 4 None)) = true) as Heven.
  { rewrite Hslice, Z.even_spec. exists push. lia. }
  assert (JS.len (JS.slice scriptpubkey 4 None) / 2 = push) as Hpush.
  { rewrite Hslice. euclid. }
  rewrite Hpush. repeat split; try done; lia.
Qed.

Lemma isWitnessProgram_sound_witness :
  0 <= 1 <= 16
  ∧ "aabb" = JS.slice "5102aabb" 4 None
  ∧ JS.len "5102aabb" = JS.len "aabb" + 4
  ∧ 4 <= JS.len "aabb" <= 80
  ∧ JS.parseInt16 (JS.slice "5102aabb" 2 (Some 4)) = Some (JS.len "aabb" / 2)
  ∧ Z.even (JS.len "aabb") = true.
Proof. exact (isWitnessProgram_sound "5102aabb" "aabb" 1 eq_refl). Defined.

(** ** The push-only rule *)

(** No word of a scriptSig assembly passes the test
    [opcodes[op] && opcodes[op] > opcodes['OP_16']]: the table is keyed by
    opcode numbers, so [opcodes['OP_16']] is [undefined]. *)
Lemma push_only_test_fails (asm : string) :
  existsb
    (fun op =>
       match opcodes_by_name op with
       | Some name => gt_undef name (opcodes_by_name "OP_16")
       | None => false
       end)
    (JS.split " " asm) = false.
Proof.
  change (opcodes_by_name "OP_16") with (@None string).
  induction (JS.split " " asm) as [|op ops IH]; [done|].
  cbn [existsb]. rewrite IH. by destruct (opcodes_by_name op).
Qed.

Lemma check_vin_scriptsig_asm (tx tx' : Transaction) height network (v : Vin) (asm : string) :
  check_vin tx' height network (with_scriptsig_asm v asm) = check_vin tx height network v.
Proof.
  unfold check_vin. cbn [with_scriptsig_asm is_coinbase scriptsig scriptsig_asm
                          inner_redeemscript_asm].
  rewrite !push_only_test_fails, !andb_false_r.
  change (prevout_type (with_scriptsig_asm v asm)) with (prevout_type v).
  done.
Qed.

Lemma getNonWitnessSize_witnesses (tx tx' : Transaction) :
  weight tx' = weight tx → map witness (vin tx') = map witness (vin tx) →
  getNonWitnessSize tx' = getNonWitnessSize tx.
Proof.
  intros Hw Hwit. unfold getNonWitnessSize. rewrite Hw.
  generalize (inject_Z (weight tx), false).
  revert Hwit. generalize (vin tx'), (vin tx). clear.
  induction l as [|v' l IH]; intros [|v l0] Hwit [w hw]; try done.
  injection Hwit as Hv Hwit. cbn [fold_left]. cbv beta iota. rewrite Hv. by apply IH.
Qed.

(** X17. [isNonStandard] never looks at the assembly of a scriptSig in a way
    that matters: the push-only rule cannot reject a transaction. *)
Theorem isNonStandard_ignores_scriptsig_asm parseMultisigScript (tx : Transaction)
    (asm : Vin → string) (height : option Z) (network : option string) :
  isNonStandard parseMultisigScript
    (with_vin tx (map (fun v => with_scriptsig_asm v (asm v)) (vin tx))) height network
  = isNonStandard parseMultisigScript tx height network.
Proof.
  set (tx' := with_vin tx _). unfold isNonStandard.
  change (isNonStandardVersion tx' height network)
    with (isNonStandardVersion tx height network).
  change (weight tx') with (weight tx). change (sigops tx') with (sigops tx).
  change (vout tx') with (vout tx).
  rewrite (getNonWitnessSize_witnesses tx tx') by (by cbn; rewrite ?map_map).
  assert (check_vins tx' height network (vin tx') = check_vins tx height network (vin tx))
    as ->; [|done].
  change (vin tx') with (map (fun v => with_scriptsig_asm v (asm v)) (vin tx)).
  clearbody tx'. induction (vin tx) as [|v vins IH]; [done|].
  cbn [map check_vins]. by rewrite (check_vin_scriptsig_asm tx tx'), IH.
Qed.

(** ** Flags that are always set, and cached flags *)

Lemma has_refl (a : Z) : has a a.
Proof. apply Z.land_diag. Qed.

Lemma has_lor_r (a b : Z) : has (Z.lor a b) b.
Proof.
  unfold has. apply Z.bits_inj'. intros n Hn. rewrite Z.land_spec, Z.lor_spec.
  by destruct (Z.testbit a n), (Z.testbit b n).
Qed.

Lemma has_lor_l (a b c : Z) : has a c → has (Z.lor a b) c.
Proof.
  unfold has. intros Hc. apply Z.bits_inj'. intros n Hn.
  apply (f_equal (fun z => Z.testbit z n)) in Hc. rewrite Z.land_spec in Hc.
  rewrite Z.land_spec, Z.lor_spec.
  by destruct (Z.testbit a n), (Z.testbit b n), (Z.testbit c n).
Qed.

Lemma has_lor (a b c : Z) : has a b → has a c → has a (Z.lor b c).
Proof.
  unfold has. intros Hb Hc. by rewrite Z.land_lor_distr_r, Hb, Hc.
Qed.

Lemma has_absorb (a b : Z) : has a b → Z.lor a b = a.
Proof.
  unfold has. intros Hb. apply Z.bits_inj'. intros n Hn.
  apply (f_equal (fun z => Z.testbit z n)) in Hb. rewrite Z.land_spec in Hb.
  rewrite Z.lor_spec. by destruct (Z.testbit a n), (Z.testbit b n).
Qed.

Lemma has_zero (a : Z) : has a 0.
Proof. apply Z.land_0_r. Qed.

Section FlagBits.

Variable TF : TransactionFlags.t.
Variable parseMultisigScript : string -> option (Z * Z).
Variable isPoint : string -> bool.
Context {R : Type} `{Countable R}.

Ltac find_bit :=
  first [ apply has_zero | apply has_lor_r
        | match goal with
          | |- has (if ?c then _ else _) _ => destruct c; find_bit
          | |- has (match ?c with _ => _ end) _ => destruct c; find_bit
          end
        | apply has_lor_l; find_bit ].

Ltac grow :=
  repeat match goal with
         | |- has (if ?c then _ else _) _ => destruct c
         | |- has (match ?c with _ => _ end) _ => destruct c
         | |- has (Z.lor _ _) _ => apply has_lor_l
         end; try assumption.

Lemma flags_vin_grows (random : nat → R) (st : vin_state) (v : Vin) (x : Z) :
  has (vs_flags st) x → has (vs_flags (flags_vin TF random st v)) x.
Proof. intros Hx. unfold flags_vin. cbn [vs_flags]. cbv zeta. grow. Qed.

Lemma flags_vout_grows (random : nat → R) (st : vout_state) (o : Vout) (x : Z) :
  has (os_flags st) x → has (os_flags (flags_vout TF isPoint random st o)) x.
Proof.
  intros Hx. unfold flags_vout. cbv zeta.
  repeat match goal with
         | |- context [if ?c then _ else _] => destruct c
         | |- context [match ?c with Some _ => _ | None => _ end] => destruct c
         end; cbn [os_flags]; grow.
Qed.

Lemma fold_flags_vin_grows (random : nat → R) (vins : list Vin) (st : vin_state) (x : Z) :
  has (vs_flags st) x → has (vs_flags (fold_left (flags_vin TF random) vins st)) x.
Proof.
  revert st. induction vins as [|v vins IH]; intros st Hx; [done|].
  cbn [fold_left]. by apply IH, flags_vin_grows.
Qed.

Lemma fold_flags_vout_grows (random : nat → R) (vouts : list Vout) (st : vout_state) (x : Z) :
  has (os_flags st) x →
  has (os_flags (fold_left (flags_vout TF isPoint random) vouts st)) x.
Proof.
  revert st. induction vouts as [|o vouts IH]; intros st Hx; [done|].
  cbn [fold_left]. by apply IH, flags_vout_grows.
Qed.

Lemma fold_flags_vin_rbf (random : nat → R) (vins : list Vin) (st : vin_state) :
  vs_rbf (fold_left (flags_vin TF random) vins st)
  = vs_rbf st || existsb (fun v => sequence v <? 0xfffffffe) vins.
Proof.
  revert st. induction vins as [|v vins IH]; intros st; [by rewrite orb_false_r|].
  cbn [fold_left existsb]. rewrite IH. unfold flags_vin. cbn [vs_rbf].
  destruct (sequence v <? 4294967294), (vs_rbf st); done.
Qed.

Lemma flags_vin_type (random : nat → R) (st : vin_state) (v : Vin) :
  has (vs_flags (flags_vin TF random st v))
      (script_type_flag TF (default "" (prevout_type v))).
Proof.
  unfold flags_vin, script_type_flag. cbn [vs_flags]. cbv zeta.
  repeat match goal with
         | |- context [String.eqb ?a ?b] => destruct (String.eqb a b)
         end;
    repeat match goal with
           | |- has (match ?c with _ => _ end) _ => destruct c
           | |- has (if ?c then _ else _) _ => destruct c
           end;
    find_bit.
Qed.

Lemma flags_vout_type (random : nat → R) (st : vout_state) (o : Vout) :
  has (os_flags (flags_vout TF isPoint random st o))
      (if String.eqb (scriptpubkey_type o) "op_return" then TransactionFlags.op_return TF
       else script_type_flag TF (scriptpubkey_type o)).
Proof.
  unfold flags_vout, script_type_flag. cbv zeta.
  repeat match goal with
         | |- context [String.eqb ?a ?b] => destruct (String.eqb_spec a b); try congruence
         end;
    repeat match goal with
           | |- context [if ?c then _ else _] => destruct c
           | |- context [match ?c with Some _ => _ | None => _ end] => destruct c
           end;
    cbn [os_flags]; find_bit.
Qed.

Lemma fold_flags_vin_type (random : nat → R) (vins : list Vin) (st : vin_state) (v : Vin) :
  v ∈ vins →
  has (vs_flags (fold_left (flags_vin TF random) vins st))
      (script_type_flag TF (default "" (prevout_type v))).
Proof.
  revert st. induction vins as [|v' vins IH]; intros st Hv; [by apply elem_of_nil in Hv|].
  cbn [fold_left]. apply elem_of_cons in Hv as [->|Hv]; [|by apply IH].
  apply fold_flags_vin_grows, flags_vin_type.
Qed.

Lemma fold_flags_vout_type (random : nat → R) (vouts : list Vout) (st : vout_state)
    (o : Vout) :
  o ∈ vouts →
  has (os_flags (fold_left (flags_vout TF isPoint random) vouts st))
      (if String.eqb (scriptpubkey_type o) "op_return" then TransactionFlags.op_return TF
       else script_type_flag TF (scriptpubkey_type o)).
Proof.
  revert st. induction vouts as [|o' vouts IH]; intros st Ho; [by apply elem_of_nil in Ho|].
  cbn [fold_left]. apply elem_of_cons in Ho as [->|Ho]; [|by apply IH].
  apply fold_flags_vout_grows, flags_vout_type.
Qed.

Lemma update_variable_flags_grows (flags : Z) cpfpInfo replacement (x : Z) :
  has flags x → has (update_variable_flags TF flags cpfpInfo replacement) x.
Proof. intros Hx. unfold update_variable_flags. grow. Qed.

Lemma update_variable_flags_lor (flags : Z) cpfpInfo replacement :
  update_variable_flags TF flags cpfpInfo replacement
  = Z.lor flags (update_variable_flags TF 0 cpfpInfo replacement).
Proof.
  unfold update_variable_flags.
  repeat match goal with
         | |- context [if ?c then _ else _] => destruct c
         | |- context [match ?c with Some _ => _ | None => _ end] => destruct c
         end; rewrite ?Z.lor_0_l, ?Z.lor_0_r, ?Z.lor_assoc; done.
Qed.

(** X18. A fresh classification always sets the version bit, one of
    [rbf] and [no_rbf], the script-type bit of every input and output
    with a known type, and the [nonstandard] and [replacement] bits when
    they apply. *)
Theorem static_flags_are_set (random : nat → R) (tx : Transaction)
    (cpfpInfo : option CpfpInfo) (replacement : bool)
    (height : option Z) (network : option string) :
  flags tx = None →
  let f := getTransactionFlags TF parseMultisigScript isPoint random tx cpfpInfo replacement
             height network in
  (version tx = 1 → has f (TransactionFlags.v1 TF))
  ∧ (version tx = 2 → has f (TransactionFlags.v2 TF))
  ∧ (version tx = 3 → has f (TransactionFlags.v3 TF))
  ∧ has f (if existsb (fun v => sequence v <? 0xfffffffe) (vin tx)
           then TransactionFlags.rbf TF else TransactionFlags.no_rbf TF)
  ∧ (∀ v, v ∈ vin tx → has f (script_type_flag TF (default "" (prevout_type v))))
  ∧ (∀ o, o ∈ vout tx →
       has f (if String.eqb (scriptpubkey_type o) "op_return"
              then TransactionFlags.op_return TF
              else script_type_flag TF (scriptpubkey_type o)))
  ∧ (isNonStandard parseMultisigScript tx height network = true →
     has f (TransactionFlags.nonstandard TF))
  ∧ (replacement = true → has f (TransactionFlags.replacement TF)).
Proof.
  intros Hflags f.
  assert (f = process_static_flags TF parseMultisigScript isPoint random tx
                (update_variable_flags TF 0 cpfpInfo replacement) height network) as Hf.
  { unfold f, getTransactionFlags. by rewrite Hflags. }
  clearbody f. unfold process_static_flags in Hf. cbv zeta in Hf.
  set (flags0 := update_variable_flags TF 0 cpfpInfo replacement) in Hf.
  set (flags1 := if version tx =? 1 then _ else _) in Hf.
  set (ins := fold_left (flags_vin TF random) (vin tx) _) in Hf.
  set (flags2 := if vs_rbf ins then _ else _) in Hf.
  set (outs := fold_left (flags_vout TF isPoint random) (vout tx) _) in Hf.
  assert (∀ x, has (os_flags outs) x → has f x) as Houts.
  { intros x Hx. rewrite Hf. grow. }
  assert (∀ x, has flags2 x → has f x) as H2.
  { intros x Hx. apply Houts. by apply fold_flags_vout_grows. }
  assert (∀ x, has (vs_flags ins) x → has f x) as Hins.
  { intros x Hx. apply H2. unfold flags2. grow. }
  assert (∀ x, has flags1 x → has f x) as H1.
  { intros x Hx. apply Hins. by apply fold_flags_vin_grows. }
  assert (∀ x, has flags0 x → has f x) as H0'.
  { intros x Hx. apply H1. unfold flags1. grow. }
  split_and!.
  - intros Hv. apply H1. unfold flags1. rewrite Hv. apply has_lor_r.
  - intros Hv. apply H1. unfold flags1. rewrite Hv. apply has_lor_r.
  - intros Hv. apply H1. unfold flags1. rewrite Hv. apply has_lor_r.
  - apply H2. unfold flags2, ins. rewrite fold_flags_vin_rbf. cbn [vs_rbf orb].
    destruct (existsb _ _); apply has_lor_r.
  - intros v Hv. apply Hins. by apply fold_flags_vin_type.
  - intros o Ho. apply Houts. by apply fold_flags_vout_type.
  - intros Hns. rewrite Hf, Hns. apply has_lor_r.
  - intros ->. apply H0'. unfold flags0, update_variable_flags. apply has_lor_r.
Qed.

(** X19. A transaction that carries the flags of an earlier classification is
    not classified again: with the same [cpfpInfo] and [replacement] the
    earlier result comes back, whatever the height, the network and the
    random numbers are. *)
Theorem cached_flags_are_returned (random random' : nat → R) (tx : Transaction)
    (cpfpInfo : option CpfpInfo) (replacement : bool)
    (height height' : option Z) (network network' : option string) :
  let f := getTransactionFlags TF parseMultisigScript isPoint random tx cpfpInfo replacement
             height network in
  f ≠ 0 →
  getTransactionFlags TF parseMultisigScript isPoint random' (with_flags tx f)
    cpfpInfo replacement height' network' = f.
Proof.
  intros f Hf.
  assert (has f (update_variable_flags TF 0 cpfpInfo replacement)) as Hvar.
  { unfold f, getTransactionFlags. cbv zeta.
    destruct (match flags tx with Some f0 => _ | None => false end).
    - rewrite update_variable_flags_lor. apply has_lor_r.
    - cbn [default]. unfold process_static_flags. cbv zeta.
      set (flags0 := update_variable_flags TF 0 cpfpInfo replacement).
      set (ins := fold_left (flags_vin TF random) (vin tx) _).
      set (outs := fold_left (flags_vout TF isPoint random) (vout tx) _).
      assert (has (os_flags outs) flags0); [|grow].
      apply fold_flags_vout_grows. cbn [os_flags].
      assert (has (vs_flags ins) flags0); [|grow].
      apply fold_flags_vin_grows. cbn [vs_flags]. grow; apply has_refl. }
  unfold getTransactionFlags at 1. cbn [with_flags flags default]. cbv zeta.
  destruct (Z.eqb_spec f 0); [done|]. cbn [negb].
  rewrite update_variable_flags_lor. by apply has_absorb.
Qed.

End FlagBits.

Lemma static_flags_are_set_witness :
  has (getTransactionFlags sample_flags reject_multisig every_key_is_a_point
         (fun n : nat => n) five_to_five None true None None)
      (TransactionFlags.replacement sample_flags).
Proof.
  exact (proj2 (proj2 (proj2 (proj2 (proj2 (proj2 (proj2
           (static_flags_are_set sample_flags reject_multisig every_key_is_a_point
              (fun n : nat => n) five_to_five None true None None eq_refl)))))))
           eq_refl).
Defined.

Lemma cached_flags_are_returned_witness :
  getTransactionFlags sample_flags reject_multisig every_key_is_a_point (fun n : nat => n)
    (with_flags five_to_five
       (getTransactionFlags sample_flags reject_multisig every_key_is_a_point
          (fun n : nat => n) five_to_five None true None None))
    None true (Some 1) (Some "signet")
  = getTransactionFlags sample_flags reject_multisig every_key_is_a_point
      (fun n : nat => n) five_to_five None true None None.
Proof.
  refine (cached_flags_are_returned sample_flags reject_multisig every_key_is_a_point
            (fun n : nat => n) (fun n : nat => n) five_to_five None true None (Some 1)
            None (Some "signet") _).
  vm_compute. discriminate.
Defined.

(** ** Inner scripts *)

(** X20. [addInnerScriptsToVin] raises an error exactly on an input that spends
    a P2WSH output with an empty witness array. *)
Theorem addInnerScriptsToVin_fails (v : Vin) :
  addInnerScriptsToVin v = None
  ↔ prevout_type v = Some "v0_p2wsh" ∧ witness v = Some [].
Proof.
  unfold addInnerScriptsToVin, prevout_type.
  destruct (prevout v) as [p|]; cbn [fmap option_fmap option_map]; [|by split; [|intros []]].
  cbv zeta.
  destruct (String.eqb_spec (scriptpubkey_type p) "p2sh") as [Hp|Hp].
  { rewrite Hp. cbn [String.eqb Ascii.eqb Bool.eqb mbind option_bind].
    split; [|by intros [[=] _]].
    repeat match goal with
           | |- context [match ?x with Some _ => _ | None => _ end] => destruct x
           | |- context [if ?x then _ else _] => destruct x
           end; done. }
  destruct (String.eqb_spec (scriptpubkey_type p) "v0_p2wsh") as [Hw|Hw].
  { rewrite Hw. cbn [String.eqb Ascii.eqb Bool.eqb].
    destruct (witness v) as [wit|]; cbn [mbind option_bind]; [|by split; [|intros [_ [=]]]].
    destruct (last wit) as [s|] eqn:Elast; cbn [mbind option_bind].
    - split; [done|]. intros [_ [= ->]]. done.
    - apply last_None in Elast as ->. done. }
  cbn [mbind option_bind].
  split; [|by intros [[= ?] _]].
  repeat match goal with
         | |- context [match ?x with Some _ => _ | None => _ end] => destruct x
         | |- context [if ?x then _ else _] => destruct x
         end; done.
Qed.

(** X21. [addInnerScriptsToVin] changes nothing but the two inner
    scripts, and running it again changes nothing at all. *)
Theorem addInnerScriptsToVin_idempotent (v v' : Vin) :
  addInnerScriptsToVin v = Some v' →
  same_but_inner_scripts v v' ∧ addInnerScriptsToVin v' = Some v'.
Proof.
  intros Hv. unfold addInnerScriptsToVin in Hv.
  destruct (prevout v) as [p|] eqn:Ep.
  2: { injection Hv as <-. split; [by repeat split|].
       unfold addInnerScriptsToVin. by rewrite Ep. }
  cbv zeta in Hv.
  destruct (String.eqb (scriptpubkey_type p) "p2sh") eqn:E1;
    destruct (String.eqb (scriptpubkey_type p) "v0_p2wsh") eqn:E2;
    destruct (String.eqb (scriptpubkey_type p) "v1_p2tr") eqn:E3;
    try (apply String.eqb_eq in E1; apply String.eqb_eq in E2; congruence);
    try (apply String.eqb_eq in E1; apply String.eqb_eq in E3; congruence);
    try (apply String.eqb_eq in E2; apply String.eqb_eq in E3; congruence);
    cbn [witness set_inner_redeemscript_asm set_inner_witnessscript_asm] in Hv;
    repeat match type of Hv with
           | context [match ?x with Some _ => _ | None => _ end] =>
               let E := fresh "E" in destruct x eqn:E
           | context [if ?x then _ else _] =>
               let E := fresh "E" in destruct x eqn:E
           end;
    cbn [mbind option_bind witness set_inner_redeemscript_asm
           set_inner_witnessscript_asm] in Hv;
    try discriminate;
    repeat match type of Hv with
           | context [match ?x with Some _ => _ | None => _ end] =>
               let E := fresh "E" in destruct x eqn:E
           | context [last ?l ≫= _] =>
               let E := fresh "E" in
               destruct (last l) eqn:E; cbn [mbind option_bind] in Hv
           end;
    try discriminate; injection Hv as <-;
    (split; [by repeat split|]);
    unfold addInnerScriptsToVin;
    cbn [prevout witness scriptsig_asm set_inner_redeemscript_asm
           set_inner_witnessscript_asm];
    rewrite Ep; cbv zeta; rewrite E1, E2, E3;
    cbn [prevout witness scriptsig_asm set_inner_redeemscript_asm
           set_inner_witnessscript_asm mbind option_bind];
    repeat match goal with
           | H : ?x = _ |- context [?x] => rewrite H
           end;
    cbn [mbind option_bind witness set_inner_redeemscript_asm
           set_inner_witnessscript_asm];
    repeat match goal with
           | H : ?x = _ |- context [?x] => rewrite H
           end;
    try done.
Qed.

Lemma witnessToP2TRScript_snoc2 (stack : list string) (script last : string) :
  witnessToP2TRScript (stack ++ [script; last])
  = if String.eqb (JS.substring last 0 2) "50"
    then List.last (None :: map Some stack) None
    else Some script.
Proof.
  unfold witnessToP2TRScript.
  assert (List.last (stack ++ [script; last]) "" = last) as ->.
  { change [script; last] with ([script] ++ [last])%list. rewrite app_assoc. apply last_last. }
  rewrite length_app. cbn [length].
  destruct (Nat.ltb_spec (length stack + 2) 2) as [|_]; [lia|].
  destruct (String.eqb (JS.substring last 0 2) "50"); cbn [andb].
  - destruct stack as [|x stack _] using rev_ind; [done|].
    rewrite length_app. cbn [length].
    destruct (Nat.ltb_spec (length stack + 1 + 2) 3) as [|_]; [lia|].
    replace (length stack + 1 + 2 - 3)%nat with (length stack) by lia.
    rewrite <- app_assoc. cbn [app]. rewrite list_lookup_middle by done.
    rewrite map_app. cbn [map].
    change (None :: (map Some stack ++ [Some x]))%list
      with ((None :: map Some stack) ++ [Some x])%list.
    by rewrite last_last.
  - replace (length stack + 2 - 2)%nat with (length stack) by lia.
    by rewrite list_lookup_middle.
Qed.

(** X22. [witnessToP2TRScript] returns the item below the control block
    once an annex (a last item that starts with [50]) is set aside, and
    [null] when fewer than two items are left. *)
Theorem witnessToP2TRScript_finds_the_script (witness : list string) (script : string) :
  witnessToP2TRScript witness = Some script
  ↔ ∃ stack control,
      (witness = (stack ++ [script; control])%list
       ∧ JS.substring control 0 2 ≠ "50")
      ∨ ∃ annex, witness = (stack ++ [script; control; annex])%list
                 ∧ JS.substring annex 0 2 = "50".
Proof.
  split.
  - destruct witness as [|a w _] using rev_ind; [done|].
    destruct w as [|b w _] using rev_ind; [done|].
    rewrite <- app_assoc. cbn [app]. rewrite witnessToP2TRScript_snoc2.
    destruct (String.eqb_spec (JS.substring a 0 2) "50") as [Hannex|Hannex].
    + destruct w as [|c w _] using rev_ind; [done|].
      rewrite map_app. cbn [map].
      change (None :: (map Some w ++ [Some c]))%list
        with ((None :: map Some w) ++ [Some c])%list.
      rewrite last_last. intros [= ->]. exists w, b. right. exists a.
      by rewrite <- app_assoc.
    + intros [= ->]. exists w, a. by left.
  - intros (stack & control & [[-> Hno]|(annex & -> & Hannex)]).
    + rewrite witnessToP2TRScript_snoc2.
      by destruct (String.eqb_spec (JS.substring control 0 2) "50").
    + change [script; control; annex] with ([script] ++ [control; annex])%list.
      rewrite app_assoc, witnessToP2TRScript_snoc2, Hannex.
      cbn [String.eqb Ascii.eqb Bool.eqb]. rewrite map_app. cbn [map].
      change (None :: (map Some stack ++ [Some script]))%list
        with ((None :: map Some stack) ++ [Some script])%list.
      by rewrite last_last.
Qed.

Lemma addInnerScriptsToVin_idempotent_witness :
  let v' := set_inner_redeemscript_asm
              "OP_0 OP_PUSHBYTES_20 751e76e8199196d454941c45d1b3a323f1433bd6"
              nested_segwit_input in
  addInnerScriptsToVin nested_segwit_input = Some v'
  ∧ same_but_inner_scripts nested_segwit_input v'
  ∧ addInnerScriptsToVin v' = Some v'.
Proof.
  cbv zeta.
  split; [vm_compute; reflexivity|].
  apply (addInnerScriptsToVin_idempotent nested_segwit_input).
  vm_compute; reflexivity.
Defined.

(** ** Signature operations *)

Lemma count_literal_nonneg (pat : string) (skip : nat) (s : string) :
  0 <= count_literal pat skip s.
Proof.
  revert skip. induction s as [|c s IH]; intros skip; cbn [count_literal]; [done|].
  destruct skip; [|apply IH]. destruct (String.prefix pat _); [|apply IH].
  pose proof (IH (String.length pat - 1)%nat). lia.
Qed.

Lemma digits_nonneg (s : string) (acc : option Z) (n : Z) :
  0 <= default 0 acc → JS.digits JS.decval 10 acc s = Some n → 0 <= n.
Proof.
  revert acc. induction s as [|c s IH]; intros acc Hacc; cbn [JS.digits].
  - by intros ->.
  - destruct (JS.decval c) as [d|] eqn:Ed; [|by intros ->].
    apply IH. cbn [default]. unfold JS.decval in Ed. cbv zeta in Ed.
    destruct (_ && _) eqn:E; [|done]. injection Ed as <-.
    apply andb_true_iff in E as [?%Z.leb_le ?%Z.leb_le].
    destruct acc; cbn in *; lia.
Qed.

Lemma parse_pushnum_nonneg (d : string) (n : Z) : parse_pushnum d = Some n → 0 <= n.
Proof.
  unfold parse_pushnum. destruct (JS.digits _ _ _ _) as [m|] eqn:E; [|done].
  destruct (_ <? _); [|done]. intros [= <-]. by apply (digits_nonneg d None).
Qed.

Lemma sum_multisig_nonneg (skip : nat) (s : string) : 0 <= sum_multisig skip s.
Proof.
  revert skip. induction s as [|c s IH]; intros skip; cbn [sum_multisig]; [done|].
  destruct skip; [|apply IH]. destruct (match_multisig _) as [[capture l]|]; [|apply IH].
  pose proof (IH (l - 1)%nat).
  destruct (capture ≫= parse_pushnum) as [n|] eqn:E; unfold default; cbn [from_option id];
    [|unfold id; lia].
  destruct capture as [d|]; [|done]. apply parse_pushnum_nonneg in E. unfold id. lia.
Qed.


(** ** The longest increasing subsequence *)

Lemma Qltb_true (a b : Q) : JS.Qltb a b = true ↔ (a < b)%Q.
Proof.
  unfold JS.Qltb. rewrite negb_true_iff, <- not_true_iff_false, Qle_bool_iff.
  split; [apply Qnot_le_lt|apply Qlt_not_le].
Qed.

Lemma Qltb_false (a b : Q) : JS.Qltb a b = false ↔ (b <= a)%Q.
Proof. unfold JS.Qltb. by rewrite negb_false_iff, Qle_bool_iff. Qed.

Lemma nondecreasing_snoc (l : list TransactionStripped) (x : TransactionStripped) :
  nondecreasing (l ++ [x])
  ↔ nondecreasing l ∧ ∀ y, last l = Some y → (rate y <= rate x)%Q.
Proof.
  induction l as [|a l IH]; [by split; [intros _; split; [|intros ? [=]]|]|].
  destruct l as [|b l].
  - cbn. split; [intros [? _]; split; [done|by intros ? [= <-]]|].
    intros [_ Hy]. split; [by apply Hy|done].
  - change (nondecreasing ((a :: b :: l) ++ [x]))
      with ((rate a <= rate b)%Q ∧ nondecreasing ((b :: l) ++ [x])).
    change (nondecreasing (a :: b :: l))
      with ((rate a <= rate b)%Q ∧ nondecreasing (b :: l)).
    change (last (a :: b :: l)) with (last (b :: l)).
    rewrite IH. tauto.
Qed.

Lemma tail_get (X : list TransactionStripped) (M : list (option Z)) (j : Z)
    (x : TransactionStripped) :
  0 <= j → tail X M j x →
  ∃ k, mjoin (JS.get M j) = Some k ∧ JS.get X k = Some x.
Proof.
  intros Hj (k & HM & HX). exists (Z.of_nat k). unfold JS.get.
  destruct (Z.leb_spec 0 j); [|lia]. rewrite HM. cbn.
  destruct (Z.leb_spec 0 (Z.of_nat k)); [|lia]. by rewrite Nat2Z.id.
Qed.

Lemma tail_unique (X : list TransactionStripped) (M : list (option Z)) (j : Z)
    (x y : TransactionStripped) :
  tail X M j x → tail X M j y → x = y.
Proof.
  intros (k & HM & HX) (k' & HM' & HX'). rewrite HM in HM'.
  injection HM' as Hk. apply Nat2Z.inj in Hk as <-. congruence.
Qed.

(** The binary search returns the first position whose tail has a
    greater rate. *)
Lemma lis_search_spec (X : list TransactionStripped) (M : list (option Z))
    (x : TransactionStripped) (L : Z) (fuel : nat) (lo hi : Z) :
  (∀ j, 1 <= j <= L → ∃ y, tail X M j y) →
  (∀ j j' y y', 1 <= j → j <= j' → j' <= L →
     tail X M j y → tail X M j' y' → (rate y <= rate y')%Q) →
  1 <= lo → lo <= hi → hi <= L + 1 → hi - lo <= Z.of_nat fuel →
  (∀ j y, 1 <= j < lo → tail X M j y → (rate y <= rate x)%Q) →
  (∀ j y, hi <= j <= L → tail X M j y → (rate x < rate y)%Q) →
  ∃ newL, lis_search fuel X M x lo hi = Some newL ∧ lo <= newL <= hi
    ∧ (∀ j y, 1 <= j < newL → tail X M j y → (rate y <= rate x)%Q)
    ∧ (∀ j y, newL <= j <= L → tail X M j y → (rate x < rate y)%Q).
Proof.
  intros Hdef Hmono. revert lo hi.
  induction fuel as [|fuel IH]; intros lo hi Hlo Hle Hhi Hfuel Hbelow Habove.
  - cbn [lis_search]. destruct (Z.ltb_spec lo hi); [lia|].
    exists lo. split; [done|]. split; [lia|]. split; [done|].
    intros j y Hj. apply Habove. lia.
  - cbn [lis_search]. destruct (Z.ltb_spec lo hi) as [Hlt|].
    2: { exists lo. split; [done|]. split; [lia|]. split; [done|].
         intros j y Hj. apply Habove. lia. }
    set (mid := lo + (hi - lo) / 2).
    assert (lo <= mid < hi) as Hmid.
    { unfold mid. split; [|apply Z.lt_add_lt_sub_l]; [|apply Z.div_lt_upper_bound]; try lia.
      assert (0 <= (hi - lo) / 2) by (apply Z.div_pos; lia). lia. }
    destruct (Hdef mid) as [xm Hxm]; [lia|].
    destruct (tail_get X M mid xm) as (k & Hk & Hget); [lia|done|].
    rewrite Hk. cbn [mbind option_bind]. rewrite Hget. cbn [mbind option_bind].
    destruct (JS.Qltb (rate x) (rate xm)) eqn:Hcmp.
    + apply Qltb_true in Hcmp.
      destruct (IH lo mid) as (newL & Hs & Hb & H1 & H2); try lia; try done.
      { intros j y Hj Hy. eapply Qlt_le_trans; [exact Hcmp|].
        apply (Hmono mid j); try lia; done. }
      exists newL. split; [done|]. split; [lia|]. done.
    + apply Qltb_false in Hcmp.
      destruct (IH (mid + 1) hi) as (newL & Hs & Hb & H1 & H2); try lia; try done.
      { intros j y Hj Hy. eapply Qle_trans; [|exact Hcmp].
        apply (Hmono j mid); try lia; done. }
      exists newL. split; [done|]. split; [lia|]. done.
Qed.

Lemma chain_insert (X : list TransactionStripped) (P : list (option Z)) (e : Z)
    (l : list TransactionStripped) (i : nat) (v : option Z) :
  chain X P e l → e < Z.of_nat i → chain X (<[i := v]> P) e l.
Proof.
  induction 1 as [|e l k x Hc IH HP He HX Hr]; intros Hi; [constructor|].
  apply (chain_snoc _ _ e); try done; [apply IH; lia|].
  rewrite list_lookup_insert_ne by lia. done.
Qed.

Lemma tail_insert (X : list TransactionStripped) (M : list (option Z)) (n : Z)
    (i : nat) (x : TransactionStripped) (j : Z) (y : TransactionStripped) :
  0 <= j → 0 <= n → (Z.to_nat n < length M)%nat → X !! i = Some x →
  tail X (array_set M n (Some (Z.of_nat i))) j y
  ↔ (j = n ∧ y = x) ∨ (j ≠ n ∧ tail X M j y).
Proof.
  intros Hj Hn Hlen HX. unfold tail, array_set.
  destruct (decide (j = n)) as [->|Hne].
  - split.
    + intros (k & HM & Hk). left. split; [done|].
      rewrite list_lookup_insert in HM. rewrite decide_True in HM by done.
      injection HM as HM. apply Nat2Z.inj in HM as <-. congruence.
    + intros [[_ ->]|[? _]]; [|done]. exists i. split; [|done].
      rewrite list_lookup_insert. by rewrite decide_True.
  - assert (Z.to_nat n ≠ Z.to_nat j) by lia.
    split.
    + intros (k & HM & Hk). right. split; [done|]. exists k.
      by rewrite list_lookup_insert_ne in HM.
    + intros [[? _]|[_ (k & HM & Hk)]]; [done|]. exists k.
      by rewrite list_lookup_insert_ne.
Qed.

Lemma sublist_singleton {A} (l : list A) (x : A) :
  l `sublist_of` [x] → l = [] ∨ l = [x].
Proof.
  intros Hl. apply sublist_cons_r in Hl as [Hl|(l' & -> & Hl)].
  - left. by apply sublist_nil_r.
  - right. by apply sublist_nil_r in Hl as ->.
Qed.

(** One turn of the main loop keeps the invariant. *)
Lemma lis_step_invariant (X : list TransactionStripped) (i : nat) (L : Z)
    (M P : list (option Z)) (x : TransactionStripped) :
  lis_invariant X i L M P → X !! i = Some x →
  ∃ L' M' P', lis_step X (Some (L, M, P)) i = Some (L', M', P')
    ∧ lis_invariant X (S i) L' M' P'.
Proof.
  intros [HlenM HlenP HL HM0 Hchain Hmono Hmin] HX.
  pose proof (lookup_lt_Some _ _ _ HX) as Hi.
  assert (Hdef : ∀ j, 1 <= j <= L → ∃ y, tail X M j y).
  { intros j Hj. destruct (Hchain j Hj) as (k & y & l & HM & _ & Hk & _).
    exists y, k. done. }
  destruct (lis_search_spec X M x L (Z.to_nat L) 1 (L + 1))
    as (newL & Hsearch & HnewL & Hbelow & Habove); try done; try lia.
  all: try (intros j y Hj; lia).
  unfold lis_step. cbn [mbind option_bind]. rewrite HX. cbn [mbind option_bind].
  rewrite Hsearch. cbn [mbind option_bind].
  eexists _, _, _. split; [reflexivity|].
  set (L' := if L <? newL then newL else L).
  assert (HL' : L <= L' ∧ newL <= L' ∧ (L' = L ∨ L' = newL))
    by (unfold L'; destruct (Z.ltb_spec L newL); lia).
  clearbody L'.
  assert (Hold : ∀ j, 1 <= j <= L' → j ≠ newL → j <= L) by lia.
  assert (HnM : (Z.to_nat newL < length M)%nat) by lia.
  (* the predecessor link of [i] *)
  assert (Hpred : ∃ e l, mjoin (JS.get M (newL - 1)) = Some e ∧ e < Z.of_nat i
                   ∧ chain X P e l ∧ Z.of_nat (length l) = newL - 1
                   ∧ ∀ y, last l = Some y → (rate y <= rate x)%Q).
  { destruct (decide (newL = 1)) as [->|Hne].
    - exists (-1), []. change (JS.get M (1 - 1)) with (M !! 0%nat).
      rewrite HM0. split; [done|]. split; [lia|]. split; [constructor|]. split; [done|].
      intros y [=].
    - destruct (Hchain (newL - 1)) as (k & y & l & HM & Hk & HXk & Hc & Hl); [lia|].
      exists (Z.of_nat k), l. unfold JS.get.
      destruct (Z.leb_spec 0 (newL - 1)); [|lia]. rewrite HM.
      split; [done|]. split; [lia|]. split; [done|]. split; [done|].
      intros y' Hy'. apply (Hbelow (newL - 1)); [lia|].
      assert (y' = y) as ->; [|by exists k].
      inversion Hc as [|e' l' k' x' Hc' HP' He' HX' Hr' Hk' Hl']; [lia|].
      apply Nat2Z.inj in Hk' as ->. subst l. rewrite last_snoc in Hy'. congruence. }
  destruct Hpred as (e & lpre & He & Hei & Hcpre & Hlpre & Hrpre).
  rewrite He.
  assert (Htail : ∀ j y, 0 <= j →
            tail X (array_set M newL (Some (Z.of_nat i))) j y
            ↔ (j = newL ∧ y = x) ∨ (j ≠ newL ∧ tail X M j y)).
  { intros j y Hj. apply tail_insert; try done; lia. }
  split.
  - unfold array_set. by rewrite length_insert.
  - unfold array_set. by rewrite length_insert.
  - lia.
  - unfold array_set. rewrite list_lookup_insert_ne by lia. done.
  - intros j Hj. destruct (decide (j = newL)) as [->|Hne].
    + exists i, x, (lpre ++ [x])%list. unfold array_set.
      rewrite list_lookup_insert, decide_True by done.
      split; [done|]. split; [lia|]. split; [done|]. split.
      * apply (chain_snoc _ _ e); try done.
        -- apply chain_insert; [done|lia].
        -- rewrite Nat2Z.id, list_lookup_insert, decide_True; [done|].
           split; [done|lia].
      * rewrite length_app. cbn [length]. lia.
    + destruct (Hchain j) as (k & y & l & HM & Hk & HXk & Hc & Hl); [lia|].
      exists k, y, l. unfold array_set.
      rewrite list_lookup_insert_ne by lia.
      split; [done|]. split; [lia|]. split; [done|]. split; [|done].
      apply chain_insert; [done|lia].
  - intros j j' y y' Hj Hjj' Hj' Hy Hy'.
    apply Htail in Hy; [|lia]. apply Htail in Hy'; [|lia].
    destruct Hy as [[-> ->]|[Hne Hy]], Hy' as [[-> ->]|[Hne' Hy']].
    + apply Qle_refl.
    + apply Qlt_le_weak, (Habove j'); [lia|done].
    + apply (Hbelow j); [lia|done].
    + apply (Hmono j j'); try done; lia.
  - clear e He Hei Hcpre. intros S e HS Hnd Hlast.
    rewrite (take_S_r _ _ _ HX) in HS.
    apply sublist_app_r in HS as (S1 & S2 & -> & HS1 & HS2).
    apply sublist_singleton in HS2 as [->| ->].
    + rewrite app_nil_r in *.
      destruct (Hmin S1 e HS1 Hnd Hlast) as (Hlen & y & Hy & Hr).
      split; [lia|].
      destruct (decide (Z.of_nat (length S1) = newL)) as [Heq|Hne].
      * exists x. split; [apply Htail; [lia|]; by left|].
        apply Qlt_le_weak. eapply Qlt_le_trans; [|exact Hr].
        apply (Habove (Z.of_nat (length S1))); [lia|done].
      * exists y. split; [|done]. apply Htail; [lia|]. by right.
    + rewrite last_snoc in Hlast. injection Hlast as <-.
      apply nondecreasing_snoc in Hnd as [Hnd Hr].
      rewrite length_app. cbn [length].
      assert (Hlt : Z.of_nat (length S1) < newL).
      { destruct (last S1) as [e1|] eqn:He1.
        - destruct (Hmin S1 e1 HS1 Hnd He1) as (Hlen & y & Hy & Hr1).
          destruct (Z.lt_ge_cases (Z.of_nat (length S1)) newL) as [|Hge]; [done|].
          exfalso. apply (Qlt_not_le (rate x) (rate y)).
          + apply (Habove (Z.of_nat (length S1))); [lia|done].
          + eapply Qle_trans; [exact Hr1|]. by apply Hr.
        - apply last_None in He1 as ->. cbn [length]. lia. }
      split; [lia|].
      destruct (decide (Z.of_nat (length S1 + 1) = newL)) as [Heq|Hne].
      * exists x. split; [|apply Qle_refl]. apply Htail; [lia|]. by left.
      * destruct (Hdef (Z.of_nat (length S1 + 1))) as [y Hy]; [lia|].
        exists y. split; [apply Htail; [lia|]; by right|].
        apply (Hbelow (Z.of_nat (length S1 + 1))); [lia|done].
Qed.

(** The main loop runs to its end and establishes the invariant. *)
Lemma lis_loop_invariant (X : list TransactionStripped) (n : nat) :
  (n <= length X)%nat →
  ∃ L M P,
    fold_left (lis_step X) (seq 0 n)
      (Some (0, array_set (replicate (S (length X)) None) 0 (Some (-1)),
             replicate (length X) None))
    = Some (L, M, P)
    ∧ lis_invariant X n L M P.
Proof.
  induction n as [|n IH]; intros Hn.
  - eexists _, _, _. split; [reflexivity|]. split.
    + unfold array_set. by rewrite length_insert, length_replicate.
    + by rewrite length_replicate.
    + lia.
    + done.
    + intros j Hj. lia.
    + intros j j' x x' Hj Hjj' Hj'. lia.
    + intros S e HS _ Hlast. rewrite take_0 in HS. apply sublist_nil_r in HS as ->.
      discriminate.
  - destruct IH as (L & M & P & Hfold & Hinv); [lia|].
    rewrite seq_S, fold_left_app, Hfold. cbn [fold_left Nat.add].
    destruct (lookup_lt_is_Some_2 X n) as [x Hx]; [lia|].
    apply (lis_step_invariant X n L M P x); done.
Qed.

Lemma lis_rebuild_chain (X : list TransactionStripped) (P : list (option Z)) (e : Z)
    (l : list TransactionStripped) :
  chain X P e l →
  ∀ pre suf, length pre = length l →
    lis_rebuild X P (length l) (Some e) (pre ++ suf)%list = ((Some <$> l) ++ suf)%list.
Proof.
  induction 1 as [|e l k x Hc IH HP He HX Hr]; intros pre suf Hlen.
  - destruct pre; [done|discriminate].
  - rewrite length_app in *. cbn [length] in *. rewrite Nat.add_1_r in *.
    cbn [lis_rebuild mbind option_bind].
    destruct pre as [|p pre' _] using rev_ind; [discriminate|].
    rewrite length_app in Hlen. cbn [length] in Hlen.
    assert (Hpre : length pre' = length l) by lia.
    unfold JS.get. destruct (Z.leb_spec 0 (Z.of_nat k)); [|lia].
    rewrite Nat2Z.id, HP, HX. cbn [mjoin option_join].
    assert (Hins : <[length l := Some x]> ((pre' ++ [p]) ++ suf)%list
                   = (pre' ++ Some x :: suf)%list).
    { rewrite <- app_assoc, <- Hpre, <- (Nat.add_0_r (length pre')).
      apply (insert_app_r pre' (p :: suf) 0). }
    rewrite Hins, (IH pre' (Some x :: suf) Hpre), fmap_app, <- app_assoc. done.
Qed.

Lemma chain_sublist (X : list TransactionStripped) (P : list (option Z)) (e : Z)
    (l : list TransactionStripped) :
  chain X P e l → l `sublist_of` take (Z.to_nat (e + 1)) X ∧ nondecreasing l.
Proof.
  induction 1 as [|e l k x Hc [IHs IHn] HP He HX Hr]; [split; [apply sublist_nil_l|done]|].
  split; [|by apply nondecreasing_snoc].
  replace (Z.to_nat (Z.of_nat k + 1)) with (S k) by lia.
  rewrite (take_S_r _ _ _ HX). apply sublist_app; [|done].
  etrans; [exact IHs|].
  replace (take (Z.to_nat (e + 1)) X) with (take (Z.to_nat (e + 1)) (take k X)).
  2: { rewrite take_take. f_equal. lia. }
  apply sublist_take.
Qed.

Lemma sublist_full {A} (l1 l2 : list A) :
  l1 `sublist_of` l2 → (length l2 <= length l1)%nat → l1 = l2.
Proof.
  induction 1 as [|x l1 l2 Hs IH|x l1 l2 Hs IH]; cbn [length]; intros Hlen.
  - done.
  - f_equal. apply IH. lia.
  - apply sublist_length in Hs. lia.
Qed.

(** The reconstruction returns a longest subsequence of [X] along which
    the rates never decrease. *)
Lemma longest_increasing_subsequence_spec (X : list TransactionStripped) :
  ∃ LIS, longest_increasing_subsequence X = Some LIS
    ∧ LIS `sublist_of` X ∧ nondecreasing LIS
    ∧ ∀ S, S `sublist_of` X → nondecreasing S → (length S <= length LIS)%nat.
Proof.
  destruct (lis_loop_invariant X (length X)) as (L & M & P & Hfold & Hinv); [done|].
  destruct Hinv as [HlenM HlenP HL HM0 Hchain Hmono Hmin].
  unfold longest_increasing_subsequence. cbv zeta. rewrite Hfold.
  cbn [mbind option_bind].
  assert (Hend : ∃ e l, mjoin (JS.get M L) = Some e ∧ chain X P e l
                  ∧ length l = Z.to_nat L).
  { destruct (decide (L = 0)) as [->|Hne].
    - exists (-1), []. change (JS.get M 0) with (M !! 0%nat). rewrite HM0.
      split; [done|]. split; [constructor|done].
    - destruct (Hchain L) as (k & y & l & HM & Hk & HXk & Hc & Hl); [lia|].
      exists (Z.of_nat k), l. unfold JS.get. destruct (Z.leb_spec 0 L); [|lia].
      rewrite HM. split; [done|]. split; [done|lia]. }
  destruct Hend as (e & l & He & Hc & Hl).
  exists l. rewrite He, <- Hl.
  rewrite <- (app_nil_r (replicate (length l) None)).
  rewrite (lis_rebuild_chain X P e l Hc) by by rewrite length_replicate.
  rewrite app_nil_r.
  split; [by apply mapM_fmap_Some|].
  destruct (chain_sublist X P e l Hc) as [Hsub Hnd].
  split; [etrans; [exact Hsub|apply sublist_take]|]. split; [done|].
  intros S HS HndS. rewrite take_ge in Hmin by done.
  destruct (last S) as [y|] eqn:Hlast.
  - destruct (Hmin S y HS HndS Hlast) as [Hlen _]. lia.
  - apply last_None in Hlast as ->. cbn [length]. lia.
Qed.

(** The classification loop lists identifiers of [X], in the order of
    [X], and none that is on the subsequence. *)
Lemma classify_fold (lisMap : gset string) (X : list TransactionStripped)
    (r : Q) (p d : list string) (r' : Q) (p' d' : list string) :
  fold_left (classify_step lisMap) X (r, p, d) = (r', p', d') →
  ∃ p1 d1, p' = (p ++ p1)%list ∧ d' = (d ++ d1)%list
    ∧ p1 `sublist_of` map stripped_txid X ∧ d1 `sublist_of` map stripped_txid X
    ∧ (∀ t, t ∈ p1 → t ∉ lisMap) ∧ (∀ t, t ∈ d1 → t ∉ lisMap).
Proof.
  revert r p d. induction X as [|x X IH]; intros r p d Hfold.
  - injection Hfold as <- <- <-. exists [], []. rewrite !app_nil_r.
    repeat split; try done; by intros t ?%elem_of_nil.
  - cbn [fold_left] in Hfold. unfold classify_step at 2 in Hfold.
    destruct (bool_decide_reflect (stripped_txid x ∈ lisMap)) as [Hin|Hin].
    { destruct (IH _ _ _ Hfold) as (p1 & d1 & -> & -> & Hp & Hd & Hnp & Hnd).
      exists p1, d1. repeat split; try done; by apply sublist_cons. }
    destruct (JS.Qltb _ _).
    { destruct (IH _ _ _ Hfold) as (p1 & d1 & -> & -> & Hp & Hd & Hnp & Hnd).
      exists p1, d1. repeat split; try done; by apply sublist_cons. }
    destruct (Qle_bool _ _).
    + destruct (IH _ _ _ Hfold) as (p1 & d1 & -> & -> & Hp & Hd & Hnp & Hnd).
      exists (stripped_txid x :: p1), d1. rewrite <- app_assoc.
      repeat split; try done; [by apply sublist_skip|by apply sublist_cons|].
      intros t [->|Ht]%elem_of_cons; [done|by apply Hnp].
    + destruct (IH _ _ _ Hfold) as (p1 & d1 & -> & -> & Hp & Hd & Hnp & Hnd).
      exists p1, (stripped_txid x :: d1). rewrite <- app_assoc.
      repeat split; try done; [by apply sublist_cons|by apply sublist_skip|].
      intros t [->|Ht]%elem_of_cons; [done|by apply Hnd].
Qed.

Lemma identifyPrioritizedTransactions_spec (transactions : list TransactionStripped) :
  let X := List.rev (drop 1 transactions) in
  ∃ LIS result,
    longest_increasing_subsequence X = Some LIS
    ∧ identifyPrioritizedTransactions transactions = Some result
    ∧ prioritized result `sublist_of` map stripped_txid X
    ∧ deprioritized result `sublist_of` map stripped_txid X
    ∧ ((2 <= length X)%nat → ∀ tx, tx ∈ LIS →
         (stripped_txid tx ∉ prioritized result)
         ∧ (stripped_txid tx ∉ deprioritized result)).
Proof.
  intros X. destruct (longest_increasing_subsequence_spec X) as (LIS & HLIS & _).
  exists LIS. unfold identifyPrioritizedTransactions. fold X.
  destruct (Nat.ltb_spec (length X) 2) as [Hlt|Hge].
  { eexists. split; [done|]. split; [done|]. cbn [prioritized deprioritized].
    split; [apply sublist_nil_l|]. split; [apply sublist_nil_l|]. lia. }
  rewrite HLIS. cbn [mbind option_bind].
  destruct (fold_left _ X _) as [[r p] d] eqn:Hfold.
  apply classify_fold in Hfold as (p1 & d1 & -> & -> & Hp & Hd & Hnp & Hnd).
  eexists. split; [done|]. split; [done|]. cbn [prioritized deprioritized app].
  split; [done|]. split; [done|]. intros _ tx Htx.
  assert (stripped_txid tx ∈ (list_to_set (map stripped_txid LIS) : gset string)) as Hin.
  { apply elem_of_list_to_set, list_elem_of_fmap. by exists tx. }
  split; intros Ht; [by apply Hnp in Ht|by apply Hnd in Ht].
Qed.

(** X24. The reconstruction never reads an undefined entry, and what it
    returns is a subsequence of [X] along which the fee rates never
    decrease and which is as long as any such subsequence. *)
Theorem lis_is_longest (X : list TransactionStripped) :
  ∃ LIS, longest_increasing_subsequence X = Some LIS
    ∧ LIS `sublist_of` X ∧ nondecreasing LIS
    ∧ ∀ S, S `sublist_of` X → nondecreasing S → (length S <= length LIS)%nat.
Proof. apply longest_increasing_subsequence_spec. Qed.

(** X25. [identifyPrioritizedTransactions] raises no error on any block.
    Both lists hold identifiers of the transactions after the first, from
    the last one backwards, and never the identifier of a transaction on
    the longest increasing subsequence. *)
Theorem prioritization_never_fails (transactions : list TransactionStripped) :
  let X := List.rev (drop 1 transactions) in
  ∃ LIS result,
    longest_increasing_subsequence X = Some LIS
    ∧ identifyPrioritizedTransactions transactions = Some result
    ∧ prioritized result `sublist_of` map stripped_txid X
    ∧ deprioritized result `sublist_of` map stripped_txid X
    ∧ ((2 <= length X)%nat → ∀ tx, tx ∈ LIS →
         (stripped_txid tx ∉ prioritized result)
         ∧ (stripped_txid tx ∉ deprioritized result)).
Proof. apply identifyPrioritizedTransactions_spec. Qed.

(** X26. In a block whose transactions after the first are in the order
    of decreasing (or equal) fee rates, no transaction is prioritized or
    deprioritized. *)
Theorem sorted_block_has_no_prioritized (transactions : list TransactionStripped) :
  nondecreasing (List.rev (drop 1 transactions)) →
  identifyPrioritizedTransactions transactions
  = Some {| prioritized := []; deprioritized := [] |}.
Proof.
  intros Hsorted.
  destruct (identifyPrioritizedTransactions_spec transactions)
    as (LIS & [p d] & HLIS & Hres & Hp & Hd & Hnot).
  cbn [prioritized deprioritized] in *. cbv zeta in *.
  set (X := List.rev (drop 1 transactions)) in *.
  destruct (Nat.ltb_spec (length X) 2) as [Hlt|Hge].
  { unfold identifyPrioritizedTransactions in *. fold X in Hres |- *.
    by destruct (Nat.ltb_spec (length X) 2); [|lia]. }
  rewrite Hres.
  destruct (longest_increasing_subsequence_spec X) as (LIS' & HLIS' & Hsub & _ & Hmax).
  rewrite HLIS in HLIS'. injection HLIS' as <-.
  assert (LIS = X) as -> by (apply sublist_full; [done|by apply Hmax]).
  assert (∀ l, l `sublist_of` map stripped_txid X →
               (∀ tx, tx ∈ X → stripped_txid tx ∉ l) → l = []) as Hempty.
  { intros [|t l] Hl Hno; [done|]. exfalso.
    assert (t ∈ map stripped_txid X) as Ht.
    { eapply sublist_submseteq, elem_of_submseteq in Hl; [exact Hl|]. left. }
    apply list_elem_of_fmap in Ht as (tx & -> & Htx). apply (Hno tx Htx). left. }
  rewrite (Hempty p), (Hempty d); try done; intros tx Htx; by apply Hnot.
Qed.

Lemma sorted_block_has_no_prioritized_witness :
  identifyPrioritizedTransactions
    [stripped "coinbase" 0; stripped "a" 9; stripped "b" 8; stripped "c" 8;
     stripped "d" 3]
  = Some {| prioritized := []; deprioritized := [] |}.
Proof.
  apply (sorted_block_has_no_prioritized
           [stripped "coinbase" 0; stripped "a" 9; stripped "b" 8; stripped "c" 8;
            stripped "d" 3]).
  cbn. repeat split; discriminate.
Defined.

(** ** Signature-hash flags *)

Lemma has_lor_inner (a b c : Z) : has b c → has (Z.lor a b) c.
Proof. rewrite Z.lor_comm. apply has_lor_l. Qed.

Ltac has_leaf :=
  first [ apply has_refl | apply has_zero
        | apply has_lor_l; has_leaf | apply has_lor_inner; has_leaf ].

Ltac has_bits := first [ apply has_lor; has_bits | has_leaf ].

Lemma lor_added (flags a : Z) : Z.lor flags (Z.lor flags a) = Z.lor flags a.
Proof. by rewrite Z.lor_assoc, Z.lor_diag. Qed.

Lemma setSighashFlags_added (TF : TransactionFlags.t) (flags : Z) (signature : string) :
  ∃ added, setSighashFlags TF flags signature = Z.lor flags added
    ∧ has (Z.lor (ecdsa_sighash_bits TF) (TransactionFlags.sighash_default TF)) added
    ∧ (JS.mem (JS.slice signature (-2) None) ["01"; "02"; "03"; "81"; "82"; "83"] = true →
       has (ecdsa_sighash_bits TF) added).
Proof.
  unfold setSighashFlags, ecdsa_sighash_bits, JS.mem. cbv zeta. cbn [existsb].
  repeat match goal with
         | |- context [String.eqb ?a ?b] => destruct (String.eqb a b)
         end;
    rewrite <- ?Z.lor_assoc;
    (eexists; split; [reflexivity|]; split; [|try discriminate; intros _]);
    has_bits.
Qed.

Lemma fold_added {A} (step : Z → A → Z) (mask : Z) :
  (∀ f x, ∃ a, step f x = Z.lor f a ∧ has mask a) →
  ∀ l f, ∃ a, fold_left step l f = Z.lor f a ∧ has mask a.
Proof.
  intros Hstep. induction l as [|x l IH]; intros f; cbn [fold_left].
  - exists 0. split; [by rewrite Z.lor_0_r|apply has_zero].
  - destruct (Hstep f x) as (a1 & -> & H1). destruct (IH (Z.lor f a1)) as (a2 & -> & H2).
    exists (Z.lor a1 a2). split; [by rewrite Z.lor_assoc|by apply has_lor].
Qed.

Lemma isDERSig_sighash (w : string) :
  isDERSig w = true →
  JS.mem (JS.slice w (-2) None) ["01"; "02"; "03"; "81"; "82"; "83"] = true.
Proof.
  unfold isDERSig. intros H. apply andb_true_iff in H as [H _].
  apply andb_true_iff in H as [_ H]. done.
Qed.

Lemma der_step_added (TF : TransactionFlags.t) (f : Z) (w : string) :
  ∃ a, (if isDERSig w then Z.lor f (setSighashFlags TF f w) else f) = Z.lor f a
    ∧ has (ecdsa_sighash_bits TF) a.
Proof.
  destruct (isDERSig w) eqn:Hder.
  - destruct (setSighashFlags_added TF f w) as (a & -> & _ & Ha).
    exists a. split; [apply lor_added|]. by apply Ha, isDERSig_sighash.
  - exists 0. split; [by rewrite Z.lor_0_r|apply has_zero].
Qed.

(** X27. The three signature passes only add bits to the flags, and only
    signature-hash bits; the two passes that look for DER signatures never
    add [sighash_default]. *)
Theorem sighash_passes_add_sighash_bits (TF : TransactionFlags.t) (flags : Z) :
  (∀ witness, ∃ added,
      setSegwitSighashFlags TF flags witness = Z.lor flags added
      ∧ has (ecdsa_sighash_bits TF) added)
  ∧ (∀ scriptsig_asm, ∃ added,
      setLegacySighashFlags TF flags scriptsig_asm = Z.lor flags added
      ∧ has (ecdsa_sighash_bits TF) added)
  ∧ (∀ witness, ∃ added,
      setSchnorrSighashFlags TF flags witness = Z.lor flags added
      ∧ has (Z.lor (ecdsa_sighash_bits TF) (TransactionFlags.sighash_default TF)) added).
Proof.
  split; [|split].
  - intros witness. unfold setSegwitSighashFlags. apply fold_added.
    intros f w. apply der_step_added.
  - intros asm. unfold setLegacySighashFlags. apply fold_added.
    intros f item. destruct (JS.startsWith item "OP_"); [|apply der_step_added].
    exists 0. split; [by rewrite Z.lor_0_r|apply has_zero].
  - intros witness. unfold setSchnorrSighashFlags.
    assert (∃ a, flags = Z.lor flags a
                 ∧ has (Z.lor (ecdsa_sighash_bits TF) (TransactionFlags.sighash_default TF)) a)
      as Hsame by (exists 0; split; [by rewrite Z.lor_0_r|apply has_zero]).
    destruct witness as [[|w0 witness]|]; try done. cbv zeta.
    destruct (_ =? _)%nat.
    + destruct (JS.len w0 =? 130).
      * destruct (setSighashFlags_added TF flags w0) as (a & -> & Ha & _).
        exists a. split; [apply lor_added|done].
      * eexists. split; [reflexivity|apply has_lor_r].
    + apply fold_added. intros f w. destruct (JS.len w =? 130).
      * destruct (setSighashFlags_added TF f w) as (a & -> & Ha & _).
        exists a. split; [apply lor_added|done].
      * destruct (JS.len w =? 128).
        -- eexists. split; [reflexivity|apply has_lor_r].
        -- exists 0. split; [by rewrite Z.lor_0_r|apply has_zero].
Qed.

(** ** The Bech32 checksum *)

Lemma lxor_range (n a b : Z) :
  0 <= n → 0 <= a < 2 ^ n → 0 <= b < 2 ^ n → 0 <= Z.lxor a b < 2 ^ n.
Proof.
  intros Hn Ha Hb.
  assert (0 <= Z.lxor a b) as Hpos by (apply Z.lxor_nonneg; lia).
  split; [done|].
  destruct (Z.eq_dec (Z.lxor a b) 0) as [->|Hne]; [lia|].
  apply Z.log2_lt_pow2; [lia|].
  eapply Z.le_lt_trans; [apply Z.log2_lxor; lia|].
  assert (0 < n) as Hn'.
  { destruct (Z.eq_dec n 0) as [->|]; [|lia]. exfalso. apply Hne.
    assert (a = 0) as -> by lia. assert (b = 0) as -> by lia. done. }
  assert (∀ x, 0 <= x < 2 ^ n → Z.log2 x < n) as Hlog.
  { intros x Hx. destruct (Z.eq_dec x 0) as [->|]; [done|]. apply Z.log2_lt_pow2; lia. }
  apply Z.max_lub_lt; by apply Hlog.
Qed.

Lemma bxor_small (a b : Z) :
  0 <= a < 2 ^ 30 → 0 <= b < 2 ^ 30 →
  JS.bxor a b = Z.lxor a b ∧ 0 <= Z.lxor a b < 2 ^ 30.
Proof.
  intros Ha Hb. pose proof (lxor_range 30 a b ltac:(lia) Ha Hb) as Hr.
  split; [|done]. unfold JS.bxor.
  rewrite (ToInt32_small a), (ToInt32_small b) by lia.
  rewrite ToInt32_small by lia. done.
Qed.

Lemma sar_25 (pre : Z) : 0 <= pre < 2 ^ 30 → JS.sar pre 25 = pre / 2 ^ 25.
Proof.
  intros Hpre. unfold JS.sar. rewrite ToInt32_small by lia.
  change (25 mod 32) with 25. apply Z.shiftr_div_pow2. lia.
Qed.

Lemma low_25 (pre : Z) :
  0 <= pre < 2 ^ 30 → JS.shl (JS.band pre 0x1ffffff) 5 = (pre mod 2 ^ 25) * 32.
Proof.
  intros Hpre. unfold JS.shl, JS.band.
  rewrite (ToInt32_small pre), (ToInt32_small 0x1ffffff) by lia.
  change 0x1ffffff with (Z.ones 25). rewrite Z.land_ones by lia.
  pose proof (Z.mod_pos_bound pre (2 ^ 25)).
  rewrite !(ToInt32_small (pre mod 2 ^ 25)) by lia.
  change (5 mod 32) with 5. rewrite Z.shiftl_mul_pow2 by lia.
  rewrite ToInt32_small; lia.
Qed.

(** [polymodStep] is the low 25 bits moved up by five, combined with a
    value that only depends on the five bits above them. *)
Lemma polymodStep_shape (pre : Z) :
  ∃ G, 0 <= G < 2 ^ 30
    ∧ ∀ pre', JS.sar pre' 25 = JS.sar pre 25 →
        polymodStep pre' = JS.bxor (JS.shl (JS.band pre' 0x1ffffff) 5) G.
Proof.
  eexists. split; cycle 1.
  - intros pre' Hsar. unfold polymodStep. cbv zeta. rewrite Hsar. reflexivity.
  - cbv beta.
    repeat match goal with
           | |- context [if ?c then _ else _] => destruct c
           end; vm_compute; (split; [discriminate|reflexivity]).
Qed.

Lemma polymodStep_range (pre : Z) :
  0 <= pre < 2 ^ 30 → 0 <= polymodStep pre < 2 ^ 30.
Proof.
  intros Hpre. destruct (polymodStep_shape pre) as (G & HG & Hshape).
  rewrite (Hshape pre eq_refl), low_25 by done.
  pose proof (Z.mod_pos_bound pre (2 ^ 25)).
  destruct (bxor_small (pre mod 2 ^ 25 * 32) G) as [-> ?]; lia.
Qed.

(** A value below 2^25 that is combined into the state comes out of
    [polymodStep] moved up by five bits. *)
Lemma polymodStep_low (c d : Z) :
  0 <= c < 2 ^ 30 → 0 <= d < 2 ^ 25 →
  polymodStep (Z.lxor c d) = Z.lxor (polymodStep c) (d * 32).
Proof.
  intros Hc Hd.
  assert (0 <= Z.lxor c d < 2 ^ 30) as Hcd by (apply lxor_range; lia).
  destruct (polymodStep_shape c) as (G & HG & Hshape).
  assert (Z.lxor c d / 2 ^ 25 = c / 2 ^ 25) as Hhigh.
  { rewrite <- !Z.shiftr_div_pow2, Z.shiftr_lxor by lia.
    rewrite (Z.shiftr_div_pow2 d), (Z.div_small d), Z.lxor_0_r by lia. done. }
  assert (Z.lxor c d mod 2 ^ 25 = Z.lxor (c mod 2 ^ 25) d) as Hlow.
  { rewrite <- !Z.land_ones by lia.
    rewrite <- (Z.mod_small d (2 ^ 25)) at 2 by lia. rewrite <- (Z.land_ones d) by lia.
    apply Z.bits_inj'. intros n Hn. rewrite !Z.lxor_spec, !Z.land_spec, Z.lxor_spec.
    by destruct (Z.testbit c n), (Z.testbit d n), (Z.testbit (Z.ones 25) n). }
  rewrite (Hshape (Z.lxor c d)), (Hshape c eq_refl) by (rewrite !sar_25 by done; done).
  rewrite !low_25, Hlow by done.
  pose proof (Z.mod_pos_bound c (2 ^ 25)).
  assert (0 <= Z.lxor (c mod 2 ^ 25) d < 2 ^ 25) by (apply lxor_range; lia).
  destruct (bxor_small (Z.lxor (c mod 2 ^ 25) d * 32) G) as [-> _]; [lia|done|].
  destruct (bxor_small (c mod 2 ^ 25 * 32) G) as [-> _]; [lia|done|].
  rewrite <- !(Z.shiftl_mul_pow2 _ 5), Z.shiftl_lxor by lia.
  rewrite !Z.lxor_assoc. f_equal. apply Z.lxor_comm.
Qed.

Lemma lxor_low (d w : Z) : 0 <= d → 0 <= w < 32 → Z.lxor (d * 32) w = d * 32 + w.
Proof.
  intros Hd Hw. symmetry. apply Z.add_nocarry_lxor.
  apply Z.bits_inj'. intros n Hn. rewrite Z.land_spec, Z.bits_0.
  change 32 with (2 ^ 5). rewrite <- Z.shiftl_mul_pow2 by lia.
  destruct (Z.lt_ge_cases n 5).
  - rewrite Z.shiftl_spec_low by lia. done.
  - rewrite (Z.bits_above_log2 w n), andb_false_r; [done|lia|].
    destruct (Z.eq_dec w 0) as [->|]; [cbn; lia|].
    assert (Z.log2 w < 5) by (apply Z.log2_lt_pow2; lia). lia.
Qed.

(** One turn of the checksum loop on a state that differs from [c] by
    the value [d]. *)
Lemma checksum_step (c d w : Z) :
  0 <= c < 2 ^ 30 → 0 <= d < 2 ^ 25 → 0 <= w < 32 →
  JS.bxor (polymodStep (Z.lxor c d)) w = Z.lxor (polymodStep c) (d * 32 + w)
  ∧ 0 <= d * 32 + w < 2 ^ 30.
Proof.
  intros Hc Hd Hw. split; [|lia].
  pose proof (polymodStep_range c Hc).
  assert (0 <= Z.lxor (polymodStep c) (d * 32) < 2 ^ 30) by (apply lxor_range; lia).
  rewrite polymodStep_low by done.
  destruct (bxor_small (Z.lxor (polymodStep c) (d * 32)) w) as [-> _]; [done|lia|].
  rewrite Z.lxor_assoc, lxor_low by lia. done.
Qed.

Lemma fold_left_preserves {A B} (P : A → Prop) (Q : B → Prop) (f : A → B → A) :
  (∀ a b, P a → Q b → P (f a b)) →
  ∀ l a, Forall Q l → P a → P (fold_left f l a).
Proof.
  intros Hf l. induction l as [|b l IH]; intros a Hl Ha; [exact Ha|].
  apply Forall_cons in Hl as [Hb Hl]. apply (IH (f a b) Hl). by apply Hf.
Qed.

Lemma checksum_turn_range (f : Z → Z) (c x : Z) :
  0 <= c < 2 ^ 30 → 0 <= f x < 32 → 0 <= JS.bxor (polymodStep c) (f x) < 2 ^ 30.
Proof.
  intros Hc Hw. pose proof (polymodStep_range c Hc) as Hp.
  destruct (bxor_small (polymodStep c) (f x)) as [Heq Hr]; [exact Hp|lia|].
  rewrite Heq. exact Hr.
Qed.

Lemma checksum_fold_range (ws : list Z) (c : Z) :
  is_words ws → 0 <= c < 2 ^ 30 →
  0 <= fold_left (fun chk x => JS.bxor (polymodStep chk) x) ws c < 2 ^ 30.
Proof.
  intros Hws Hc.
  apply (fold_left_preserves (fun c => 0 <= c < 2 ^ 30) (fun w => 0 <= w < 32)
           (fun chk x => JS.bxor (polymodStep chk) x)); [|exact Hws|exact Hc].
  intros a b Ha Hb. exact (checksum_turn_range (fun x => x) a b Ha Hb).
Qed.

Lemma charCode_range (s : string) : Forall (fun c => 0 <= c < 256) (charCodes s).
Proof.
  unfold charCodes. apply Forall_map, Forall_forall. intros c _. cbv beta.
  pose proof (nat_ascii_bounded c). lia.
Qed.

Lemma sar_5_range (x : Z) : 0 <= x < 256 → 0 <= JS.sar x 5 < 32.
Proof.
  intros Hx. unfold JS.sar. rewrite ToInt32_small by lia. change (5 mod 32) with 5.
  rewrite Z.shiftr_div_pow2 by lia. split; [apply Z.div_pos; lia|].
  apply Z.div_lt_upper_bound; lia.
Qed.

Lemma prefixChk_range (prefix : string) : 0 <= prefixChk prefix < 2 ^ 30.
Proof.
  unfold prefixChk. cbv zeta. pose proof (charCode_range prefix) as Hcodes.
  apply (fold_left_preserves (fun c => 0 <= c < 2 ^ 30) (fun c => 0 <= c < 256)
           (fun chk c => JS.bxor (polymodStep chk) (JS.band c 31))); [|exact Hcodes|].
  { intros a b Ha Hb. apply (checksum_turn_range (fun c => JS.band c 31) a b Ha).
    apply band_31. }
  apply polymodStep_range.
  apply (fold_left_preserves (fun c => 0 <= c < 2 ^ 30) (fun c => 0 <= c < 256)
           (fun chk c => JS.bxor (polymodStep chk) (JS.sar c 5))); [|exact Hcodes|lia].
  intros a b Ha Hb. apply (checksum_turn_range (fun c => JS.sar c 5) a b Ha).
  by apply sar_5_range.
Qed.

Lemma checksum_word (chk k : Z) :
  0 <= chk < 2 ^ 30 → 0 <= k <= 25 →
  JS.band (JS.sar chk k) 31 = (chk / 2 ^ k) mod 32.
Proof.
  intros Hchk Hk. unfold JS.band, JS.sar. rewrite (ToInt32_small chk), (ToInt32_small 31) by lia.
  rewrite (Z.mod_small k 32) by lia. rewrite Z.shiftr_div_pow2 by lia.
  assert (0 <= chk / 2 ^ k < 2 ^ 30).
  { split; [apply Z.div_pos; lia|]. apply Z.div_lt_upper_bound; [lia|].
    assert (1 <= 2 ^ k) by (apply (Z.pow_le_mono_r 2 0 k); lia). nia. }
  rewrite (ToInt32_small (chk / 2 ^ k)) by lia.
  change 31 with (Z.ones 5). rewrite Z.land_ones by lia.
  pose proof (Z.mod_pos_bound (chk / 2 ^ k) (2 ^ 5)).
  rewrite ToInt32_small; [done|lia].
Qed.

Lemma fold_left_cons {A B} (f : A → B → A) (b : B) (l : list B) (a : A) :
  fold_left f (b :: l) a = fold_left f l (f a b).
Proof. reflexivity. Qed.

Lemma fold_left_nil {A B} (f : A → B → A) (a : A) : fold_left f [] a = a.
Proof. reflexivity. Qed.

Lemma iter_succ {A} (f : A → A) (n : nat) (a : A) :
  Nat.iter (S n) f a = f (Nat.iter n f a).
Proof. reflexivity. Qed.

Lemma iter_zero {A} (f : A → A) (a : A) : Nat.iter 0 f a = a.
Proof. reflexivity. Qed.

Lemma iter_range (n : nat) (c : Z) :
  0 <= c < 2 ^ 30 → 0 <= Nat.iter n polymodStep c < 2 ^ 30.
Proof.
  intros Hc. induction n as [|n IH]; [by rewrite iter_zero|].
  rewrite iter_succ. by apply polymodStep_range.
Qed.

(** Six turns of the checksum loop shift the state six times and combine
    the six words into it. *)
Lemma checksum_six (c w0 w1 w2 w3 w4 w5 : Z) :
  0 <= c < 2 ^ 30 →
  0 <= w0 < 32 → 0 <= w1 < 32 → 0 <= w2 < 32 → 0 <= w3 < 32 → 0 <= w4 < 32 → 0 <= w5 < 32 →
  fold_left (fun chk x => JS.bxor (polymodStep chk) x) [w0; w1; w2; w3; w4; w5] c
  = Z.lxor (Nat.iter 6 polymodStep c)
      (((((w0 * 32 + w1) * 32 + w2) * 32 + w3) * 32 + w4) * 32 + w5).
Proof.
  intros Hc H0 H1 H2 H3 H4 H5.
  rewrite !fold_left_cons, fold_left_nil, !iter_succ, iter_zero.
  pose proof (iter_range 1 c Hc) as Hc1. pose proof (iter_range 2 c Hc) as Hc2.
  pose proof (iter_range 3 c Hc) as Hc3. pose proof (iter_range 4 c Hc) as Hc4.
  pose proof (iter_range 5 c Hc) as Hc5.
  rewrite !iter_succ, iter_zero in Hc1. rewrite !iter_succ, iter_zero in Hc2.
  rewrite !iter_succ, iter_zero in Hc3. rewrite !iter_succ, iter_zero in Hc4.
  rewrite !iter_succ, iter_zero in Hc5.
  rewrite <- (Z.lxor_0_r c) at 1.
  destruct (checksum_step c 0 w0) as [-> Hd1]; try lia.
  destruct (checksum_step (polymodStep c) (0 * 32 + w0) w1) as [-> Hd2]; try lia.
  destruct (checksum_step (polymodStep (polymodStep c)) ((0 * 32 + w0) * 32 + w1) w2)
    as [-> Hd3]; try lia.
  destruct (checksum_step (polymodStep (polymodStep (polymodStep c)))
              (((0 * 32 + w0) * 32 + w1) * 32 + w2) w3) as [-> Hd4]; try lia.
  destruct (checksum_step (polymodStep (polymodStep (polymodStep (polymodStep c))))
              ((((0 * 32 + w0) * 32 + w1) * 32 + w2) * 32 + w3) w4) as [-> Hd5]; try lia.
  destruct (checksum_step
              (polymodStep (polymodStep (polymodStep (polymodStep (polymodStep c)))))
              (((((0 * 32 + w0) * 32 + w1) * 32 + w2) * 32 + w3) * 32 + w4) w5)
    as [-> Hd6]; try lia.
  by rewrite Z.mul_0_l, Z.add_0_l.
Qed.

Lemma checksum_words_sum (chk : Z) :
  0 <= chk < 2 ^ 30 →
  ((((((chk / 2 ^ 25) mod 32 * 32 + (chk / 2 ^ 20) mod 32) * 32
       + (chk / 2 ^ 15) mod 32) * 32 + (chk / 2 ^ 10) mod 32) * 32
     + (chk / 2 ^ 5) mod 32) * 32 + (chk / 2 ^ 0) mod 32) = chk.
Proof.
  intros Hchk.
  change (2 ^ 25) with (32 * 32 * 32 * 32 * 32). change (2 ^ 20) with (32 * 32 * 32 * 32).
  change (2 ^ 15) with (32 * 32 * 32). change (2 ^ 10) with (32 * 32).
  change (2 ^ 5) with 32. change (2 ^ 0) with 1. change (2 ^ 30) with 1073741824 in Hchk.
  rewrite Z.div_1_r. rewrite <- !Z.div_div by lia.
  rewrite (Z.mod_small (chk / 32 / 32 / 32 / 32 / 32) 32).
  2: { split; [repeat apply Z.div_pos; lia|].
       repeat (apply Z.div_lt_upper_bound; [lia|]). lia. }
  pose proof (Z.div_mod chk 32). pose proof (Z.div_mod (chk / 32) 32).
  pose proof (Z.div_mod (chk / 32 / 32) 32). pose proof (Z.div_mod (chk / 32 / 32 / 32) 32).
  pose proof (Z.div_mod (chk / 32 / 32 / 32 / 32) 32). lia.
Qed.

Lemma createChecksum_unfold (prefix : string) (words : list Z) (constant : Z) :
  is_words words → 0 <= constant < 2 ^ 30 →
  ∃ c chk,
    c = fold_left (fun chk x => JS.bxor (polymodStep chk) x) words (prefixChk prefix)
    ∧ 0 <= c < 2 ^ 30
    ∧ chk = Z.lxor (Nat.iter 6 polymodStep c) constant
    ∧ 0 <= chk < 2 ^ 30
    ∧ createChecksum prefix words constant
      = [(chk / 2 ^ 25) mod 32; (chk / 2 ^ 20) mod 32; (chk / 2 ^ 15) mod 32;
         (chk / 2 ^ 10) mod 32; (chk / 2 ^ 5) mod 32; (chk / 2 ^ 0) mod 32].
Proof.
  intros Hwords Hconstant.
  pose proof (checksum_fold_range words (prefixChk prefix) Hwords (prefixChk_range prefix)) as Hc.
  pose proof (iter_range 6 _ Hc) as Hc6.
  destruct (bxor_small _ constant Hc6 Hconstant) as [Hx Hchk].
  eexists _, _. split; [reflexivity|]. split; [exact Hc|]. split; [reflexivity|].
  split; [exact Hchk|].
  unfold createChecksum. cbv zeta. rewrite Hx.
  change (seq 0 6) with [0; 1; 2; 3; 4; 5]%nat.
  cbn [map].
  change (5 * (5 - Z.of_nat 0)) with 25. change (5 * (5 - Z.of_nat 1)) with 20.
  change (5 * (5 - Z.of_nat 2)) with 15. change (5 * (5 - Z.of_nat 3)) with 10.
  change (5 * (5 - Z.of_nat 4)) with 5. change (5 * (5 - Z.of_nat 5)) with 0.
  by rewrite !checksum_word by lia.
Qed.

(** X28. The six checksum words make the checksum of the whole address
    come out as the constant: running the checksum loop of
    [createChecksum] over the words followed by their checksum ends in
    [constant]. *)
Theorem bech32_checksum_verifies (prefix : string) (words : list Z) (constant : Z) :
  is_words words → 0 <= constant < 2 ^ 30 →
  fold_left (fun chk x => JS.bxor (polymodStep chk) x)
    (words ++ createChecksum prefix words constant) (prefixChk prefix)
  = constant.
Proof.
  intros Hwords Hconstant. rewrite fold_left_app.
  destruct (createChecksum_unfold prefix words constant Hwords Hconstant)
    as (c & chk & <- & Hc & Hchk & Hrange & ->).
  rewrite checksum_six; try (apply Z.mod_pos_bound; lia); [|exact Hc].
  rewrite (checksum_words_sum chk Hrange), Hchk.
  by rewrite <- Z.lxor_assoc, Z.lxor_nilpotent, Z.lxor_0_l.
Qed.

Lemma bech32_checksum_verifies_witness :
  fold_left (fun chk x => JS.bxor (polymodStep chk) x)
    ([0; 14; 20; 15] ++ createChecksum "bc" [0; 14; 20; 15] 1) (prefixChk "bc")
  = 1.
Proof.
  apply (bech32_checksum_verifies "bc" [0; 14; 20; 15] 1).
  - repeat (apply Forall_cons_2; [lia|]). apply Forall_nil_2.
  - lia.
Defined.

(** ** Base58 *)

Lemma base58_value_app (acc : Z) (s1 s2 : string) :
  base58_value acc (s1 +:+ s2) = base58_value (base58_value acc s1) s2.
Proof.
  revert acc. induction s1 as [|c s1 IH]; intros acc; [done|].
  change (String c s1 +:+ s2) with (String c (s1 +:+ s2)). cbn [base58_value]. apply IH.
Qed.

Lemma base58_digit (i : Z) :
  0 <= i < 58 →
  ∃ c, charAt BASE58_ALPHABET i = String c EmptyString
    ∧ index_of c BASE58_ALPHABET = i ∧ (c = "1"%char → i = 0).
Proof.
  intros Hi. replace i with (Z.of_nat (Z.to_nat i)) by lia.
  assert (Z.to_nat i < 58)%nat as Hn by lia. revert Hn. generalize (Z.to_nat i). clear.
  intros n Hn.
  do 58 (destruct n as [|n];
         [eexists; split; [vm_compute; reflexivity|];
          split; [vm_compute; reflexivity|]; vm_compute; congruence|]).
  lia.
Qed.

(** The division loop writes the digits of [num], most significant first,
    and no leading zero digit. *)
Lemma base58_digits_spec (fuel : nat) (num : Z) (encoded : string) :
  0 <= num < 2 ^ Z.of_nat fuel →
  ∃ digits, base58_digits fuel num encoded = digits +:+ encoded
    ∧ base58_value 0 digits = num
    ∧ ∀ s, digits ≠ String "1" s.
Proof.
  revert num encoded. induction fuel as [|fuel IH]; intros num encoded Hnum.
  - exists "". cbn [base58_digits]. split; [done|]. split; [|done].
    change (2 ^ Z.of_nat 0) with 1 in Hnum. cbn [base58_value]. lia.
  - cbn [base58_digits]. destruct (Z.ltb_spec 0 num) as [Hpos|Hzero].
    2: { exists "". split; [done|]. split; [cbn [base58_value]; lia|done]. }
    rewrite Nat2Z.inj_succ, Z.pow_succ_r in Hnum by lia.
    destruct (base58_digit (num mod 58)) as (c & Hc & Hidx & Hone).
    { apply Z.mod_pos_bound. lia. }
    destruct (IH (num / 58) (charAt BASE58_ALPHABET (num mod 58) +:+ encoded))
      as (digits & -> & Hvalue & Hlead).
    { split; [apply Z.div_pos; lia|]. apply Z.div_lt_upper_bound; lia. }
    exists (digits +:+ charAt BASE58_ALPHABET (num mod 58)).
    split; [by rewrite string_app_assoc|]. split.
    + rewrite base58_value_app, Hvalue, Hc. cbn [base58_value]. rewrite Hidx.
      pose proof (Z.div_mod num 58). lia.
    + intros s. destruct digits as [|c' digits].
      * cbn [base58_value] in Hvalue. rewrite Hc.
        change ("" +:+ String c "") with (String c ""). intros [= -> _].
        specialize (Hone eq_refl). pose proof (Z.div_mod num 58). lia.
      * change (String c' digits +:+ charAt BASE58_ALPHABET (num mod 58))
          with (String c' (digits +:+ charAt BASE58_ALPHABET (num mod 58))).
        intros [= -> _]. by apply (Hlead digits).
Qed.

Lemma leading_ones_spec (data : list Z) (encoded : string) :
  leading_ones data encoded = ones (count_zeros data) +:+ encoded.
Proof.
  induction data as [|[| |] data IH]; try done.
  cbn [leading_ones count_zeros ones]. rewrite IH.
  change ("1" +:+ ones (count_zeros data) +:+ encoded)
    with (String "1" (ones (count_zeros data) +:+ encoded)).
  done.
Qed.

Lemma strip_zeros_spec (data : list Z) :
  data = (replicate (count_zeros data) 0 ++ strip_zeros data)%list
  ∧ be_value data = be_value (strip_zeros data)
  ∧ ∀ rest, strip_zeros data ≠ 0 :: rest.
Proof.
  induction data as [|[| |] data (IH1 & IH2 & IH3)]; try done.
  cbn [count_zeros strip_zeros replicate app]. split; [by rewrite <- IH1|]. split; [|done].
  rewrite <- IH2. done.
Qed.

Lemma ones_injective (n1 n2 : nat) (s1 s2 : string) :
  (∀ s, s1 ≠ String "1" s) → (∀ s, s2 ≠ String "1" s) →
  ones n1 +:+ s1 = ones n2 +:+ s2 → n1 = n2 ∧ s1 = s2.
Proof.
  intros H1 H2. revert n2. induction n1 as [|n1 IH]; intros [|n2] Heq.
  - done.
  - exfalso. apply (H1 (ones n2 +:+ s2)). exact Heq.
  - exfalso. apply (H2 (ones n1 +:+ s1)). symmetry. exact Heq.
  - change (String "1" (ones n1 +:+ s1) = String "1" (ones n2 +:+ s2)) in Heq.
    injection Heq as Heq. destruct (IH n2 Heq) as [-> ->]. done.
Qed.

Lemma be_value_from (data : list Z) (acc : Z) :
  fold_left (fun acc b => acc * 256 + b) data acc
  = acc * 256 ^ Z.of_nat (length data) + be_value data.
Proof.
  unfold be_value. revert acc. induction data as [|b data IH]; intros acc.
  - cbn [fold_left length]. change (256 ^ Z.of_nat 0) with 1. lia.
  - cbn [fold_left length]. rewrite IH, (IH (0 * 256 + b)).
    rewrite Nat2Z.inj_succ, Z.pow_succ_r by lia. lia.
Qed.

Lemma be_value_cons (b : Z) (data : list Z) :
  be_value (b :: data) = b * 256 ^ Z.of_nat (length data) + be_value data.
Proof.
  unfold be_value at 1. cbn [fold_left]. rewrite be_value_from. lia.
Qed.

Lemma be_value_bound (data : list Z) :
  is_bytes data → 0 <= be_value data < 256 ^ Z.of_nat (length data).
Proof.
  induction 1 as [|b data Hb _ IH]; [by vm_compute|].
  rewrite be_value_cons. cbn [length]. rewrite Nat2Z.inj_succ, Z.pow_succ_r by lia. nia.
Qed.

Lemma be_value_injective (d1 d2 : list Z) :
  is_bytes d1 → is_bytes d2 → length d1 = length d2 →
  be_value d1 = be_value d2 → d1 = d2.
Proof.
  intros H1. revert d2. induction H1 as [|b1 d1 Hb1 Hd1 IH]; intros d2 H2 Hlen Hv.
  - by destruct d2.
  - destruct H2 as [|b2 d2 Hb2 Hd2]; [done|]. cbn [length] in Hlen.
    injection Hlen as Hlen. rewrite !be_value_cons, Hlen in Hv.
    pose proof (be_value_bound d1 Hd1) as B1. pose proof (be_value_bound d2 Hd2) as B2.
    rewrite Hlen in B1.
    assert (b1 = b2) as -> by nia.
    f_equal. apply IH; [done|done|lia].
Qed.

Lemma be_value_canonical (d1 d2 : list Z) :
  is_bytes d1 → is_bytes d2 →
  (∀ rest, d1 ≠ 0 :: rest) → (∀ rest, d2 ≠ 0 :: rest) →
  be_value d1 = be_value d2 → d1 = d2.
Proof.
  intros H1 H2 Hc1 Hc2 Hv.
  assert (∀ d, is_bytes d → (∀ rest, d ≠ 0 :: rest) →
               d = [] ∧ be_value d = 0
               ∨ 256 ^ (Z.of_nat (length d) - 1) <= be_value d
                 ∧ (0 < length d)%nat) as Hlow.
  { intros [|b d] Hd Hc; [by left|right]. apply Forall_cons in Hd as [Hb Hd].
    assert (b ≠ 0) by (intros ->; by apply (Hc d)).
    rewrite be_value_cons. cbn [length]. rewrite Nat2Z.inj_succ.
    replace (Z.succ (Z.of_nat (length d)) - 1) with (Z.of_nat (length d)) by lia.
    pose proof (be_value_bound d Hd).
    split; [nia|lia]. }
  assert (∀ a b : nat, (a < b)%nat → 256 ^ Z.of_nat a <= 256 ^ (Z.of_nat b - 1)) as Hpow.
  { intros a b Hab. apply Z.pow_le_mono_r; lia. }
  pose proof (be_value_bound d1 H1) as B1. pose proof (be_value_bound d2 H2) as B2.
  apply be_value_injective; try done.
  destruct (Hlow d1 H1 Hc1) as [[-> V1]|[L1 P1]], (Hlow d2 H2 Hc2) as [[-> V2]|[L2 P2]].
  - done.
  - exfalso. rewrite V1 in Hv. rewrite <- Hv in L2.
    assert (0 < 256 ^ (Z.of_nat (length d2) - 1)) by (apply Z.pow_pos_nonneg; lia). lia.
  - exfalso. rewrite V2 in Hv. rewrite Hv in L1.
    assert (0 < 256 ^ (Z.of_nat (length d1) - 1)) by (apply Z.pow_pos_nonneg; lia). lia.
  - destruct (Nat.lt_trichotomy (length d1) (length d2)) as [Hlt|[Heq|Hgt]]; [|done|].
    + exfalso. pose proof (Hpow _ _ Hlt). lia.
    + exfalso. pose proof (Hpow _ _ Hgt). lia.
Qed.

Lemma base58Encode_spec (data : list Z) :
  is_bytes data →
  ∃ digits, base58Encode data = ones (count_zeros data) +:+ digits
    ∧ base58_value 0 digits = be_value data
    ∧ ∀ s, digits ≠ String "1" s.
Proof.
  intros Hbytes. unfold base58Encode. cbv zeta. rewrite leading_ones_spec.
  pose proof (be_value_bound data Hbytes) as [Hpos _].
  destruct (base58_digits_spec (Z.to_nat (Z.log2 (be_value data) + 1)) (be_value data) "")
    as (digits & -> & Hv & Hlead).
  - split; [done|]. rewrite Z2Nat.id by (pose proof (Z.log2_nonneg (be_value data)); lia).
    destruct (Z.eq_dec (be_value data) 0) as [->|]; [by vm_compute|].
    apply Z.log2_spec. lia.
  - exists digits. by rewrite string_app_empty_r.
Qed.

Lemma base58Encode_inj (d1 d2 : list Z) :
  is_bytes d1 → is_bytes d2 → base58Encode d1 = base58Encode d2 → d1 = d2.
Proof.
  intros H1 H2 Heq.
  destruct (base58Encode_spec d1 H1) as (s1 & E1 & V1 & L1).
  destruct (base58Encode_spec d2 H2) as (s2 & E2 & V2 & L2).
  rewrite E1, E2 in Heq. apply ones_injective in Heq as [Hz ->]; [|done|done].
  destruct (strip_zeros_spec d1) as (D1 & B1 & C1).
  destruct (strip_zeros_spec d2) as (D2 & B2 & C2).
  rewrite D1, D2, Hz. f_equal.
  assert (∀ d, is_bytes d → is_bytes (strip_zeros d)) as Hstrip.
  { intros d Hd. induction Hd as [|[| |] d Hb Hd IH]; try done; by constructor. }
  apply be_value_canonical; auto. congruence.
Qed.

(** X29. Base58 encoding tells byte arrays apart: two arrays of bytes with
    the same encoding are the same array.  (The arrays are not empty: on
    an empty array the source raises a syntax error.) *)
Theorem base58Encode_injective (d1 d2 : list Z) :
  is_bytes d1 → is_bytes d2 → d1 ≠ [] → d2 ≠ [] → d1 ≠ d2 →
  base58Encode d1 ≠ base58Encode d2.
Proof. intros H1 H2 _ _ Hne Heq. by apply Hne, base58Encode_inj. Qed.

Lemma base58Encode_injective_witness :
  is_bytes [0; 1; 2] ∧ base58Encode [0; 1; 2] ≠ base58Encode [1; 2].
Proof.
  assert (is_bytes [0; 1; 2]) as H1 by (repeat (apply Forall_cons_2; [lia|]); apply Forall_nil_2).
  assert (is_bytes [1; 2]) as H2 by (repeat (apply Forall_cons_2; [lia|]); apply Forall_nil_2).
  split; [exact H1|].
  apply (base58Encode_injective [0; 1; 2] [1; 2] H1 H2); discriminate.
Defined.

Section Addresses.
Variable sha256 : list Z → list Z.
Hypothesis sha256_bytes : ∀ l, is_bytes (sha256 l).

Lemma aslice_is_bytes (l : list Z) (a b : Z) : is_bytes l → is_bytes (JS.aslice l a b).
Proof.
  intros Hl. unfold JS.aslice. cbv zeta. unfold is_bytes.
  apply Forall_take, Forall_drop. exact Hl.
Qed.

Lemma base58check_inj (version : Z) (h1 h2 : string) :
  0 <= version < 256 →
  String.length h1 = String.length h2 →
  Nat.even (String.length h1) = true →
  all_chars is_lower_hex h1 = true → all_chars is_lower_hex h2 = true →
  base58check sha256 version h1 = base58check sha256 version h2 → h1 = h2.
Proof.
  intros Hv Hlen Heven Hh1 Hh2 Heq. unfold base58check in Heq. cbv zeta in Heq.
  apply base58Encode_inj in Heq.
  - injection Heq as Heq. apply app_inj_1 in Heq as [Heq _].
    + rewrite <- (hex_string_round_trip h1), <- (hex_string_round_trip h2), Heq;
        try done. by rewrite <- Hlen.
    + unfold hexStringToUint8Array. by rewrite !length_map, !length_seq, Hlen.
  - apply Forall_cons_2; [done|]. apply Forall_app. split.
    + apply hexStringToUint8Array_is_bytes.
    + apply aslice_is_bytes, sha256_bytes.
  - apply Forall_cons_2; [done|]. apply Forall_app. split.
    + apply hexStringToUint8Array_is_bytes.
    + apply aslice_is_bytes, sha256_bytes.
Qed.

End Addresses.

(** X30. Two different hashes of 40 lower-case hex digits never get the
    same P2PKH address nor the same P2SH address, whatever the network,
    when [sha256] returns bytes. *)
Theorem base58_addresses_are_distinct (sha256 : list Z → list Z)
    (h1 h2 network : string) :
  (∀ l, is_bytes (sha256 l)) →
  String.length h1 = 40%nat → String.length h2 = 40%nat →
  all_chars is_lower_hex h1 = true → all_chars is_lower_hex h2 = true →
  h1 ≠ h2 →
  p2pkh sha256 h1 network ≠ p2pkh sha256 h2 network
  ∧ p2sh sha256 h1 network ≠ p2sh sha256 h2 network.
Proof.
  intros Hsha Hl1 Hl2 Hh1 Hh2 Hne. unfold p2pkh, p2sh.
  split; intros Heq; apply Hne;
    (eapply (base58check_inj sha256 Hsha); [| | | | |exact Heq]);
    try done; try congruence; try (by rewrite Hl1);
    destruct (is_testnet network); lia.
Qed.

Lemma base58_addresses_are_distinct_witness :
  p2pkh constant_digest "751e76e8199196d454941c45d1b3a323f1433bd6" ""
  ≠ p2pkh constant_digest "0000000000000000000000000000000000000000" ""
  ∧ p2sh constant_digest "751e76e8199196d454941c45d1b3a323f1433bd6" ""
    ≠ p2sh constant_digest "0000000000000000000000000000000000000000" "".
Proof.
  refine (base58_addresses_are_distinct constant_digest
            "751e76e8199196d454941c45d1b3a323f1433bd6"
            "0000000000000000000000000000000000000000" "" _ _ _ _ _ _);
    try reflexivity; [|discriminate].
  intros l. unfold constant_digest. apply Forall_replicate. lia.
Defined.
